(** * perflock: contract resolution, run aggregation and contract validation

    A shallow embedding of the measurement-aggregation and
    contract-validation core of [@samithahansaka/perflock]:

    - [packages/core/src/contracts/types.ts]      (data model),
    - [packages/core/src/contracts/loader.ts]     (defaults, [validateConfig],
      the configuration cache),
    - [packages/core/src/contracts/validator.ts]  (budget validation),
    - [packages/core/src/measurement/profiler.ts] (profilers),
    - [packages/core/src/measurement/interaction.ts] (interactions, run
      aggregation),
    - [packages/core/src/reporters/json.ts]       (reports),
    - [packages/core/src/jest.ts]                 (test matchers),
    - [packages/github-action/src/index.ts]       (the job's verdict).

    A JavaScript [number] is an IEEE 754 binary64 value.  It is modelled by
    Rocq's primitive [float], which is the same format with the same
    round-to-nearest-even arithmetic, so that every definition below
    evaluates exactly as the TypeScript does, including [NaN], the
    infinities, signed zeros and rounding.  General facts about the
    primitive operations are obtained from their specification in
    [FloatAxioms] over [SpecFloat]. *)

From Stdlib Require Import Floats ZArith NArith List String Bool Lia.
From Stdlib Require Import Permutation Sorted.
From Stdlib Require DecimalString.
Import ListNotations.

Set Warnings "-inexact-float".

Local Open Scope string_scope.
Local Open Scope list_scope.

(* ================================================================== *)
(** * JavaScript values used by the engine *)
(* ================================================================== *)

Module JS.

(** The JS [number] type. *)
Definition number := float.

Definition Infinity : number := infinity.
Definition NaN : number := nan.

(** [a > b] and [a >= b] are the flipped primitive comparisons; all four
    are false as soon as one side is [NaN]. *)
Definition lt (a b : number) : bool := (a <? b)%float.
Definition le (a b : number) : bool := (a <=? b)%float.
Definition gt (a b : number) : bool := (b <? a)%float.
Definition ge (a b : number) : bool := (b <=? a)%float.

(** [a === b] and [a !== b] on numbers: IEEE equality ([NaN] differs from
    itself, the two zeros are equal). *)
Definition strict_eq (a b : number) : bool := (a =? b)%float.
Definition strict_neq (a b : number) : bool := negb (a =? b)%float.

(** The number denoted by an integer (array lengths, loop counters);
    exact below [2^53], correctly rounded above. *)
Definition of_Z (n : Z) : number :=
  SF2Prim (binary_normalize prec emax n 0 false).

Definition of_nat (n : nat) : number := of_Z (Z.of_nat n).

Definition is_finite (x : number) : bool :=
  match Prim2SF x with
  | S754_zero _ | S754_finite _ _ _ => true
  | S754_infinity _ | S754_nan => false
  end.

(** [Number.isInteger(x)] (ECMAScript 21.1.2.3): finite and integral. *)
Definition Number_isInteger (x : number) : bool :=
  match Prim2SF x with
  | S754_zero _ => true
  | S754_finite _ m e =>
      (0 <=? e)%Z || (Z.pos m mod 2 ^ (- e) =? 0)%Z
  | S754_infinity _ | S754_nan => false
  end.

(** [Math.round(x)] (ECMAScript 21.3.2.28): [x] itself when it is not
    finite or is integral; otherwise the integer closest to [x], ties
    towards [+Infinity]; a result of zero keeps the sign of [x].  For
    [x = s * m * 2^e] with [e < 0] the closest integer is
    [floor ((2 * s * m + 2^(-e)) / 2^(-e+1))]. *)
Definition Math_round (x : number) : number :=
  if negb (is_finite x) || Number_isInteger x then x
  else
    match Prim2SF x with
    | S754_finite s m e =>
        let n := ((2 * cond_Zopp s (Z.pos m) + 2 ^ (- e)) / 2 ^ (- e + 1))%Z in
        if (n =? 0)%Z then (if s then neg_zero else zero) else of_Z n
    | _ => x
    end.

(** Truthiness of a number: [0], [-0] and [NaN] are falsy. *)
Definition truthy (x : number) : bool :=
  negb (PrimFloat.is_nan x || PrimFloat.is_zero x).

(** [v || 0] where [v] is a possibly-undefined number. *)
Definition or_zero (v : option number) : number :=
  match v with
  | Some x => if truthy x then x else zero
  | None => zero
  end.

(** [v ?? d]: only [undefined] (and [null]) select the default. *)
Definition nullish {A : Type} (v : option A) (d : A) : A :=
  match v with
  | Some x => x
  | None => d
  end.

(** A thrown exception or a returned value. *)
Inductive completion (A : Type) : Type :=
| Return (a : A)
| Throw (message : string).
Arguments Return {A} a.
Arguments Throw {A} message.

Definition bind {A B : Type} (c : completion A) (k : A -> completion B)
  : completion B :=
  match c with
  | Return a => k a
  | Throw e => Throw e
  end.

(** ** Plain objects and [Map]s

    An object, like a [Map], is the list of its own properties in the
    order they were created.  Assignment to an existing key keeps its
    position; assignment to a new key appends.  A [Map] iterates in that
    order ([keys]).  So does [Object.entries] on an object none of whose
    keys is an array index ([entries]); this is the case of every object
    keyed by interaction kinds.  For objects keyed by arbitrary strings
    see [Object_entries] below. *)
Section Objects.
Context {K V : Type} (eqb : K -> K -> bool).

Definition object := list (K * V).

Fixpoint get (o : object) (k : K) : option V :=
  match o with
  | [] => None
  | (k', v) :: o' => if eqb k k' then Some v else get o' k
  end.

Fixpoint set (o : object) (k : K) (v : V) : object :=
  match o with
  | [] => [(k, v)]
  | (k', v') :: o' =>
      if eqb k k' then (k', v) :: o' else (k', v') :: set o' k v
  end.

Definition entries (o : object) : list (K * V) := o.
Definition keys (o : object) : list K := map fst o.
End Objects.

(** ** The enumeration order of string keys

    [Object.entries] lists the own properties of an ordinary object in
    the order of [OrdinaryOwnPropertyKeys] (ECMAScript 10.1.11.1): first
    the keys that are array indices, in ascending numeric order, then the
    other string keys in the order they were created.  An array index is
    the canonical decimal form of an integer from [0] to [2^32 - 2]: the
    digits of the number without a leading zero. *)
Definition digitValue (c : Ascii.ascii) : option N :=
  let n := Ascii.N_of_ascii c in
  if (48 <=? n)%N && (n <=? 57)%N then Some (n - 48)%N else None.

Fixpoint digitsValue (s : string) (acc : N) : option N :=
  match s with
  | EmptyString => Some acc
  | String c s' =>
      match digitValue c with
      | Some d => digitsValue s' (10 * acc + d)%N
      | None => None
      end
  end.

Definition arrayIndex (key : string) : option N :=
  match key with
  | EmptyString => None
  | String c rest =>
      if (Ascii.N_of_ascii c =? 48)%N && negb (String.eqb rest "") then None
      else
        match digitsValue key 0 with
        | Some n => if (n <? 4294967295)%N then Some n else None
        | None => None
        end
  end.

Definition isArrayIndex (key : string) : bool :=
  match arrayIndex key with
  | Some _ => true
  | None => false
  end.

Section StringKeys.
Context {V : Type}.

(** Insertion into a list sorted by index; among equal indices the one
    inserted stays in front. *)
Fixpoint insertByIndex (i : N) (e : string * V)
  (sorted : list (N * (string * V))) : list (N * (string * V)) :=
  match sorted with
  | [] => [(i, e)]
  | (j, e') :: rest =>
      if (i <=? j)%N then (i, e) :: sorted
      else (j, e') :: insertByIndex i e rest
  end.

(** The properties whose key is an array index, in ascending order. *)
Definition indexProperties (o : @object string V)
  : list (N * (string * V)) :=
  fold_right
    (fun e sorted =>
       match arrayIndex (fst e) with
       | Some i => insertByIndex i e sorted
       | None => sorted
       end)
    [] o.

(** The other properties, in creation order. *)
Definition namedProperties (o : @object string V) : list (string * V) :=
  filter (fun e => negb (isArrayIndex (fst e))) o.

Definition Object_entries (o : @object string V) : list (string * V) :=
  map snd (indexProperties o) ++ namedProperties o.
End StringKeys.

End JS.

Import JS.

Notation "'do' x <- c ; k" := (JS.bind c (fun x => k))
  (at level 10, x name, c at level 100, k at level 200).

(* ================================================================== *)
(** * Data model ([contracts/types.ts]) *)
(* ================================================================== *)

(** [InteractionType]: the interaction kinds that can be measured. *)
Inductive InteractionType : Type :=
| click | type | scroll | hover | focus | blur.

Definition InteractionType_eqb (a b : InteractionType) : bool :=
  match a, b with
  | click, click | type, type | scroll, scroll
  | hover, hover | focus, focus | blur, blur => true
  | _, _ => false
  end.

(** The string a kind is written as (object keys, template strings). *)
Definition InteractionType_name (t : InteractionType) : string :=
  match t with
  | click => "click" | type => "type" | scroll => "scroll"
  | hover => "hover" | focus => "focus" | blur => "blur"
  end.

(** An opaque JS value ([unknown]); the engine only stores such values. *)
Inductive unknown : Type :=
| UNull | UBool (b : bool) | UNumber (n : number) | UString (s : string).

(** [InteractionBudget].  [maxRenders] is declared required, but both
    [validateConfig] and [validateAgainstContract] guard against its being
    [undefined], so the field is kept optional here. *)
Record InteractionBudget : Type := {
  maxRenders : option number;
  ib_maxRenderTime : option number
}.

(** [ComponentContract]: the sparse, user-declared contract. *)
Record ComponentContract : Type := {
  cc_maxRenderTime : option number;
  cc_maxRenderCount : option number;
  cc_maxMemoryDelta : option number;
  cc_warningThreshold : option number;
  cc_interactions : option (@object InteractionType InteractionBudget);
  cc_meta : option (@object string unknown)
}.

(** [Required<ComponentContract>]: every field present. *)
Record ResolvedComponentContract : Type := {
  maxRenderTime : number;
  maxRenderCount : number;
  maxMemoryDelta : number;
  warningThreshold : number;
  interactions : @object InteractionType InteractionBudget;
  meta : @object string unknown
}.

(** [AggregateContract].  [components] is declared required; [validateConfig]
    guards against its absence, so it is optional here. *)
Record AggregateContract : Type := {
  components : option (list string);
  maxTotalRenderTime : option number;
  maxTotalRenderCount : option number
}.

Record BundleStats : Type := {
  bs_enabled : bool;
  bs_statsFile : option string
}.

Record Diagnostics : Type := {
  dg_enabled : bool;
  dg_suggestFixes : option bool;
  dg_sourceDir : option string
}.

(** [GlobalConfig]: the sparse global settings. *)
Record GlobalConfig : Type := {
  gc_runs : option number;
  gc_warmupRuns : option number;
  gc_historyWindow : option number;
  gc_regressionThreshold : option number;
  gc_outputDir : option string;
  gc_artifactName : option string;
  gc_bundleStats : option BundleStats;
  gc_diagnostics : option Diagnostics
}.

Record ResolvedBundleStats : Type := {
  rbs_enabled : bool;
  rbs_statsFile : option string
}.

Record ResolvedDiagnostics : Type := {
  rdg_enabled : bool;
  rdg_suggestFixes : bool;
  rdg_sourceDir : string
}.

(** [Required<GlobalConfig>]. *)
Record ResolvedGlobalConfig : Type := {
  runs : number;
  warmupRuns : number;
  historyWindow : number;
  regressionThreshold : number;
  outputDir : string;
  artifactName : string;
  bundleStats : ResolvedBundleStats;
  diagnostics : ResolvedDiagnostics
}.

(** [ContractConfig]: what the configuration collaborator supplies. *)
Record ContractConfig : Type := {
  cfg_global : option GlobalConfig;
  cfg_components : option (@object string ComponentContract);
  cfg_aggregates : option (@object string AggregateContract)
}.

(** [ResolvedConfig]; the two [Map]s are kept in insertion order. *)
Record ResolvedConfig : Type := {
  rc_global : ResolvedGlobalConfig;
  rc_components : @object string ResolvedComponentContract;
  rc_aggregates : @object string AggregateContract
}.

Inductive Phase : Type := mount | update | nested_update.

Record RenderEvent : Type := {
  phase : Phase;
  actualDuration : number;
  baseDuration : number;
  startTime : number;
  commitTime : number
}.

Record RenderMetrics : Type := {
  rm_componentName : string;
  renderCount : number;
  totalActualDuration : number;
  totalBaseDuration : number;
  rm_averageRenderTime : number;
  renders : list RenderEvent
}.

Record InteractionSpec : Type := {
  is_type : InteractionType;
  target : string;
  text : option string
}.

Record InteractionResult : Type := {
  interaction : InteractionSpec;
  rendersTriggered : number;
  totalRenderTime : number;
  ir_averageRenderTime : number
}.

Record ContractValidation : Type := {
  passed : bool;
  cv_contract : string
}.

(** [MeasureInteractionResult] ([measurement/interaction.ts]). *)
Record MeasureInteractionResult : Type := {
  mi_componentName : string;
  mi_metrics : RenderMetrics;
  interactionResults : list InteractionResult;
  totalRenders : number;
  rendersPerInteraction : number;
  rendersByType : @object InteractionType number;
  timestamp : number;
  contractValidation : option ContractValidation
}.

(** The argument type [RenderMetrics | MeasureInteractionResult].  The two
    run-time probes ['metrics' in measurements] and
    ['interactionResults' in measurements] both hold exactly for the second
    variant. *)
Inductive Measurements : Type :=
| PlainMetrics (m : RenderMetrics)
| InteractionMeasurement (r : MeasureInteractionResult).

Inductive ValidationStatus : Type := pass | warn | fail.

Definition ValidationStatus_eqb (a b : ValidationStatus) : bool :=
  match a, b with
  | pass, pass | warn, warn | fail, fail => true
  | _, _ => false
  end.

Record MetricValidation : Type := {
  actual : number;
  budget : number;
  utilization : number;
  mv_status : ValidationStatus;
  exceededBy : option number
}.

Inductive Severity : Type := minor | moderate | severe.

Record Violation : Type := {
  metric : string;
  v_budget : number;
  v_actual : number;
  exceededByPercent : number;
  severity : Severity
}.

Inductive SuggestionSeverity : Type := high | medium | low.

Record FixSuggestion : Type := {
  fs_severity : SuggestionSeverity;
  line : number;
  column : option number;
  pattern : string;
  description : string;
  fs_fix : string;
  codeSnippet : option string;
  filePath : option string
}.

(** The [metrics] member of a [ValidationResult]. *)
Record ResultMetrics : Type := {
  m_renderTime : option MetricValidation;
  m_renderCount : option MetricValidation;
  m_memoryDelta : option MetricValidation;
  m_rendersPerInteraction : option (@object InteractionType MetricValidation)
}.

Record ValidationResult : Type := {
  status : ValidationStatus;
  componentName : string;
  metrics : ResultMetrics;
  violations : list Violation;
  suggestions : list FixSuggestion
}.

(* ================================================================== *)
(** * Contract resolver ([contracts/loader.ts]) *)
(* ================================================================== *)

Definition DEFAULT_GLOBAL_CONFIG : ResolvedGlobalConfig := {|
  runs := 10%float;
  warmupRuns := 1%float;
  historyWindow := 20%float;
  regressionThreshold := 0.15%float;
  outputDir := ".perf-contracts";
  artifactName := "perf-results";
  bundleStats := {| rbs_enabled := false; rbs_statsFile := None |};
  diagnostics := {| rdg_enabled := true;
                    rdg_suggestFixes := true;
                    rdg_sourceDir := "src" |}
|}.

(** [DEFAULT_COMPONENT_CONTRACT.warningThreshold]. *)
Definition DEFAULT_warningThreshold : number := 0.8%float.

Definition resolveComponentContract (contract : ComponentContract)
  : ResolvedComponentContract := {|
  maxRenderTime := nullish (cc_maxRenderTime contract) Infinity;
  maxRenderCount := nullish (cc_maxRenderCount contract) Infinity;
  maxMemoryDelta := nullish (cc_maxMemoryDelta contract) Infinity;
  warningThreshold :=
    nullish (cc_warningThreshold contract) DEFAULT_warningThreshold;
  interactions := nullish (cc_interactions contract) [];
  meta := nullish (cc_meta contract) []
|}.

(** [config?.f]: [undefined] when [config] is. *)
Definition opt_chain {A B : Type} (o : option A) (f : A -> option B)
  : option B :=
  match o with
  | Some a => f a
  | None => None
  end.

Definition resolveGlobalConfig (config : option GlobalConfig)
  : ResolvedGlobalConfig := {|
  runs := nullish (opt_chain config gc_runs) (runs DEFAULT_GLOBAL_CONFIG);
  warmupRuns :=
    nullish (opt_chain config gc_warmupRuns)
            (warmupRuns DEFAULT_GLOBAL_CONFIG);
  historyWindow :=
    nullish (opt_chain config gc_historyWindow)
            (historyWindow DEFAULT_GLOBAL_CONFIG);
  regressionThreshold :=
    nullish (opt_chain config gc_regressionThreshold)
            (regressionThreshold DEFAULT_GLOBAL_CONFIG);
  outputDir :=
    nullish (opt_chain config gc_outputDir) (outputDir DEFAULT_GLOBAL_CONFIG);
  artifactName :=
    nullish (opt_chain config gc_artifactName)
            (artifactName DEFAULT_GLOBAL_CONFIG);
  bundleStats := {|
    rbs_enabled :=
      nullish (option_map bs_enabled (opt_chain config gc_bundleStats))
              (rbs_enabled (bundleStats DEFAULT_GLOBAL_CONFIG));
    rbs_statsFile :=
      opt_chain (opt_chain config gc_bundleStats) bs_statsFile |};
  diagnostics := {|
    rdg_enabled :=
      nullish (option_map dg_enabled (opt_chain config gc_diagnostics))
              (rdg_enabled (diagnostics DEFAULT_GLOBAL_CONFIG));
    rdg_suggestFixes :=
      nullish (opt_chain (opt_chain config gc_diagnostics) dg_suggestFixes)
              (rdg_suggestFixes (diagnostics DEFAULT_GLOBAL_CONFIG));
    rdg_sourceDir :=
      nullish (opt_chain (opt_chain config gc_diagnostics) dg_sourceDir)
              (rdg_sourceDir (diagnostics DEFAULT_GLOBAL_CONFIG)) |}
|}.

(** [resolveConfig]: the two loops [Map.set] every entry in turn, in the
    order [Object.entries] lists them. *)
Definition resolveConfig (config : ContractConfig) : ResolvedConfig :=
  let global := resolveGlobalConfig (cfg_global config) in
  let components :=
    match cfg_components config with
    | Some cs =>
        fold_left
          (fun acc '(name, contract) =>
             JS.set String.eqb acc name (resolveComponentContract contract))
          (Object_entries cs) []
    | None => []
    end in
  let aggregates :=
    match cfg_aggregates config with
    | Some ags =>
        fold_left
          (fun acc '(name, aggregate) => JS.set String.eqb acc name aggregate)
          (Object_entries ags) []
    | None => []
    end in
  {| rc_global := global;
     rc_components := components;
     rc_aggregates := aggregates |}.

Definition getComponentContract (config : ResolvedConfig)
  (componentName : string) : option ResolvedComponentContract :=
  JS.get String.eqb (rc_components config) componentName.

(** ** [validateConfig]

    [errors] is the array the function pushes onto; each rule is one
    conditional [push]. *)
Definition push_if {A : Type} (cond : bool) (x : A) (errors : list A)
  : list A :=
  if cond then errors ++ [x] else errors.

(** [v !== undefined && p v]. *)
Definition defined_and {A : Type} (v : option A) (p : A -> bool) : bool :=
  match v with
  | Some x => p x
  | None => false
  end.

Definition validateGlobal (g : GlobalConfig) (errors : list string)
  : list string :=
  let errors :=
    push_if
      (defined_and (gc_runs g)
         (fun r => JS.lt r 1%float || negb (Number_isInteger r)))
      "global.runs must be a positive integer" errors in
  let errors :=
    push_if
      (defined_and (gc_regressionThreshold g)
         (fun t => JS.lt t 0%float || JS.gt t 1%float))
      "global.regressionThreshold must be between 0 and 1" errors in
  push_if
    (defined_and (gc_historyWindow g)
       (fun h => JS.lt h 1%float || negb (Number_isInteger h)))
    "global.historyWindow must be a positive integer" errors.

Definition validateInteractionBudgets (name : string)
  (budgets : @object InteractionType InteractionBudget)
  (errors : list string) : list string :=
  fold_left
    (fun errors '(interaction, budget) =>
       push_if
         (defined_and (maxRenders budget) (fun m => JS.le m 0%float))
         (name ++ ".interactions." ++ InteractionType_name interaction
               ++ ".maxRenders must be positive")%string
         errors)
    (entries budgets) errors.

Definition validateComponent (name : string) (contract : ComponentContract)
  (errors : list string) : list string :=
  let errors :=
    push_if
      (defined_and (cc_maxRenderTime contract) (fun t => JS.le t 0%float))
      (name ++ ".maxRenderTime must be positive")%string errors in
  let errors :=
    push_if
      (defined_and (cc_maxRenderCount contract)
         (fun c => JS.le c 0%float || negb (Number_isInteger c)))
      (name ++ ".maxRenderCount must be a positive integer")%string errors in
  let errors :=
    push_if
      (defined_and (cc_warningThreshold contract)
         (fun t => JS.lt t 0%float || JS.gt t 1%float))
      (name ++ ".warningThreshold must be between 0 and 1")%string errors in
  match cc_interactions contract with
  | Some budgets => validateInteractionBudgets name budgets errors
  | None => errors
  end.

Definition validateAggregate (name : string) (aggregate : AggregateContract)
  (errors : list string) : list string :=
  push_if
    (match components aggregate with
     | None => true
     | Some cs => Nat.eqb (List.length cs) 0
     end)
    (name ++ ".components must be a non-empty array")%string errors.

Definition validateConfig (config : ContractConfig) : list string :=
  let errors := [] in
  let errors :=
    match cfg_global config with
    | Some g => validateGlobal g errors
    | None => errors
    end in
  let errors :=
    match cfg_components config with
    | Some cs =>
        fold_left
          (fun errors '(name, contract) =>
             validateComponent name contract errors)
          (Object_entries cs) errors
    | None => errors
    end in
  match cfg_aggregates config with
  | Some ags =>
      fold_left
        (fun errors '(name, aggregate) =>
           validateAggregate name aggregate errors)
        (Object_entries ags) errors
  | None => errors
  end.

(* ================================================================== *)
(** * Contract validator ([contracts/validator.ts]) *)
(* ================================================================== *)

Definition getStatusFromUtilization (utilization warningThreshold : number)
  : ValidationStatus :=
  if JS.gt utilization 1%float then fail
  else if JS.gt utilization warningThreshold then warn
  else pass.

Definition validateMetric (actual budget warningThreshold : number)
  : MetricValidation :=
  let utilization := (actual / budget)%float in
  let status := getStatusFromUtilization utilization warningThreshold in
  let exceededBy :=
    if JS.gt utilization 1%float
    then Some ((actual - budget) / budget)%float
    else None in
  {| actual := actual;
     budget := budget;
     utilization := utilization;
     mv_status := status;
     exceededBy := exceededBy |}.

Definition getViolationSeverity (exceededByPercent : number) : Severity :=
  if JS.lt exceededByPercent 0.25%float then minor
  else if JS.lt exceededByPercent 0.5%float then moderate
  else severe.

Definition createViolation (metric : string) (budget actual : number)
  : Violation :=
  let exceededByPercent := ((actual - budget) / budget)%float in
  {| metric := metric;
     v_budget := budget;
     v_actual := actual;
     exceededByPercent := exceededByPercent;
     severity := getViolationSeverity exceededByPercent |}.

(** [statuses.includes(s)]. *)
Definition includes (statuses : list ValidationStatus) (s : ValidationStatus)
  : bool :=
  existsb (ValidationStatus_eqb s) statuses.

Definition combineStatuses (statuses : list ValidationStatus)
  : ValidationStatus :=
  if includes statuses fail then fail
  else if includes statuses warn then warn
  else pass.

(** The three local accumulators of [validateAgainstContract]. *)
Record Accumulator : Type := {
  acc_statuses : list ValidationStatus;
  acc_violations : list Violation;
  acc_metrics : ResultMetrics
}.

(** The common tail of every check: push the status and, on [fail], the
    violation. *)
Definition record_check (statuses : list ValidationStatus)
  (violations : list Violation) (validation : MetricValidation)
  (name : string) (budget actual : number)
  : list ValidationStatus * list Violation :=
  (statuses ++ [mv_status validation],
   if ValidationStatus_eqb (mv_status validation) fail
   then violations ++ [createViolation name budget actual]
   else violations).

(** Lines 125-141: the render-time check. *)
Definition checkRenderTime (renderMetrics : RenderMetrics)
  (contract : ResolvedComponentContract) (a : Accumulator) : Accumulator :=
  if JS.strict_neq (maxRenderTime contract) Infinity then
    let avgRenderTime := rm_averageRenderTime renderMetrics in
    let validation :=
      validateMetric avgRenderTime (maxRenderTime contract)
                     (warningThreshold contract) in
    let '(statuses, violations) :=
      record_check (acc_statuses a) (acc_violations a) validation
                   "renderTime" (maxRenderTime contract) avgRenderTime in
    {| acc_statuses := statuses;
       acc_violations := violations;
       acc_metrics :=
         {| m_renderTime := Some validation;
            m_renderCount := m_renderCount (acc_metrics a);
            m_memoryDelta := m_memoryDelta (acc_metrics a);
            m_rendersPerInteraction :=
              m_rendersPerInteraction (acc_metrics a) |} |}
  else a.

(** Lines 143-159: the render-count check. *)
Definition checkRenderCount (renderMetrics : RenderMetrics)
  (contract : ResolvedComponentContract) (a : Accumulator) : Accumulator :=
  if JS.strict_neq (maxRenderCount contract) Infinity then
    let renderCount := renderCount renderMetrics in
    let validation :=
      validateMetric renderCount (maxRenderCount contract)
                     (warningThreshold contract) in
    let '(statuses, violations) :=
      record_check (acc_statuses a) (acc_violations a) validation
                   "renderCount" (maxRenderCount contract) renderCount in
    {| acc_statuses := statuses;
       acc_violations := violations;
       acc_metrics :=
         {| m_renderTime := m_renderTime (acc_metrics a);
            m_renderCount := Some validation;
            m_memoryDelta := m_memoryDelta (acc_metrics a);
            m_rendersPerInteraction :=
              m_rendersPerInteraction (acc_metrics a) |} |}
  else a.

(** The name under which an interaction kind is reported:
    [`rendersPerInteraction.${type}`]. *)
Definition interactionMetricName (t : InteractionType) : string :=
  ("rendersPerInteraction." ++ InteractionType_name t)%string.

(** Lines 170-193: one iteration of the loop over
    [Object.entries(contract.interactions)]. *)
Definition checkInteraction (rendersByType : @object InteractionType number)
  (warningThreshold : number)
  (st : @object InteractionType MetricValidation
        * list ValidationStatus * list Violation)
  (entry : InteractionType * InteractionBudget)
  : @object InteractionType MetricValidation
    * list ValidationStatus * list Violation :=
  let '(interactionValidations, statuses, violations) := st in
  let '(type_, budget) := entry in
  let actualRenders := or_zero (JS.get InteractionType_eqb rendersByType type_) in
  match maxRenders budget with
  | Some budget_maxRenders =>
      let validation :=
        validateMetric actualRenders budget_maxRenders warningThreshold in
      let '(statuses, violations) :=
        record_check statuses violations validation
                     (interactionMetricName type_)
                     budget_maxRenders actualRenders in
      (JS.set InteractionType_eqb interactionValidations type_ validation,
       statuses, violations)
  | None => st
  end.

(** Lines 161-198: the per-interaction checks, made only for an
    interaction measurement. *)
Definition checkInteractions (measurements : Measurements)
  (contract : ResolvedComponentContract) (a : Accumulator) : Accumulator :=
  match measurements with
  | InteractionMeasurement r =>
      let '(interactionValidations, statuses, violations) :=
        fold_left
          (checkInteraction (rendersByType r) (warningThreshold contract))
          (entries (interactions contract))
          ([], acc_statuses a, acc_violations a) in
      {| acc_statuses := statuses;
         acc_violations := violations;
         acc_metrics :=
           if Nat.ltb 0 (List.length (keys interactionValidations)) then
             {| m_renderTime := m_renderTime (acc_metrics a);
                m_renderCount := m_renderCount (acc_metrics a);
                m_memoryDelta := m_memoryDelta (acc_metrics a);
                m_rendersPerInteraction := Some interactionValidations |}
           else acc_metrics a |}
  | PlainMetrics _ => a
  end.

Definition validateAgainstContract (componentName : string)
  (measurements : Measurements) (contract : ResolvedComponentContract)
  : ValidationResult :=
  let a :=
    {| acc_statuses := [];
       acc_violations := [];
       acc_metrics :=
         {| m_renderTime := None;
            m_renderCount := None;
            m_memoryDelta := None;
            m_rendersPerInteraction := None |} |} in
  let renderMetrics :=
    match measurements with
    | InteractionMeasurement r => mi_metrics r
    | PlainMetrics m => m
    end in
  let a := checkRenderTime renderMetrics contract a in
  let a := checkRenderCount renderMetrics contract a in
  let a := checkInteractions measurements contract a in
  let status :=
    if Nat.ltb 0 (List.length (acc_statuses a))
    then combineStatuses (acc_statuses a)
    else pass in
  {| status := status;
     componentName := componentName;
     metrics := acc_metrics a;
     violations := acc_violations a;
     suggestions := [] |}.

Definition validateContractSync (componentName : string)
  (measurements : Measurements) (config : ResolvedConfig)
  : option ValidationResult :=
  match getComponentContract config componentName with
  | None => None
  | Some contract =>
      Some (validateAgainstContract componentName measurements contract)
  end.

Definition isWithinBudget (actual budget : number) : bool :=
  JS.le actual budget.

Definition getBudgetUtilization (actual budget : number) : number :=
  if JS.gt budget 0%float then (actual / budget)%float else 0%float.

Definition getOverallStatus (results : list ValidationResult)
  : ValidationStatus :=
  combineStatuses (map status results).

Record StatusCounts : Type := {
  count_pass : nat;
  count_warn : nat;
  count_fail : nat
}.

Definition countByStatus (results : list ValidationResult) : StatusCounts := {|
  count_pass :=
    List.length (filter (fun r => ValidationStatus_eqb (status r) pass) results);
  count_warn :=
    List.length (filter (fun r => ValidationStatus_eqb (status r) warn) results);
  count_fail :=
    List.length (filter (fun r => ValidationStatus_eqb (status r) fail) results)
|}.

(* ================================================================== *)
(** * Profiler and run aggregation ([measurement/]) *)
(* ================================================================== *)

(** [createProfiler]: the metrics a fresh profiler starts from. *)
Definition createProfiler (componentName : string) : RenderMetrics := {|
  rm_componentName := componentName;
  renderCount := 0%float;
  totalActualDuration := 0%float;
  totalBaseDuration := 0%float;
  rm_averageRenderTime := 0%float;
  renders := []
|}.

(** [onRenderCallback]: the in-place update made on every commit. *)
Definition onRenderCallback (metrics : RenderMetrics) (renderEvent : RenderEvent)
  : RenderMetrics :=
  let renderCount := (renderCount metrics + 1)%float in
  let totalActualDuration :=
    (totalActualDuration metrics + actualDuration renderEvent)%float in
  {| rm_componentName := rm_componentName metrics;
     renderCount := renderCount;
     totalActualDuration := totalActualDuration;
     totalBaseDuration :=
       (totalBaseDuration metrics + baseDuration renderEvent)%float;
     rm_averageRenderTime := (totalActualDuration / renderCount)%float;
     renders := renders metrics ++ [renderEvent] |}.

(** [xs.reduce((sum, r) => sum + f(r), 0)] and the [+=] loops. *)
Definition sum_of {A : Type} (f : A -> number) (xs : list A) : number :=
  fold_left (fun sum r => (sum + f r)%float) xs 0%float.

(** The same reduction over an array that may hold [undefined]: reading a
    property of [undefined] throws a [TypeError]. *)
Definition sum_of_defined {A : Type} (f : A -> number) (xs : list (option A))
  : completion number :=
  fold_left
    (fun acc r =>
       do sum <- acc;
       match r with
       | Some r => Return (sum + f r)%float
       | None => Throw "TypeError: Cannot read properties of undefined"
       end)
    xs (Return 0%float).

(** The loop that groups renders by interaction type (lines 288-292 and
    370-374):
    [rendersByType[type] = (rendersByType[type] || 0) + result.rendersTriggered]. *)
Definition groupRendersByType (results : list InteractionResult)
  : @object InteractionType number :=
  fold_left
    (fun rendersByType result =>
       let type_ := is_type (interaction result) in
       JS.set InteractionType_eqb rendersByType type_
         (or_zero (JS.get InteractionType_eqb rendersByType type_)
          + rendersTriggered result)%float)
    results [].

(** [xs.map((x, index) => f(x, index))] with a callback that may throw. *)
Fixpoint mapi_from {A B : Type} (f : A -> nat -> completion B) (index : nat)
  (xs : list A) : completion (list B) :=
  match xs with
  | [] => Return []
  | x :: xs' =>
      do y <- f x index;
      do ys <- mapi_from f (S index) xs';
      Return (y :: ys)
  end.

(** Lines 346-363: the aggregate of the interaction at position [index]. *)
Definition aggregateInteraction (results : list MeasureInteractionResult)
  (first : MeasureInteractionResult) (index : nat)
  : completion InteractionResult :=
  let interactionData :=
    map (fun r => nth_error (interactionResults r) index) results in
  let length := of_nat (List.length results) in
  do sumRenders <- sum_of_defined rendersTriggered interactionData;
  let avgRenders := (sumRenders / length)%float in
  do sumTime <- sum_of_defined totalRenderTime interactionData;
  let avgTime := (sumTime / length)%float in
  match nth_error (interactionResults first) index with
  | Some firstResult =>
      Return {| interaction := interaction firstResult;
                rendersTriggered := Math_round avgRenders;
                totalRenderTime := avgTime;
                ir_averageRenderTime :=
                  if JS.gt avgRenders 0%float
                  then (avgTime / avgRenders)%float
                  else 0%float |}
  | None => Throw "TypeError: Cannot read properties of undefined"
  end.

(** [aggregateResults]; [now] is the value [Date.now()] returns. *)
Definition aggregateResults (now : number)
  (results : list MeasureInteractionResult)
  : completion MeasureInteractionResult :=
  match results with
  | [] => Throw "No results to aggregate"
  | first :: _ =>
      let length := of_nat (List.length results) in
      let allRenders := flat_map (fun r => renders (mi_metrics r)) results in
      let totalRenderCount :=
        sum_of (fun r => renderCount (mi_metrics r)) results in
      let totalActualDuration :=
        sum_of (fun r => totalActualDuration (mi_metrics r)) results in
      let totalBaseDuration :=
        sum_of (fun r => totalBaseDuration (mi_metrics r)) results in
      let avgRenderCount := (totalRenderCount / length)%float in
      let avgActualDuration := (totalActualDuration / length)%float in
      do aggregatedInteractions <-
        mapi_from (fun _ index => aggregateInteraction results first index)
                  0 (interactionResults first);
      let totalRenders := sum_of rendersTriggered aggregatedInteractions in
      let rendersByType := groupRendersByType aggregatedInteractions in
      Return
        {| mi_componentName := mi_componentName first;
           mi_metrics :=
             {| rm_componentName := mi_componentName first;
                renderCount := Math_round avgRenderCount;
                totalActualDuration := avgActualDuration;
                totalBaseDuration := (totalBaseDuration / length)%float;
                rm_averageRenderTime :=
                  if JS.gt avgRenderCount 0%float
                  then (avgActualDuration / avgRenderCount)%float
                  else 0%float;
                renders := allRenders |};
           interactionResults := aggregatedInteractions;
           totalRenders := totalRenders;
           rendersPerInteraction :=
             if Nat.ltb 0 (List.length (interactionResults first))
             then (totalRenders
                   / of_nat (List.length (interactionResults first)))%float
             else 0%float;
           rendersByType := rendersByType;
           timestamp := now;
           contractValidation := contractValidation first |}
  end.

Record MeasureInteractionOptions : Type := {
  opt_interactions : list InteractionSpec;
  opt_contract : option string;
  opt_runs : option number
}.

(** Lines 282-306: the result pushed at the end of one run, from the
    profiler snapshot and the interaction results of that run. *)
Definition runResult (componentName : string)
  (options : MeasureInteractionOptions) (snapshot : RenderMetrics)
  (interactionResults : list InteractionResult) (now : number)
  : MeasureInteractionResult :=
  let totalRenders := sum_of rendersTriggered interactionResults in
  let rendersByType := groupRendersByType interactionResults in
  {| mi_componentName := componentName;
     mi_metrics := snapshot;
     interactionResults := interactionResults;
     totalRenders := totalRenders;
     rendersPerInteraction :=
       if Nat.ltb 0 (List.length (opt_interactions options))
       then (totalRenders
             / of_nat (List.length (opt_interactions options)))%float
       else 0%float;
     rendersByType := rendersByType;
     timestamp := now;
     contractValidation :=
       (* [contract ? {passed: true, contract} : undefined]; the empty
          string is falsy *)
       match opt_contract options with
       | Some contract =>
           if String.eqb contract "" then None
           else Some {| passed := true; cv_contract := contract |}
       | None => None
       end |}.

(** ** [measureInteraction]

    Rendering, event firing and the clock belong to external collaborators.
    They are a state [World] with two operations: [performRun] mounts the
    profiled element, performs the interaction script in order and unmounts
    (lines 241-280 and 309), returning the profiler snapshot and the
    per-interaction results, or throwing when an element is not found or an
    interaction kind is unknown; [Date_now] reads the clock. *)
Section MeasureInteraction.
Variable World : Type.
Variable performRun :
  list InteractionSpec -> World ->
  completion (RenderMetrics * list InteractionResult) * World.
Variable Date_now : World -> number.

(** [for (let run = 0; run < runs; run++)]; [fuel] bounds the number of
    iterations unfolded ([None]: more iterations remain). *)
Fixpoint runLoop (fuel : nat) (componentName : string)
  (options : MeasureInteractionOptions) (runs run : number) (w : World)
  (allResults : list MeasureInteractionResult)
  : option (completion (list MeasureInteractionResult) * World) :=
  if JS.lt run runs then
    match fuel with
    | O => None
    | S fuel' =>
        match performRun (opt_interactions options) w with
        | (Throw e, w') => Some (Throw e, w')
        | (Return (snapshot, interactionResults), w') =>
            runLoop fuel' componentName options runs (run + 1)%float w'
              (allResults
               ++ [runResult componentName options snapshot
                     interactionResults (Date_now w')])
        end
    end
  else Some (Return allResults, w).

Definition measureInteraction (fuel : nat) (componentName : string)
  (options : MeasureInteractionOptions) (w : World)
  : option (completion MeasureInteractionResult * World) :=
  let runs := nullish (opt_runs options) 1%float in
  match runLoop fuel componentName options runs 0%float w [] with
  | None => None
  | Some (Throw e, w') => Some (Throw e, w')
  | Some (Return allResults, w') =>
      if JS.strict_eq runs 1%float then
        (* [return allResults[0]]; the array holds the one run *)
        match allResults with
        | r :: _ => Some (Return r, w')
        | [] => Some (Throw "undefined", w')
        end
      else Some (aggregateResults (Date_now w') allResults, w')
  end.
End MeasureInteraction.


(* ================================================================== *)
(** * Observations used to state the properties *)
(* ================================================================== *)

(** A number that is not [NaN]; such numbers are totally ordered. *)
Definition comparable (x : float) : Prop := Prim2SF x <> S754_nan.

(** The number [1] as a [spec_float]: mantissa [2^52], exponent [-52]. *)
Definition SFone64 : spec_float := S754_finite false 4503599627370496 (-52).

(** The entry of an optional member of [metrics], under its name. *)
Definition option_entry {A : Type} (name : string) (o : option A)
  : list (string * A) :=
  match o with
  | Some v => [(name, v)]
  | None => []
  end.

Definition namedInteractionEntries {A : Type}
  (o : @object InteractionType A) : list (string * A) :=
  map (fun '(k, v) => (interactionMetricName k, v)) (entries o).

(** Every [MetricValidation] a [ValidationResult] carries, in the order
    the members are written, each under the name its violation would
    bear. *)
Definition checkedMetrics (r : ValidationResult)
  : list (string * MetricValidation) :=
  option_entry "renderTime" (m_renderTime (metrics r))
  ++ option_entry "renderCount" (m_renderCount (metrics r))
  ++ option_entry "memoryDelta" (m_memoryDelta (metrics r))
  ++ match m_rendersPerInteraction (metrics r) with
     | Some o => namedInteractionEntries o
     | None => []
     end.

Definition isFail (e : string * MetricValidation) : bool :=
  ValidationStatus_eqb (mv_status (snd e)) fail.

(** The violation a failed metric entry gives rise to. *)
Definition violationOf (e : string * MetricValidation) : Violation :=
  createViolation (fst e) (budget (snd e)) (actual (snd e)).

(** What a check compared: metric name, actual value, budget. *)
Definition comparison_of (e : string * MetricValidation)
  : string * number * number :=
  (fst e, actual (snd e), budget (snd e)).

(** The render metrics a measurement carries (line 122). *)
Definition renderMetricsOf (measurements : Measurements) : RenderMetrics :=
  match measurements with
  | InteractionMeasurement r => mi_metrics r
  | PlainMetrics m => m
  end.

(** The checks on the declared interaction budgets: one per kind whose
    [maxRenders] is defined, of [rendersByType[kind] || 0]. *)
Definition interactionComparisons
  (rendersByType : @object InteractionType number)
  (budgets : @object InteractionType InteractionBudget)
  : list (string * number * number) :=
  flat_map
    (fun '(k, b) =>
       match maxRenders b with
       | Some m =>
           [(interactionMetricName k,
             or_zero (JS.get InteractionType_eqb rendersByType k), m)]
       | None => []
       end)
    (entries budgets).

(** The comparisons made for the two whole-component budgets, each
    skipped when its budget is [Infinity]. *)
Definition componentComparisons (measurements : Measurements)
  (contract : ResolvedComponentContract) : list (string * number * number) :=
  (if JS.strict_neq (maxRenderTime contract) Infinity
   then [("renderTime",
          rm_averageRenderTime (renderMetricsOf measurements),
          maxRenderTime contract)]
   else [])
  ++ (if JS.strict_neq (maxRenderCount contract) Infinity
      then [("renderCount",
             renderCount (renderMetricsOf measurements),
             maxRenderCount contract)]
      else []).

(** The validations the interaction loop records: one per declared kind
    whose [maxRenders] is defined, in declaration order. *)
Definition interactionValidationsOf
  (rendersByType : @object InteractionType number) (warningThreshold : number)
  (budgets : @object InteractionType InteractionBudget)
  : @object InteractionType MetricValidation :=
  flat_map
    (fun '(k, b) =>
       match maxRenders b with
       | Some m =>
           [(k, validateMetric
                  (or_zero (JS.get InteractionType_eqb rendersByType k))
                  m warningThreshold)]
       | None => []
       end)
    (entries budgets).

(** Every check [validateAgainstContract] makes, with its outcome. *)
Definition performedChecks (measurements : Measurements)
  (contract : ResolvedComponentContract) : list (string * MetricValidation) :=
  (if JS.strict_neq (maxRenderTime contract) Infinity
   then [("renderTime",
          validateMetric (rm_averageRenderTime (renderMetricsOf measurements))
                         (maxRenderTime contract)
                         (warningThreshold contract))]
   else [])
  ++ (if JS.strict_neq (maxRenderCount contract) Infinity
      then [("renderCount",
             validateMetric (renderCount (renderMetricsOf measurements))
                            (maxRenderCount contract)
                            (warningThreshold contract))]
      else [])
  ++ match measurements with
     | InteractionMeasurement r =>
         namedInteractionEntries
           (interactionValidationsOf (rendersByType r)
                                     (warningThreshold contract)
                                     (interactions contract))
     | PlainMetrics _ => []
     end.

(** The measurement with another average render time, render count. *)
Definition withAverageRenderTime (v : number) (rm : RenderMetrics)
  : RenderMetrics := {|
  rm_componentName := rm_componentName rm;
  renderCount := renderCount rm;
  totalActualDuration := totalActualDuration rm;
  totalBaseDuration := totalBaseDuration rm;
  rm_averageRenderTime := v;
  renders := renders rm
|}.

Definition withRenderCount (v : number) (rm : RenderMetrics)
  : RenderMetrics := {|
  rm_componentName := rm_componentName rm;
  renderCount := v;
  totalActualDuration := totalActualDuration rm;
  totalBaseDuration := totalBaseDuration rm;
  rm_averageRenderTime := rm_averageRenderTime rm;
  renders := renders rm
|}.

Definition mapRenderMetrics (f : RenderMetrics -> RenderMetrics)
  (measurements : Measurements) : Measurements :=
  match measurements with
  | PlainMetrics m => PlainMetrics (f m)
  | InteractionMeasurement r =>
      InteractionMeasurement
        {| mi_componentName := mi_componentName r;
           mi_metrics := f (mi_metrics r);
           interactionResults := interactionResults r;
           totalRenders := totalRenders r;
           rendersPerInteraction := rendersPerInteraction r;
           rendersByType := rendersByType r;
           timestamp := timestamp r;
           contractValidation := contractValidation r |}
  end.

Definition withMaxMemoryDelta (v : number) (c : ResolvedComponentContract)
  : ResolvedComponentContract := {|
  maxRenderTime := maxRenderTime c;
  maxRenderCount := maxRenderCount c;
  maxMemoryDelta := v;
  warningThreshold := warningThreshold c;
  interactions := interactions c;
  meta := meta c
|}.

(** The [rendersByType] a measurement carries; plain render metrics have
    none, so no kind occurred. *)
Definition rendersByTypeOf (measurements : Measurements)
  : @object InteractionType number :=
  match measurements with
  | InteractionMeasurement r => rendersByType r
  | PlainMetrics _ => []
  end.

(** The comparisons as the specification words them: the two component
    budgets and, for each declared interaction kind, [rendersByType[kind]]
    (or [0]) against its [maxRenders], whatever the measurement is. *)
Definition claimedComparisons (measurements : Measurements)
  (contract : ResolvedComponentContract) : list (string * number * number) :=
  componentComparisons measurements contract
  ++ interactionComparisons (rendersByTypeOf measurements)
                            (interactions contract).

(** ** Sample contracts and measurements *)

Definition sampleMetrics (count average : number) : RenderMetrics := {|
  rm_componentName := "Button";
  renderCount := count;
  totalActualDuration := (average * count)%float;
  totalBaseDuration := (average * count)%float;
  rm_averageRenderTime := average;
  renders := []
|}.

Definition sampleContract (time count threshold : number)
  (budgets : @object InteractionType InteractionBudget)
  : ResolvedComponentContract := {|
  maxRenderTime := time;
  maxRenderCount := count;
  maxMemoryDelta := Infinity;
  warningThreshold := threshold;
  interactions := budgets;
  meta := []
|}.

Definition rendersBudget (n : number) : InteractionBudget :=
  {| maxRenders := Some n; ib_maxRenderTime := None |}.

Definition sampleInteraction (t : InteractionType) (n : number)
  : InteractionResult := {|
  interaction := {| is_type := t; target := "button"; text := None |};
  rendersTriggered := n;
  totalRenderTime := n;
  ir_averageRenderTime := 1%float
|}.

(** Four renders on click and one on typing, after a one-render mount. *)
Definition sampleMeasurement : MeasureInteractionResult := {|
  mi_componentName := "Button";
  mi_metrics := sampleMetrics 6%float 1%float;
  interactionResults :=
    [sampleInteraction click 4%float; sampleInteraction type 1%float];
  totalRenders := 5%float;
  rendersPerInteraction := 2.5%float;
  rendersByType := [(click, 4%float); (type, 1%float)];
  timestamp := 0%float;
  contractValidation := None
|}.

Definition clickTypeContract : ResolvedComponentContract :=
  sampleContract Infinity Infinity 0.8%float
    [(click, rendersBudget 2%float); (type, rendersBudget 3%float)].

(** ** The conditions [validateConfig] tests

    Read off the code, to reason about its loops: every conditional
    [push] of [validateConfig] as the condition it tests and the message
    it pushes, in the order the function visits them.  The rules as the
    specification words them are [structuralRules] below. *)
Record RuleInstance : Type := {
  rule_broken : bool;
  rule_message : string
}.

Definition globalChecks (g : GlobalConfig) : list RuleInstance :=
  [ {| rule_broken :=
         defined_and (gc_runs g)
           (fun r => JS.lt r 1%float || negb (Number_isInteger r));
       rule_message := "global.runs must be a positive integer" |};
    {| rule_broken :=
         defined_and (gc_regressionThreshold g)
           (fun t => JS.lt t 0%float || JS.gt t 1%float);
       rule_message := "global.regressionThreshold must be between 0 and 1" |};
    {| rule_broken :=
         defined_and (gc_historyWindow g)
           (fun h => JS.lt h 1%float || negb (Number_isInteger h));
       rule_message := "global.historyWindow must be a positive integer" |} ].

Definition interactionCheck (name : string)
  (entry : InteractionType * InteractionBudget) : RuleInstance :=
  {| rule_broken :=
       defined_and (maxRenders (snd entry)) (fun m => JS.le m 0%float);
     rule_message :=
       (name ++ ".interactions." ++ InteractionType_name (fst entry)
             ++ ".maxRenders must be positive")%string |}.

Definition componentChecks (entry : string * ComponentContract)
  : list RuleInstance :=
  let '(name, contract) := entry in
  [ {| rule_broken :=
         defined_and (cc_maxRenderTime contract) (fun t => JS.le t 0%float);
       rule_message := (name ++ ".maxRenderTime must be positive")%string |};
    {| rule_broken :=
         defined_and (cc_maxRenderCount contract)
           (fun c => JS.le c 0%float || negb (Number_isInteger c));
       rule_message :=
         (name ++ ".maxRenderCount must be a positive integer")%string |};
    {| rule_broken :=
         defined_and (cc_warningThreshold contract)
           (fun t => JS.lt t 0%float || JS.gt t 1%float);
       rule_message :=
         (name ++ ".warningThreshold must be between 0 and 1")%string |} ]
  ++ map (interactionCheck name) (nullish (cc_interactions contract) []).

Definition aggregateChecks (entry : string * AggregateContract)
  : list RuleInstance :=
  let '(name, aggregate) := entry in
  [ {| rule_broken :=
         match components aggregate with
         | None => true
         | Some cs => Nat.eqb (List.length cs) 0
         end;
       rule_message :=
         (name ++ ".components must be a non-empty array")%string |} ].

(** Every condition tested on a configuration, in the order the
    conditions are visited. *)
Definition configChecks (config : ContractConfig) : list RuleInstance :=
  match cfg_global config with
  | Some g => globalChecks g
  | None => []
  end
  ++ flat_map componentChecks
       (Object_entries (nullish (cfg_components config) []))
  ++ flat_map aggregateChecks
       (Object_entries (nullish (cfg_aggregates config) [])).

Definition brokenMessages (rules : list RuleInstance) : list string :=
  map rule_message (filter rule_broken rules).

(** ** The structural rules of a configuration

    These follow the words of the specification (section 4.1), not the
    code: [runs] and [historyWindow] must be positive integers;
    [regressionThreshold] and each component's [warningThreshold] must
    lie in [[0, 1]]; [maxRenderTime] must be [> 0]; [maxRenderCount] must
    be a positive integer; each interaction budget's [maxRenders] must be
    [> 0]; each aggregate's [components] list must be non-empty.  A rule
    constrains a field that is present; an omitted field takes its
    default.  The specification gives the rules no wording of their own,
    so each rule carries the message the code reports for it, and the
    rules are listed in the order the configuration is read. *)
Definition isPositive (x : number) : bool := JS.gt x 0%float.

Definition isPositiveInteger (x : number) : bool :=
  JS.gt x 0%float && Number_isInteger x.

Definition inUnitInterval (x : number) : bool :=
  JS.ge x 0%float && JS.le x 1%float.

(** A present value that does not satisfy [rule]. *)
Definition breaks (v : option number) (rule : number -> bool) : bool :=
  match v with
  | Some x => negb (rule x)
  | None => false
  end.

Definition globalRules (g : GlobalConfig) : list RuleInstance :=
  [ {| rule_broken := breaks (gc_runs g) isPositiveInteger;
       rule_message := "global.runs must be a positive integer" |};
    {| rule_broken := breaks (gc_regressionThreshold g) inUnitInterval;
       rule_message := "global.regressionThreshold must be between 0 and 1" |};
    {| rule_broken := breaks (gc_historyWindow g) isPositiveInteger;
       rule_message := "global.historyWindow must be a positive integer" |} ].

Definition interactionRule (name : string)
  (entry : InteractionType * InteractionBudget) : RuleInstance :=
  {| rule_broken := breaks (maxRenders (snd entry)) isPositive;
     rule_message :=
       (name ++ ".interactions." ++ InteractionType_name (fst entry)
             ++ ".maxRenders must be positive")%string |}.

Definition componentRules (entry : string * ComponentContract)
  : list RuleInstance :=
  let '(name, contract) := entry in
  [ {| rule_broken := breaks (cc_maxRenderTime contract) isPositive;
       rule_message := (name ++ ".maxRenderTime must be positive")%string |};
    {| rule_broken := breaks (cc_maxRenderCount contract) isPositiveInteger;
       rule_message :=
         (name ++ ".maxRenderCount must be a positive integer")%string |};
    {| rule_broken := breaks (cc_warningThreshold contract) inUnitInterval;
       rule_message :=
         (name ++ ".warningThreshold must be between 0 and 1")%string |} ]
  ++ map (interactionRule name) (nullish (cc_interactions contract) []).

Definition aggregateRules (entry : string * AggregateContract)
  : list RuleInstance :=
  let '(name, aggregate) := entry in
  [ {| rule_broken :=
         match components aggregate with
         | Some (_ :: _) => false
         | _ => true
         end;
       rule_message :=
         (name ++ ".components must be a non-empty array")%string |} ].

Definition structuralRules (config : ContractConfig) : list RuleInstance :=
  match cfg_global config with
  | Some g => globalRules g
  | None => []
  end
  ++ flat_map componentRules
       (Object_entries (nullish (cfg_components config) []))
  ++ flat_map aggregateRules
       (Object_entries (nullish (cfg_aggregates config) [])).

(** A value that is absent or is a number other than [NaN]. *)
Definition notNaN (v : option number) : bool :=
  match v with
  | Some x => negb (PrimFloat.is_nan x)
  | None => true
  end.

(** No threshold and no render-time or interaction budget of the
    configuration is [NaN]. *)
Definition nanFree (config : ContractConfig) : bool :=
  match cfg_global config with
  | Some g => notNaN (gc_regressionThreshold g)
  | None => true
  end
  && forallb
       (fun entry : string * ComponentContract =>
          notNaN (cc_maxRenderTime (snd entry))
          && notNaN (cc_warningThreshold (snd entry))
          && forallb
               (fun budget : InteractionType * InteractionBudget =>
                  notNaN (maxRenders (snd budget)))
               (nullish (cc_interactions (snd entry)) []))
       (nullish (cfg_components config) []).

Definition emptyGlobalConfig : GlobalConfig := {|
  gc_runs := None;
  gc_warmupRuns := None;
  gc_historyWindow := None;
  gc_regressionThreshold := None;
  gc_outputDir := None;
  gc_artifactName := None;
  gc_bundleStats := None;
  gc_diagnostics := None
|}.

Definition emptyComponentContract : ComponentContract := {|
  cc_maxRenderTime := None;
  cc_maxRenderCount := None;
  cc_maxMemoryDelta := None;
  cc_warningThreshold := None;
  cc_interactions := None;
  cc_meta := None
|}.

(** [{global: {runs: 0}, components: {X: {maxRenderTime: -1}}}]. *)
Definition scenarioD : ContractConfig := {|
  cfg_global :=
    Some {| gc_runs := Some 0%float;
            gc_warmupRuns := None;
            gc_historyWindow := None;
            gc_regressionThreshold := None;
            gc_outputDir := None;
            gc_artifactName := None;
            gc_bundleStats := None;
            gc_diagnostics := None |};
  cfg_components :=
    Some [("X", {| cc_maxRenderTime := Some (-1)%float;
                   cc_maxRenderCount := None;
                   cc_maxMemoryDelta := None;
                   cc_warningThreshold := None;
                   cc_interactions := None;
                   cc_meta := None |})];
  cfg_aggregates := None
|}.

(** [{components: {Button: {maxRenderCount: 5}}}]. *)
Definition sparseConfig : ContractConfig := {|
  cfg_global := None;
  cfg_components :=
    Some [("Button", {| cc_maxRenderTime := None;
                        cc_maxRenderCount := Some 5%float;
                        cc_maxMemoryDelta := None;
                        cc_warningThreshold := None;
                        cc_interactions := None;
                        cc_meta := None |})];
  cfg_aggregates := None
|}.

(** [{global: {regressionThreshold: NaN},
      components: {Button: {maxRenderTime: NaN, warningThreshold: NaN,
                            interactions: {click: {maxRenders: NaN}}}}}]. *)
Definition nanConfig : ContractConfig := {|
  cfg_global :=
    Some {| gc_runs := None;
            gc_warmupRuns := None;
            gc_historyWindow := None;
            gc_regressionThreshold := Some NaN;
            gc_outputDir := None;
            gc_artifactName := None;
            gc_bundleStats := None;
            gc_diagnostics := None |};
  cfg_components :=
    Some [("Button",
           {| cc_maxRenderTime := Some NaN;
              cc_maxRenderCount := None;
              cc_maxMemoryDelta := None;
              cc_warningThreshold := Some NaN;
              cc_interactions :=
                Some [(click, {| maxRenders := Some NaN;
                                 ib_maxRenderTime := None |})];
              cc_meta := None |})];
  cfg_aggregates := None
|}.

(** [{B: {}, '1': {}, A: {}}]: a component named by an array index. *)
Definition numberedComponents : ContractConfig := {|
  cfg_global := None;
  cfg_components :=
    Some [("B", emptyComponentContract); ("1", emptyComponentContract);
          ("A", emptyComponentContract)];
  cfg_aggregates := None
|}.

(** [a] does not come after [b] in numeric order. *)
Definition indexLe (a b : string) : Prop :=
  forall i j, arrayIndex a = Some i -> arrayIndex b = Some j -> (i <= j)%N.

(** A tested condition that reports the breach of a rule only when the
    rule is broken, with the rule's message. *)
Definition soundCheck (check rule : RuleInstance) : Prop :=
  rule_message check = rule_message rule
  /\ (rule_broken check = true -> rule_broken rule = true).

(** ** Aggregating copies of one run *)

(** The mean the aggregator computes for [R] copies of a value: the sum
    [0 + x + ... + x] divided by [R], every step rounded. *)
Definition meanOfCopies (R : nat) (x : number) : number :=
  (sum_of (fun v => v) (repeat x R) / of_nat R)%float.

(** The average derived from a total and a count, as the profiler, the
    interaction tracker and the aggregator all compute it. *)
Definition derivedAverage (total count : number) : number :=
  if JS.gt count 0%float then (total / count)%float else 0%float.

(** A count for which the sum of [R] copies is below [2^53]: a whole
    number [n] with [R * n < 2^53]. *)
Definition wholeCount (R : nat) (x : number) : Prop :=
  exists n : nat,
    x = of_nat n /\ (Z.of_nat R * Z.of_nat n < 9007199254740992)%Z.

(** The aggregate of [R] copies of an interaction result whose count is
    reproduced: the time is the mean of the copies, the average is derived
    from that mean. *)
Definition meanOfInteraction (R : nat) (r : InteractionResult)
  : InteractionResult := {|
  interaction := interaction r;
  rendersTriggered := rendersTriggered r;
  totalRenderTime := meanOfCopies R (totalRenderTime r);
  ir_averageRenderTime :=
    derivedAverage (meanOfCopies R (totalRenderTime r)) (rendersTriggered r)
|}.

Definition noInteractions : MeasureInteractionOptions := {|
  opt_interactions := [];
  opt_contract := None;
  opt_runs := None
|}.

Definition mountEvent (duration : number) : RenderEvent := {|
  phase := mount;
  actualDuration := duration;
  baseDuration := duration;
  startTime := 0%float;
  commitTime := duration
|}.

(** A run that mounted in one render of 0.1 ms and performed no
    interaction. *)
Definition tenthOfMillisecondRun : MeasureInteractionResult :=
  runResult "Button" noInteractions
    (onRenderCallback (createProfiler "Button") (mountEvent 0.1%float))
    [] 0%float.

Definition clickOptions : MeasureInteractionOptions := {|
  opt_interactions :=
    [{| is_type := click; target := "button"; text := None |}];
  opt_contract := None;
  opt_runs := None
|}.

(** A one-render mount of half a millisecond, then a click causing two
    renders of a quarter millisecond each. *)
Definition clickSnapshot : RenderMetrics :=
  onRenderCallback
    (onRenderCallback
       (onRenderCallback (createProfiler "Button") (mountEvent 0.5%float))
       {| phase := update; actualDuration := 0.25%float;
          baseDuration := 0.25%float; startTime := 1%float;
          commitTime := 2%float |})
    {| phase := update; actualDuration := 0.25%float;
       baseDuration := 0.25%float; startTime := 2%float;
       commitTime := 3%float |}.

Definition clickResult : InteractionResult := {|
  interaction := {| is_type := click; target := "button"; text := None |};
  rendersTriggered := 2%float;
  totalRenderTime := 0.5%float;
  ir_averageRenderTime := 0.25%float
|}.

(** The external collaborators of a world in which every run is the
    click run above and the clock stands at [0]. *)
Definition clickWorld_performRun (_ : list InteractionSpec) (w : unit)
  : completion (RenderMetrics * list InteractionResult) * unit :=
  (Return (clickSnapshot, [clickResult]), w).

Definition clickWorld_Date_now (_ : unit) : number := 0%float.

(* ================================================================== *)
(** * Contract lookup and the configuration cache ([contracts/loader.ts]) *)
(* ================================================================== *)

(** [map.has(key)] on a [Map] kept as the list of its entries. *)
Definition Map_has {V : Type} (m : @object string V) (key : string) : bool :=
  existsb (String.eqb key) (keys m).

Definition hasContract (config : ResolvedConfig) (componentName : string)
  : bool :=
  Map_has (rc_components config) componentName.

(** [Array.from(config.components.keys())]: insertion order. *)
Definition getContractedComponents (config : ResolvedConfig) : list string :=
  keys (rc_components config).

(** [LoadedConfig]: what [loadConfig] hands back for a file it found. *)
Record LoadedConfig : Type := {
  lc_config : ContractConfig;
  filepath : string;
  isEmpty : bool
}.

(** The two module-level variables [cachedConfig] and [cachedConfigPath];
    [null] is [None]. *)
Record ConfigCache : Type := {
  cachedConfig : option ResolvedConfig;
  cachedConfigPath : option string
}.

(** The state the module starts in. *)
Definition initialCache : ConfigCache :=
  {| cachedConfig := None; cachedConfigPath := None |}.

(** The configuration [{}]. *)
Definition emptyContractConfig : ContractConfig :=
  {| cfg_global := None; cfg_components := None; cfg_aggregates := None |}.

Definition newline : string := String (Ascii.ascii_of_nat 10) EmptyString.

(** [`Invalid configuration:\n${errors.map((e) => `  - ${e}`).join('\n')}`]. *)
Definition invalidConfigurationMessage (errors : list string) : string :=
  ("Invalid configuration:" ++ newline
   ++ String.concat newline (map (fun e => "  - " ++ e) errors))%string.

Definition clearConfigCache (cache : ConfigCache) : ConfigCache :=
  {| cachedConfig := None; cachedConfigPath := None |}.

Definition getConfigPath (cache : ConfigCache) : option string :=
  cachedConfigPath cache.

(** ** [getConfig]

    Searching the file system belongs to [cosmiconfig]; [loadConfig] is the
    collaborator that does it: on a state [World] it returns the loaded
    file, [null] when none is found or the file is empty, or throws.  The
    cache is threaded explicitly. *)
Section GetConfig.
Variable World : Type.
Variable loadConfig :
  option string -> World -> completion (option LoadedConfig) * World.

Definition getConfig (searchFrom : option string) (forceReload : bool)
  (cache : ConfigCache) (w : World)
  : completion ResolvedConfig * ConfigCache * World :=
  let load :=
    match loadConfig searchFrom w with
    | (Throw e, w') => (Throw e, cache, w')
    | (Return None, w') =>
        let resolved := resolveConfig emptyContractConfig in
        (Return resolved,
         {| cachedConfig := Some resolved; cachedConfigPath := None |},
         w')
    | (Return (Some loaded), w') =>
        let errors := validateConfig (lc_config loaded) in
        if Nat.ltb 0 (List.length errors) then
          (Throw (invalidConfigurationMessage errors), cache, w')
        else
          let resolved := resolveConfig (lc_config loaded) in
          (Return resolved,
           {| cachedConfig := Some resolved;
              cachedConfigPath := Some (filepath loaded) |},
           w')
    end in
  match cachedConfig cache with
  | Some cached => if negb forceReload then (Return cached, cache, w) else load
  | None => load
  end.

(** [config || (await getConfig())]: a supplied configuration is used as it
    is; otherwise the cached or loaded one. *)
Definition configOrLoaded (config : option ResolvedConfig)
  (cache : ConfigCache) (w : World)
  : completion ResolvedConfig * ConfigCache * World :=
  match config with
  | Some config => (Return config, cache, w)
  | None => getConfig None false cache w
  end.
End GetConfig.

(* ================================================================== *)
(** * Further entry points of the validator ([contracts/validator.ts]) *)
(* ================================================================== *)

(** [measurements.componentName]: both kinds of measurement carry it. *)
Definition componentNameOf (measurements : Measurements) : string :=
  match measurements with
  | PlainMetrics m => rm_componentName m
  | InteractionMeasurement r => mi_componentName r
  end.

Definition passesContract (measurements : Measurements)
  (contract : ResolvedComponentContract) : bool :=
  let componentName := componentNameOf measurements in
  let result := validateAgainstContract componentName measurements contract in
  negb (ValidationStatus_eqb (status result) fail).

Definition addSuggestions (result : ValidationResult)
  (suggestions' : list FixSuggestion) : ValidationResult := {|
  status := status result;
  componentName := componentName result;
  metrics := metrics result;
  violations := violations result;
  suggestions := suggestions result ++ suggestions'
|}.

(** One element of the array [validateMultiple] is given. *)
Record MeasuredComponent : Type := {
  mc_componentName : string;
  mc_measurements : Measurements
}.

(** Lines 342-355: the loop of [validateMultiple] over a resolved
    configuration. *)
Definition validateEach (results : list MeasuredComponent)
  (resolvedConfig : ResolvedConfig) : list ValidationResult :=
  fold_left
    (fun validations entry =>
       match validateContractSync (mc_componentName entry)
                                  (mc_measurements entry) resolvedConfig with
       | Some validation => validations ++ [validation]
       | None => validations
       end)
    results [].

Section ValidateWithConfig.
Variable World : Type.
Variable loadConfig :
  option string -> World -> completion (option LoadedConfig) * World.

Definition validateContract (componentName : string)
  (measurements : Measurements) (config : option ResolvedConfig)
  (cache : ConfigCache) (w : World)
  : completion (option ValidationResult) * ConfigCache * World :=
  let '(resolved, cache', w') :=
    configOrLoaded World loadConfig config cache w in
  (do resolvedConfig <- resolved;
   Return (validateContractSync componentName measurements resolvedConfig),
   cache', w').

Definition validateMultiple (results : list MeasuredComponent)
  (config : option ResolvedConfig) (cache : ConfigCache) (w : World)
  : completion (list ValidationResult) * ConfigCache * World :=
  let '(resolved, cache', w') :=
    configOrLoaded World loadConfig config cache w in
  (do resolvedConfig <- resolved;
   Return (validateEach results resolvedConfig),
   cache', w').
End ValidateWithConfig.

(* ================================================================== *)
(** * Profiler state ([measurement/profiler.ts]) *)
(* ================================================================== *)

(** [reset]: every counter back to zero; the component name stays. *)
Definition reset (metrics : RenderMetrics) : RenderMetrics := {|
  rm_componentName := rm_componentName metrics;
  renderCount := 0%float;
  totalActualDuration := 0%float;
  totalBaseDuration := 0%float;
  rm_averageRenderTime := 0%float;
  renders := []
|}.

(** [getSnapshot]: [{...metrics, renders: [...metrics.renders]}]. *)
Definition getSnapshot (metrics : RenderMetrics) : RenderMetrics := {|
  rm_componentName := rm_componentName metrics;
  renderCount := renderCount metrics;
  totalActualDuration := totalActualDuration metrics;
  totalBaseDuration := totalBaseDuration metrics;
  rm_averageRenderTime := rm_averageRenderTime metrics;
  renders := renders metrics
|}.

(** ** The shared profiler context ([ProfilerProvider])

    [metricsMap] is the [Map] behind the context value.  [recordRender]
    creates the entry of a component on its first render and then updates
    it exactly as [onRenderCallback] updates a profiler's metrics. *)
Definition recordRender (metricsMap : @object string RenderMetrics)
  (componentName : string) (event : RenderEvent)
  : @object string RenderMetrics :=
  let metrics :=
    match JS.get String.eqb metricsMap componentName with
    | Some metrics => metrics
    | None =>
        {| rm_componentName := componentName;
           renderCount := 0%float;
           totalActualDuration := 0%float;
           totalBaseDuration := 0%float;
           rm_averageRenderTime := 0%float;
           renders := [] |}
    end in
  JS.set String.eqb metricsMap componentName (onRenderCallback metrics event).

Definition getMetrics (metricsMap : @object string RenderMetrics)
  (componentName : string) : option RenderMetrics :=
  match JS.get String.eqb metricsMap componentName with
  | Some metrics => Some (getSnapshot metrics)
  | None => None
  end.

Definition resetAll (metricsMap : @object string RenderMetrics)
  : @object string RenderMetrics := [].

(* ================================================================== *)
(** * Observations on the configuration cache *)
(* ================================================================== *)

(** A resolved configuration that stems from a declaration
    [validateConfig] finds no fault with. *)
Definition accepted (resolved : ResolvedConfig) : Prop :=
  exists config, validateConfig config = [] /\ resolved = resolveConfig config.

(** The states of the cache that the module's own functions can produce,
    starting from the empty cache. *)
Inductive CacheReachable (World : Type)
  (loadConfig :
     option string -> World -> completion (option LoadedConfig) * World)
  : ConfigCache -> Prop :=
| reachable_initial : CacheReachable World loadConfig initialCache
| reachable_clear cache :
    CacheReachable World loadConfig cache ->
    CacheReachable World loadConfig (clearConfigCache cache)
| reachable_getConfig cache searchFrom forceReload w :
    CacheReachable World loadConfig cache ->
    CacheReachable World loadConfig
      (snd (fst (getConfig World loadConfig searchFrom forceReload cache w))).

(** A file system in which every search finds the same thing; the state
    counts the searches made. *)
Definition searchFinds (found : option LoadedConfig) (_ : option string)
  (searches : nat) : completion (option LoadedConfig) * nat :=
  (Return found, S searches).

Definition sparseConfigFile : LoadedConfig :=
  {| lc_config := sparseConfig;
     filepath := "/app/perf.contracts.ts";
     isEmpty := false |}.

Definition scenarioDFile : LoadedConfig :=
  {| lc_config := scenarioD;
     filepath := "/app/perf.contracts.ts";
     isEmpty := false |}.

(* ================================================================== *)
(** * Observations on profilers *)
(* ================================================================== *)

(** The metrics of a profiler after React has reported [events] to its
    [onRenderCallback], in order. *)
Definition afterRenders (metrics : RenderMetrics) (events : list RenderEvent)
  : RenderMetrics :=
  fold_left onRenderCallback events metrics.

(** The shared map after a sequence of [recordRender] calls. *)
Definition recordAll (calls : list (string * RenderEvent))
  (metricsMap : @object string RenderMetrics) : @object string RenderMetrics :=
  fold_left (fun metricsMap '(componentName, event) =>
               recordRender metricsMap componentName event)
            calls metricsMap.

(** The events among [calls] that were recorded for one component. *)
Definition eventsOf (componentName : string)
  (calls : list (string * RenderEvent)) : list RenderEvent :=
  map snd (filter (fun call => String.eqb componentName (fst call)) calls).

Definition typeError : string :=
  "TypeError: Cannot read properties of undefined".

(** A run of the same component in which no interaction was performed. *)
Definition runWithoutInteractions : MeasureInteractionResult :=
  runResult "Button" noInteractions (createProfiler "Button") [] 0%float.

(* ================================================================== *)
(** * Observations on counts *)
(* ================================================================== *)

(** The binary64 datum of a positive integer below [2^53]: the mantissa
    scaled to 53 bits. *)
Definition integerFloat (N : Z) : spec_float :=
  S754_finite false (Z.to_pos (N * 2 ^ (53 - Zdigits2 N))) (Zdigits2 N - 53).

(** [n] runs performed one after the other, each result appended to
    [allResults]; the first run that throws ends the sequence. *)
Section RunsInSequence.
Variable World : Type.
Variable performRun :
  list InteractionSpec -> World ->
  completion (RenderMetrics * list InteractionResult) * World.
Variable Date_now : World -> number.

Fixpoint collectRuns (n : nat) (componentName : string)
  (options : MeasureInteractionOptions) (w : World)
  (allResults : list MeasureInteractionResult)
  : completion (list MeasureInteractionResult) * World :=
  match n with
  | O => (Return allResults, w)
  | S n' =>
      match performRun (opt_interactions options) w with
      | (Throw e, w') => (Throw e, w')
      | (Return (snapshot, interactionResults), w') =>
          collectRuns n' componentName options w'
            (allResults
             ++ [runResult componentName options snapshot interactionResults
                   (Date_now w')])
      end
  end.
End RunsInSequence.

(* ================================================================== *)
(** * [measureRendersWithProfiler] ([measurement/profiler.ts]) *)
(* ================================================================== *)

(** The [options] argument: [{ runs?: number; warmupRuns?: number }]. *)
Record ProfilerRunOptions : Type := {
  pro_runs : option number;
  pro_warmupRuns : option number
}.

(** What [measureRendersWithProfiler] resolves to; [result] is
    [undefined] when [renderFn] was never called. *)
Record ProfilerMeasurement (T : Type) : Type := {
  pm_result : option T;
  pm_metrics : RenderMetrics;
  allRuns : list RenderMetrics
}.
Arguments pm_result {T} _.
Arguments pm_metrics {T} _.
Arguments allRuns {T} _.

(** Lines 297-316: the sums over [allRuns] and the average. *)
Definition aggregateRuns (allRuns : list RenderMetrics) : RenderMetrics :=
  let aggregatedMetrics :=
    fold_left
      (fun aggregatedMetrics run =>
         {| rm_componentName := rm_componentName aggregatedMetrics;
            renderCount :=
              (renderCount aggregatedMetrics + renderCount run)%float;
            totalActualDuration :=
              (totalActualDuration aggregatedMetrics
               + totalActualDuration run)%float;
            totalBaseDuration :=
              (totalBaseDuration aggregatedMetrics
               + totalBaseDuration run)%float;
            rm_averageRenderTime := rm_averageRenderTime aggregatedMetrics;
            renders := renders aggregatedMetrics ++ renders run |})
      allRuns
      {| rm_componentName := "measured-component";
         renderCount := 0%float;
         totalActualDuration := 0%float;
         totalBaseDuration := 0%float;
         rm_averageRenderTime := 0%float;
         renders := [] |} in
  if JS.gt (renderCount aggregatedMetrics) 0%float then
    {| rm_componentName := rm_componentName aggregatedMetrics;
       renderCount := renderCount aggregatedMetrics;
       totalActualDuration := totalActualDuration aggregatedMetrics;
       totalBaseDuration := totalBaseDuration aggregatedMetrics;
       rm_averageRenderTime :=
         (totalActualDuration aggregatedMetrics
          / renderCount aggregatedMetrics)%float;
       renders := renders aggregatedMetrics |}
  else aggregatedMetrics.

(** [renderFn] and [scenario] are the caller's; they act on a state
    [World] and may throw.  The profiler is created inside the function
    and is handed to neither of them, nor to any [React.Profiler]: its
    [onRenderCallback] is out of their reach, so between two steps of this
    function its metrics are what this function left there. *)
Section MeasureRendersWithProfiler.
Variables World T : Type.
Variable renderFn : World -> completion T * World.
Variable scenario : option (World -> completion unit * World).

(** The body of both loops: [profiler.reset(); result = renderFn();
    if (scenario) await scenario();]. *)
Definition renderOnce (profiler : RenderMetrics) (w : World)
  : completion (T * RenderMetrics) * World :=
  let profiler := reset profiler in
  match renderFn w with
  | (Throw e, w') => (Throw e, w')
  | (Return result, w') =>
      match scenario with
      | Some scenario =>
          match scenario w' with
          | (Throw e, w'') => (Throw e, w'')
          | (Return _, w'') => (Return (result, profiler), w'')
          end
      | None => (Return (result, profiler), w')
      end
  end.

(** [for (let i = 0; i < warmupRuns; i++)]; [fuel] bounds the iterations
    unfolded. *)
Fixpoint warmupLoop (fuel : nat) (warmupRuns i : number)
  (profiler : RenderMetrics) (result : option T) (w : World)
  : option (completion (RenderMetrics * option T) * World) :=
  if JS.lt i warmupRuns then
    match fuel with
    | O => None
    | S fuel' =>
        match renderOnce profiler w with
        | (Throw e, w') => Some (Throw e, w')
        | (Return (result, profiler), w') =>
            warmupLoop fuel' warmupRuns (i + 1)%float profiler (Some result) w'
        end
    end
  else Some (Return (profiler, result), w).

(** [for (let i = 0; i < runs; i++)], which also pushes the snapshot. *)
Fixpoint measurementLoop (fuel : nat) (runs i : number)
  (profiler : RenderMetrics) (result : option T)
  (allRuns : list RenderMetrics) (w : World)
  : option (completion (option T * list RenderMetrics) * World) :=
  if JS.lt i runs then
    match fuel with
    | O => None
    | S fuel' =>
        match renderOnce profiler w with
        | (Throw e, w') => Some (Throw e, w')
        | (Return (result, profiler), w') =>
            measurementLoop fuel' runs (i + 1)%float profiler (Some result)
              (allRuns ++ [getSnapshot profiler]) w'
        end
    end
  else Some (Return (result, allRuns), w).

Definition measureRendersWithProfiler (fuel : nat)
  (options : ProfilerRunOptions) (w : World)
  : option (completion (ProfilerMeasurement T) * World) :=
  let runs := nullish (pro_runs options) 1%float in
  let warmupRuns := nullish (pro_warmupRuns options) 0%float in
  let profiler := createProfiler "measured-component" in
  match warmupLoop fuel warmupRuns 0%float profiler None w with
  | None => None
  | Some (Throw e, w') => Some (Throw e, w')
  | Some (Return (profiler, result), w') =>
      match measurementLoop fuel runs 0%float profiler result [] w' with
      | None => None
      | Some (Throw e, w'') => Some (Throw e, w'')
      | Some (Return (result, allRuns), w'') =>
          Some (Return {| pm_result := result;
                          pm_metrics := aggregateRuns allRuns;
                          allRuns := allRuns |},
                w'')
      end
  end.
End MeasureRendersWithProfiler.

(** A renderer that counts its calls and returns the count. *)
Definition countingRender (calls : nat) : completion nat * nat :=
  (Return (S calls), S calls).

(* ================================================================== *)
(** * JSON reports ([reporters/json.ts]) *)
(* ================================================================== *)

Record Regression : Type := {
  rg_componentName : string;
  rg_metric : string;
  baseline : number;
  current : number;
  changePercent : number;
  significant : bool
}.

Inductive BaselineSource : Type := artifacts | branch_source | file_source.

Record ComparisonResult : Type := {
  baselineSource : BaselineSource;
  baselineTimestamp : option number;
  regressions : list Regression;
  improvements : list Regression;
  newComponents : list string;
  removedComponents : list string
}.

Record ChunkChange : Type := {
  chunk_name : string;
  sizeChange : number;
  addedModules : list string;
  removedModules : list string
}.

Record DependencyAlternative : Type := {
  dependency : string;
  currentSize : number;
  alternative : string;
  alternativeSize : number;
  savings : number
}.

Record BundleCorrelation : Type := {
  hasCorrelation : bool;
  confidence : number;
  chunkChanges : list ChunkChange;
  suggestedAlternatives : list DependencyAlternative
}.

Record ResultSummary : Type := {
  componentsTested : number;
  contractsPassed : number;
  contractsWarning : number;
  contractsFailed : number;
  regressionsDetected : number
}.

Record TestReport : Type := {
  version : string;
  tr_timestamp : number;
  commitSha : option string;
  branch : option string;
  tr_status : ValidationStatus;
  summary : ResultSummary;
  results : list ValidationResult;
  tr_comparison : option ComparisonResult;
  bundleAnalysis : option BundleCorrelation
}.

(** [VERSION] ([index.ts]). *)
Definition VERSION : string := "0.1.0".

(** [createSummary]; an array length is the number of that natural. *)
Definition createSummary (results : list ValidationResult) : ResultSummary :=
  let counts := countByStatus results in
  {| componentsTested := of_nat (List.length results);
     contractsPassed := of_nat (count_pass counts);
     contractsWarning := of_nat (count_warn counts);
     contractsFailed := of_nat (count_fail counts);
     regressionsDetected := 0%float |}.

(** [a || b] on possibly-undefined strings: the empty string is falsy. *)
Definition string_or (a b : option string) : option string :=
  match a with
  | Some s => if String.eqb s "" then b else a
  | None => b
  end.

(** [getCommitSha] and [getBranch] read [process.env], here [env]. *)
Definition getCommitSha (env : string -> option string) : option string :=
  string_or (env "GITHUB_SHA")
    (string_or (env "CI_COMMIT_SHA") (string_or (env "GIT_COMMIT") None)).

Definition getBranch (env : string -> option string) : option string :=
  string_or (env "GITHUB_REF_NAME")
    (string_or (env "GITHUB_HEAD_REF")
       (string_or (env "CI_COMMIT_BRANCH")
          (string_or (env "GIT_BRANCH") None))).

(** [results.map((r) => ({ ...r, suggestions: [] }))]. *)
Definition withoutSuggestions (results : list ValidationResult)
  : list ValidationResult :=
  map (fun r => {| status := status r;
                   componentName := componentName r;
                   metrics := metrics r;
                   violations := violations r;
                   suggestions := [] |})
      results.

(** Lines 47-59 of [generateJsonReport]: the report that is handed to
    [JSON.stringify].  [includeSuggestions] is the merged option, [now]
    the clock, [env] the process environment. *)
Definition reportOf (results : list ValidationResult)
  (includeSuggestions : bool) (now : number) (env : string -> option string)
  : TestReport :=
  let summary := createSummary results in
  let reported :=
    if includeSuggestions then results else withoutSuggestions results in
  {| version := VERSION;
     tr_timestamp := now;
     commitSha := getCommitSha env;
     branch := getBranch env;
     tr_status := getOverallStatus results;
     summary := summary;
     results := reported;
     tr_comparison := None;
     bundleAnalysis := None |}.

Definition mergeJsonReports (now : number) (reports : list TestReport)
  : completion TestReport :=
  if Nat.eqb (List.length reports) 0 then
    Throw "Cannot merge empty reports array"
  else
    let allResults := flat_map results reports in
    let totalTested := sum_of (fun r => componentsTested (summary r)) reports in
    let totalPassed := sum_of (fun r => contractsPassed (summary r)) reports in
    let totalWarning :=
      sum_of (fun r => contractsWarning (summary r)) reports in
    let totalFailed := sum_of (fun r => contractsFailed (summary r)) reports in
    let totalRegressions :=
      sum_of (fun r => regressionsDetected (summary r)) reports in
    Return
      {| version := VERSION;
         tr_timestamp := now;
         commitSha := None;
         branch := None;
         tr_status := getOverallStatus allResults;
         summary :=
           {| componentsTested := totalTested;
              contractsPassed := totalPassed;
              contractsWarning := totalWarning;
              contractsFailed := totalFailed;
              regressionsDetected := totalRegressions |};
         results := allResults;
         tr_comparison := None;
         bundleAnalysis := None |}.

Definition getFailedResults (report : TestReport) : list ValidationResult :=
  filter (fun r => ValidationStatus_eqb (status r) fail) (results report).

Definition getWarningResults (report : TestReport) : list ValidationResult :=
  filter (fun r => ValidationStatus_eqb (status r) warn) (results report).





(** A report whose status and summary are those of its results. *)
Definition consistentReport (report : TestReport) : Prop :=
  tr_status report = getOverallStatus (results report)
  /\ summary report = createSummary (results report).

(* ================================================================== *)
(** * The GitHub action ([github-action/src/index.ts]) *)
(* ================================================================== *)

(** [`${n}`] for an array length. *)
Definition decimal (n : nat) : string :=
  DecimalString.NilZero.string_of_uint (Nat.to_uint n).

(** Lines 78-81 and 126-137 of [run]: the message the job is failed
    with, if it is; [regressions] is the empty array the function
    declares. *)
Definition failureOf (results : list ValidationResult)
  (failOnBudgetExceeded failOnRegression : bool) : option string :=
  let overall := getOverallStatus results in
  let violations :=
    filter (fun r => ValidationStatus_eqb (status r) fail) results in
  let regressions : list unknown := [] in
  if ValidationStatus_eqb overall fail then
    if Nat.ltb 0 (List.length violations) && failOnBudgetExceeded then
      Some (decimal (List.length violations)
            ++ " performance budget(s) exceeded")%string
    else if Nat.ltb 0 (List.length regressions) && failOnRegression then
      Some (decimal (List.length regressions) ++ " regression(s) detected")%string
    else None
  else None.

(* ================================================================== *)
(** * Performing one interaction ([measurement/interaction.ts]) *)
(* ================================================================== *)

(** The events [fireEvent] is asked to fire. *)
Inductive DomEvent : Type :=
| EvClick
| EvChange (value : string)
| EvFocus
| EvBlur
| EvScroll
| EvMouseEnter.

(** ** The code points of a string

    [for (const char of text)] iterates the code points of [text], not its
    bytes or code units.  Strings are kept in UTF-8 here, so a code point
    is the string of the one to four bytes that encode it: a byte below
    [0xC0] stands alone, a byte below [0xE0], [0xF0] or above starts a
    sequence of two, three or four bytes. *)
Definition utf8Length (c : Ascii.ascii) : nat :=
  let n := Ascii.N_of_ascii c in
  if (n <? 192)%N then 1
  else if (n <? 224)%N then 2
  else if (n <? 240)%N then 3
  else 4.

(** [pending] bytes are still to be added to the code point [current]. *)
Fixpoint codePointsFrom (pending : nat) (current : string) (s : string)
  : list string :=
  match s with
  | EmptyString =>
      match current with
      | EmptyString => []
      | _ => [current]
      end
  | String c s' =>
      match pending with
      | O =>
          match utf8Length c with
          | S (S k) => codePointsFrom (S k) (String c "") s'
          | _ => String c "" :: codePointsFrom 0 "" s'
          end
      | S O => (current ++ String c "")%string :: codePointsFrom 0 "" s'
      | S k => codePointsFrom k (current ++ String c "")%string s'
      end
  end.

Definition codePoints (s : string) : list string := codePointsFrom 0 "" s.

(** The DOM, the testing library and React are collaborators acting on a
    state [World]: [findElement] (lines 105-125) resolves a selector or
    throws "Element not found"; [fireEvent] dispatches an event, which may
    throw; [inputValue] reads [element.value]; [tick] is one
    [await new Promise((resolve) => setTimeout(resolve, 0))], during which
    React finishes pending work; [profilerMetrics] reads the live metrics
    of the profiler the tracker holds, which React updates through
    [onRenderCallback] while the other collaborators run. *)
Section PerformInteraction.
Variables World Element : Type.
Variable findElement : string -> World -> completion Element.
Variable fireEvent : DomEvent -> Element -> World -> completion unit * World.
Variable inputValue : Element -> World -> option string.
Variable tick : World -> World.
Variable profilerMetrics : World -> RenderMetrics.

(** Lines 151-159: typing character by character; [chars] are the code
    points still to type. *)
Fixpoint typeText (element : Element) (chars : list string) (w : World)
  : completion unit * World :=
  match chars with
  | [] => (Return tt, w)
  | char :: chars' =>
      let currentValue :=
        match inputValue element w with
        | Some value => value
        | None => ""
        end in
      match fireEvent (EvChange (currentValue ++ char)) element w with
      | (Throw e, w') => (Throw e, w')
      | (Return _, w') => typeText element chars' (tick w')
      end
  end.

Definition performInteraction (interaction : InteractionSpec) (w : World)
  : completion InteractionResult * World :=
  match findElement (target interaction) w with
  | Throw e => (Throw e, w)
  | Return element =>
      let rendersBefore := renderCount (profilerMetrics w) in
      let renderTimeBefore := totalActualDuration (profilerMetrics w) in
      let fired :=
        match is_type interaction with
        | click => fireEvent EvClick element w
        | type =>
            match text interaction with
            | Some t =>
                if String.eqb t "" then (Return tt, w)
                else typeText element (codePoints t) w
            | None => (Return tt, w)
            end
        | focus => fireEvent EvFocus element w
        | blur => fireEvent EvBlur element w
        | scroll => fireEvent EvScroll element w
        | hover => fireEvent EvMouseEnter element w
        end in
      match fired with
      | (Throw e, w') => (Throw e, w')
      | (Return _, w') =>
          let w'' := tick w' in
          let rendersAfter := renderCount (profilerMetrics w'') in
          let renderTimeAfter := totalActualDuration (profilerMetrics w'') in
          let rendersTriggered := (rendersAfter - rendersBefore)%float in
          let totalRenderTime := (renderTimeAfter - renderTimeBefore)%float in
          (Return {| interaction := interaction;
                     rendersTriggered := rendersTriggered;
                     totalRenderTime := totalRenderTime;
                     ir_averageRenderTime :=
                       if JS.gt rendersTriggered 0%float
                       then (totalRenderTime / rendersTriggered)%float
                       else 0%float |},
           w'')
      end
  end.
End PerformInteraction.

(** A page with one button whose click makes React commit two renders of
    a quarter millisecond each: the state is the metrics of the attached
    profiler. *)
Definition buttonPage_findElement (selector : string) (_ : RenderMetrics)
  : completion unit :=
  if String.eqb selector "button" then Return tt
  else Throw ("Element not found: " ++ selector)%string.

Definition buttonPage_fireEvent (event : DomEvent) (_ : unit)
  (metrics : RenderMetrics) : completion unit * RenderMetrics :=
  match event with
  | EvClick =>
      (Return tt,
       afterRenders metrics
         [{| phase := update; actualDuration := 0.25%float;
             baseDuration := 0.25%float; startTime := 1%float;
             commitTime := 2%float |};
          {| phase := update; actualDuration := 0.25%float;
             baseDuration := 0.25%float; startTime := 2%float;
             commitTime := 3%float |}])
  | _ => (Return tt, metrics)
  end.

(* ================================================================== *)
(** * Test matchers ([jest.ts]) *)
(* ================================================================== *)

(** What a matcher may receive: a number, a measurement of either kind,
    or anything else. *)
Inductive Received : Type :=
| ReceivedNumber (n : number)
| ReceivedMeasurements (m : Measurements)
| ReceivedOther.

(** The matchers below are modelled by the [pass] member of their result;
    the [message] member is text for the test report. *)
Definition toHaveRendersAtMost (received : Received) (maxRenders : number)
  : bool :=
  match received with
  | ReceivedNumber n => JS.le n maxRenders
  | ReceivedMeasurements (InteractionMeasurement r) =>
      JS.le (renderCount (mi_metrics r)) maxRenders
  | ReceivedMeasurements (PlainMetrics m) => JS.le (renderCount m) maxRenders
  | ReceivedOther => false
  end.

Definition toHaveRenderTimeAtMost (received : Received) (maxMs : number)
  : bool :=
  match received with
  | ReceivedNumber n => JS.le n maxMs
  | ReceivedMeasurements (InteractionMeasurement r) =>
      JS.le (rm_averageRenderTime (mi_metrics r)) maxMs
  | ReceivedMeasurements (PlainMetrics m) =>
      JS.le (rm_averageRenderTime m) maxMs
  | ReceivedOther => false
  end.

Definition toHaveRendersPerInteractionAtMost (received : Received)
  (interactionType : InteractionType) (maxRenders : number) : bool :=
  match received with
  | ReceivedMeasurements (InteractionMeasurement r) =>
      let actualRenders :=
        or_zero (JS.get InteractionType_eqb (rendersByType r) interactionType) in
      JS.le actualRenders maxRenders
  | _ => false
  end.

Section ToPassContract.
Variable World : Type.
Variable loadConfig :
  option string -> World -> completion (option LoadedConfig) * World.

Definition toPassContract (received : Measurements)
  (contractName : option string) (cache : ConfigCache) (w : World)
  : completion bool * ConfigCache * World :=
  let '(config, cache', w') := getConfig World loadConfig None false cache w in
  (do config <- config;
   let componentName :=
     match string_or contractName None with
     | Some name => name
     | None => componentNameOf received
     end in
   match getComponentContract config componentName with
   | None => Return false
   | Some contract =>
       let result := validateAgainstContract componentName received contract in
       Return (negb (ValidationStatus_eqb (status result) fail))
   end,
   cache', w').
End ToPassContract.

(* ================================================================== *)
(** * Facts about binary64 comparison *)
(* ================================================================== *)

Section Comparison.
Local Open Scope float_scope.

Lemma compare_cont_Eq (m n : positive) :
  Pos.compare_cont Eq m n = Pos.compare m n.
Proof. reflexivity. Qed.

(** Swapping the operands of [SFcompare] flips the outcome. *)
Lemma SFcompare_swap (x y : spec_float) :
  SFcompare y x = option_map CompOpp (SFcompare x y).
Proof.
  destruct x as [sx|sx| |sx mx ex], y as [sy|sy| |sy my ey]; simpl;
    try reflexivity;
    try (destruct sx; reflexivity);
    try (destruct sy; reflexivity);
    try (destruct sx, sy; reflexivity).
  destruct sx, sy; try reflexivity;
    rewrite (Z.compare_antisym ex ey), !compare_cont_Eq,
            (Pos.compare_antisym mx my);
    destruct (ex ?= ey)%Z; simpl; try reflexivity;
    destruct (mx ?= my)%positive; reflexivity.
Qed.

(** [x <= y] excludes [y < x]. *)
Lemma leb_not_gtb (x y : float) : (x <=? y) = true -> (y <? x) = false.
Proof.
  rewrite leb_spec, ltb_spec. unfold SFleb, SFltb.
  rewrite (SFcompare_swap (Prim2SF x) (Prim2SF y)).
  destruct (SFcompare (Prim2SF x) (Prim2SF y)) as [[]|]; simpl; congruence.
Qed.

(** [x < y] excludes [y < x]. *)
Lemma ltb_not_gtb (x y : float) : (x <? y) = true -> (y <? x) = false.
Proof.
  rewrite !ltb_spec. unfold SFltb.
  rewrite (SFcompare_swap (Prim2SF x) (Prim2SF y)).
  destruct (SFcompare (Prim2SF x) (Prim2SF y)) as [[]|]; simpl; congruence.
Qed.

(** [x < y] gives [x <= y]. *)
Lemma ltb_leb (x y : float) : (x <? y) = true -> (x <=? y) = true.
Proof.
  rewrite leb_spec, ltb_spec. unfold SFleb, SFltb.
  destruct (SFcompare (Prim2SF x) (Prim2SF y)) as [[]|]; simpl; congruence.
Qed.

(** A number that compares with something is not [NaN], and two numbers
    that are not [NaN] are comparable. *)
Lemma ltb_comparable_l (x y : float) : (x <? y) = true -> comparable x.
Proof.
  rewrite ltb_spec. unfold SFltb, comparable. intros H E. rewrite E in H.
  simpl in H. discriminate.
Qed.

Lemma ltb_comparable_r (x y : float) : (x <? y) = true -> comparable y.
Proof.
  rewrite ltb_spec. unfold SFltb, comparable. intros H E. rewrite E in H.
  destruct (Prim2SF x); simpl in H; discriminate.
Qed.

Lemma SFcompare_total (x y : spec_float) :
  x <> S754_nan -> y <> S754_nan -> exists c, SFcompare x y = Some c.
Proof.
  intros Hx Hy.
  destruct x as [sx|sx| |sx mx ex], y as [sy|sy| |sy my ey]; simpl;
    try congruence; eexists; reflexivity.
Qed.

(** On comparable numbers, [not (y < x)] is [x <= y]. *)
Lemma not_gtb_leb (x y : float) :
  comparable x -> comparable y -> (y <? x) = false -> (x <=? y) = true.
Proof.
  intros Hx Hy. rewrite leb_spec, ltb_spec. unfold SFleb, SFltb.
  rewrite (SFcompare_swap (Prim2SF x) (Prim2SF y)).
  destruct (SFcompare_total _ _ Hx Hy) as [c ->].
  destruct c; simpl; congruence.
Qed.

End Comparison.

(* ================================================================== *)
(** * Facts about binary64 division

    [a / b] is the correctly rounded quotient ([div_spec], [SFdiv]).  For a
    positive divisor it exceeds [1] exactly when [a] exceeds [b]: a quotient
    below one rounds to at most one, and a quotient of two binary64
    numbers that is above one exceeds [1 + 2^-53], the midpoint between
    one and its successor, so it rounds above one. *)
(* ================================================================== *)

Section Division.
Local Open Scope Z_scope.

(** A mantissa of [d] binary digits lies in [[2^(d-1), 2^d)]. *)
Lemma digits2_pos_bounds (p : positive) :
  2 ^ (Z.pos (digits2_pos p) - 1) <= Z.pos p < 2 ^ Z.pos (digits2_pos p).
Proof.
  induction p as [p IH|p IH|]; cbn [digits2_pos].
  - rewrite Pos2Z.inj_succ.
    replace (Z.succ (Z.pos (digits2_pos p)) - 1)
      with (Z.succ (Z.pos (digits2_pos p) - 1)) by lia.
    rewrite !Z.pow_succ_r by lia. lia.
  - rewrite Pos2Z.inj_succ.
    replace (Z.succ (Z.pos (digits2_pos p)) - 1)
      with (Z.succ (Z.pos (digits2_pos p) - 1)) by lia.
    rewrite !Z.pow_succ_r by lia. lia.
  - cbn. lia.
Qed.

Lemma Zdigits2_bounds (m : Z) :
  0 < m -> 2 ^ (Zdigits2 m - 1) <= m < 2 ^ Zdigits2 m.
Proof.
  destruct m as [|p|p]; try lia. intros _. apply digits2_pos_bounds.
Qed.

Lemma Zdigits2_pos (m : Z) : 0 < m -> 0 < Zdigits2 m.
Proof. destruct m; cbn; lia. Qed.

Lemma Zdigits2_unique (m k : Z) :
  2 ^ (k - 1) <= m < 2 ^ k -> 0 < m -> Zdigits2 m = k.
Proof.
  intros [Hlo Hhi] Hm.
  pose proof (Zdigits2_bounds m Hm) as [Hlo' Hhi'].
  pose proof (Zdigits2_pos m Hm) as Hd.
  assert (Hk : 0 < k).
  { destruct (Z_lt_le_dec 0 k) as [|Hle]; [assumption|].
    assert (2 ^ k <= 2 ^ 0) by (apply Z.pow_le_mono_r; lia).
    change (2 ^ 0) with 1 in *. lia. }
  destruct (Z.lt_trichotomy (Zdigits2 m) k) as [Hlt|[Heq|Hgt]]; [|exact Heq|].
  - assert (2 ^ Zdigits2 m <= 2 ^ (k - 1)) by (apply Z.pow_le_mono_r; lia).
    lia.
  - assert (2 ^ k <= 2 ^ (Zdigits2 m - 1)) by (apply Z.pow_le_mono_r; lia).
    lia.
Qed.

Lemma Zdigits2_le (m k : Z) : 0 <= k -> 0 <= m < 2 ^ k -> Zdigits2 m <= k.
Proof.
  intros Hk [Hlo Hhi].
  destruct (Z.eq_dec m 0) as [->|Hm]; [cbn; lia|].
  pose proof (Zdigits2_bounds m ltac:(lia)) as [Hlo' Hhi'].
  destruct (Z_le_gt_dec (Zdigits2 m) k) as [|Hgt]; [assumption|].
  assert (2 ^ k <= 2 ^ (Zdigits2 m - 1)) by (apply Z.pow_le_mono_r; lia).
  lia.
Qed.

Lemma shr_m_shr_1 (mrs : shr_record) :
  0 <= shr_m mrs -> shr_m (shr_1 mrs) = shr_m mrs / 2.
Proof.
  destruct mrs as [m r s]. cbn [shr_m]. intros Hm.
  destruct m as [|[p|p|]|p]; cbn [shr_1 shr_m]; try lia.
  all: try reflexivity.
  - apply Z.div_unique with (r := 1); lia.
  - apply Z.div_unique with (r := 0); lia.
Qed.

Lemma shr_m_nonneg_shr_1 (mrs : shr_record) :
  0 <= shr_m mrs -> 0 <= shr_m (shr_1 mrs).
Proof.
  intros H. rewrite shr_m_shr_1 by exact H. apply Z.div_pos; lia.
Qed.

Lemma shr_m_iter (p : positive) :
  forall mrs, 0 <= shr_m mrs ->
    shr_m (SpecFloat.iter_pos shr_1 p mrs) = shr_m mrs / 2 ^ Z.pos p
    /\ 0 <= shr_m (SpecFloat.iter_pos shr_1 p mrs).
Proof.
  induction p as [p IH|p IH|]; intros mrs Hm; cbn [SpecFloat.iter_pos].
  - destruct (IH (shr_1 mrs) (shr_m_nonneg_shr_1 _ Hm)) as [E1 P1].
    destruct (IH _ P1) as [E2 P2]. split; [|exact P2].
    rewrite E2, E1, shr_m_shr_1 by exact Hm.
    rewrite !Z.div_div by lia. f_equal.
    rewrite Pos2Z.inj_xI, Z.pow_add_r, Z.pow_mul_r by lia.
    change (2 ^ 2) with 4. change (2 ^ 1) with 2.
    replace (4 ^ Z.pos p) with (2 ^ Z.pos p * 2 ^ Z.pos p).
    + lia.
    + rewrite <- Z.pow_add_r by lia. replace (Z.pos p + Z.pos p) with (2 * Z.pos p) by lia.
      now rewrite Z.pow_mul_r by lia.
  - destruct (IH mrs Hm) as [E1 P1].
    destruct (IH _ P1) as [E2 P2]. split; [|exact P2].
    rewrite E2, E1. rewrite Z.div_div by lia. f_equal.
    rewrite Pos2Z.inj_xO. rewrite <- Z.pow_add_r by lia. f_equal. lia.
  - split; [|now apply shr_m_nonneg_shr_1].
    rewrite shr_m_shr_1 by exact Hm. reflexivity.
Qed.

Lemma fexp64_eq (k : Z) : SpecFloat.fexp prec emax k = Z.max (k - 53) (-1074).
Proof. reflexivity. Qed.

Lemma shr_1_spec (m : Z) (r s : bool) :
  0 <= m ->
  shr_1 (Build_shr_record m r s) = Build_shr_record (m / 2) (Z.odd m) (r || s).
Proof.
  intros Hm.
  assert (E : shr_m (shr_1 (Build_shr_record m r s)) = m / 2)
    by (now rewrite shr_m_shr_1).
  destruct m as [|[p|p|]|p]; cbn [shr_1 shr_m Z.odd] in *;
    try rewrite <- E; try reflexivity; lia.
Qed.

(** What [shr_fexp] does: nothing when the mantissa already fits, else a
    right shift by the excess. *)
Lemma shr_fexp_spec (m e : Z) (l : location) :
  0 <= m ->
  let n := SpecFloat.fexp prec emax (Zdigits2 m + e) - e in
  (n <= 0 -> shr_fexp prec emax m e l = (shr_record_of_loc m l, e))
  /\ (0 < n ->
      exists mrs, shr_fexp prec emax m e l = (mrs, e + n)
                  /\ shr_m mrs = m / 2 ^ n /\ 0 <= shr_m mrs).
Proof.
  intros Hm n. unfold shr_fexp, shr. fold n.
  assert (Hrec : shr_m (shr_record_of_loc m l) = m)
    by (destruct l as [|[]]; reflexivity).
  split; intros Hn.
  - destruct n; try reflexivity; lia.
  - destruct n as [|p|p]; try lia.
    destruct (shr_m_iter p (shr_record_of_loc m l)) as [E P];
      [now rewrite Hrec|].
    eexists. split; [reflexivity|]. rewrite Hrec in E. now split.
Qed.

Lemma round_nearest_even_bounds (m : Z) (l : location) :
  m <= round_nearest_even m l <= m + 1.
Proof.
  unfold round_nearest_even.
  destruct l as [|[]]; try destruct (Z.even m); lia.
Qed.

Lemma loc_of_shr_record_of_loc (m : Z) (l : location) :
  loc_of_shr_record (shr_record_of_loc m l) = l.
Proof. destruct l as [|[]]; reflexivity. Qed.

Lemma gt_one_finite (m : positive) (e : Z) :
  SFltb SFone64 (S754_finite false m e) = true
  <-> -52 < e \/ (e = -52 /\ 4503599627370496 < Z.pos m).
Proof.
  cbv beta iota delta [SFltb SFcompare SFone64].
  change (Pos.compare_cont Eq 4503599627370496 m)
    with (Pos.compare 4503599627370496 m).
  destruct (Z.compare_spec (-52) e) as [He|He|He].
  - destruct (Pos.compare_spec 4503599627370496 m) as [Hm|Hm|Hm].
    + apply (f_equal Z.pos) in Hm.
      split; [intros H; exfalso; exact (Bool.diff_false_true H) | lia].
    + apply Pos2Z.pos_lt_pos in Hm.
      split; [intros _; lia | reflexivity].
    + apply Pos2Z.pos_lt_pos in Hm.
      split; [intros H; exfalso; exact (Bool.diff_false_true H) | lia].
  - split; [intros _; lia | reflexivity].
  - split; [intros H; exfalso; exact (Bool.diff_false_true H) | lia].
Qed.

Lemma binary_round_aux_stages (s : bool) (m e : Z) (l : location) :
  exists mrs' e1 mrs'' e2,
    shr_fexp prec emax m e l = (mrs', e1)
    /\ shr_fexp prec emax
         (round_nearest_even (shr_m mrs') (loc_of_shr_record mrs')) e1 loc_Exact
       = (mrs'', e2)
    /\ binary_round_aux prec emax s m e l
       = match shr_m mrs'' with
         | Z0 => S754_zero s
         | Zpos p =>
             if e2 <=? 971 then S754_finite s p e2 else S754_infinity s
         | Zneg _ => S754_nan
         end.
Proof.
  unfold binary_round_aux.
  destruct (shr_fexp prec emax m e l) as [mrs' e1] eqn:E1.
  destruct (shr_fexp prec emax _ e1 loc_Exact) as [mrs'' e2] eqn:E2.
  exists mrs', e1, mrs'', e2. split; [reflexivity|]. split; [exact E2|].
  reflexivity.
Qed.

Lemma shr_m_shr_record_of_loc (m : Z) (l : location) :
  shr_m (shr_record_of_loc m l) = m.
Proof. destruct l as [|[]]; reflexivity. Qed.

(** The first stage on a quotient below [2^(-e')]. *)
Lemma first_stage_small (q e' : Z) (l : location) (mrs' : shr_record) (e1 : Z) :
  0 <= q < 2 ^ (- e') -> e' <= -53 ->
  shr_fexp prec emax q e' l = (mrs', e1) ->
  0 <= shr_m mrs' < 9007199254740992 /\ e1 <= -53.
Proof.
  intros [Hq0 Hq] He' Hfirst.
  assert (Hdig : Zdigits2 q <= - e') by (apply Zdigits2_le; lia).
  assert (Hsmall : q < 2 ^ Zdigits2 q \/ q = 0).
  { destruct (Z.eq_dec q 0) as [->|Hq0']; [now right|left].
    apply Zdigits2_bounds. lia. }
  destruct (shr_fexp_spec q e' l Hq0) as [Hno Hshift].
  rewrite fexp64_eq in Hno, Hshift.
  destruct (Z_le_gt_dec (Z.max (Zdigits2 q + e' - 53) (-1074) - e') 0)
    as [Hn|Hn].
  - rewrite (Hno Hn) in Hfirst.
    apply pair_equal_spec in Hfirst as [<- <-].
    rewrite shr_m_shr_record_of_loc.
    split; [|lia]. split; [lia|].
    destruct Hsmall as [Hlt | ->]; [|lia].
    assert (H53 : 2 ^ Zdigits2 q <= 2 ^ 53)
      by (apply Z.pow_le_mono_r; lia).
    change (2 ^ 53) with 9007199254740992 in H53. lia.
  - destruct (Hshift ltac:(lia)) as (mrs & E & Hm & Hpos).
    rewrite E in Hfirst. apply pair_equal_spec in Hfirst as [<- <-].
    split; [|lia]. split; [exact Hpos|]. rewrite Hm.
    set (n := Z.max (Zdigits2 q + e' - 53) (-1074) - e') in *.
    apply Z.div_lt_upper_bound; [apply Z.pow_pos_nonneg; lia|].
    destruct Hsmall as [Hlt | ->];
      [|apply Z.mul_pos_pos; [apply Z.pow_pos_nonneg|]; lia].
    assert (H53 : 2 ^ Zdigits2 q <= 2 ^ (n + 53))
      by (apply Z.pow_le_mono_r; lia).
    rewrite Z.pow_add_r in H53 by lia.
    change (2 ^ 53) with 9007199254740992 in H53. lia.
Qed.

(** The second stage on a mantissa of at most [2^53] with a small
    exponent. *)
Lemma second_stage_small (m2 e1 : Z) (mrs'' : shr_record) (e2 : Z) :
  0 <= m2 <= 9007199254740992 -> e1 <= -53 ->
  shr_fexp prec emax m2 e1 loc_Exact = (mrs'', e2) ->
  0 <= shr_m mrs''
  /\ (e2 <= -53 \/ (e2 = -52 /\ shr_m mrs'' <= 4503599627370496)).
Proof.
  intros [Hm2 Hm2'] He1 Hsecond.
  assert (Hdig2 : Zdigits2 m2 <= 54).
  { apply Zdigits2_le; [lia|]. change (2 ^ 54) with 18014398509481984. lia. }
  destruct (shr_fexp_spec m2 e1 loc_Exact Hm2) as [Hno Hshift].
  rewrite fexp64_eq in Hno, Hshift.
  destruct (Z_le_gt_dec (Z.max (Zdigits2 m2 + e1 - 53) (-1074) - e1) 0)
    as [Hn|Hn].
  - rewrite (Hno Hn) in Hsecond.
    apply pair_equal_spec in Hsecond as [<- <-].
    rewrite shr_m_shr_record_of_loc. split; [lia|]. left. lia.
  - destruct (Hshift ltac:(lia)) as (mrs & E & Hm & Hpos).
    rewrite E in Hsecond. apply pair_equal_spec in Hsecond as [<- <-].
    split; [exact Hpos|]. clear Hno Hshift E Hpos.
    destruct (Z_le_gt_dec (Zdigits2 m2) 53) as [Hd|Hd];
      [left; clear Hm; lia|].
    destruct (Z_le_gt_dec e1 (-54)) as [He|He]; [left; clear Hm; lia|].
    right. split; [clear Hm; lia|].
    assert (e1 = -53) as -> by lia.
    replace (Z.max (Zdigits2 m2 + -53 - 53) (-1074) - -53) with 1 in Hm
      by lia.
    rewrite Hm. change (2 ^ 1) with 2.
    apply Z.div_le_upper_bound; lia.
Qed.

(** A quotient below one rounds to at most one. *)
Lemma round_small (s : bool) (q e' : Z) (l : location) :
  0 <= q < 2 ^ (- e') -> e' <= -53 ->
  SFltb SFone64 (binary_round_aux prec emax s q e' l) = false.
Proof.
  intros Hq He'.
  destruct (binary_round_aux_stages s q e' l)
    as (mrs' & e1 & mrs'' & e2 & Hfirst & Hsecond & ->).
  destruct (first_stage_small q e' l mrs' e1 Hq He' Hfirst) as [Hm1 He1].
  pose proof (round_nearest_even_bounds (shr_m mrs') (loc_of_shr_record mrs'))
    as Hr.
  assert (Hm2 : 0 <= round_nearest_even (shr_m mrs') (loc_of_shr_record mrs')
                <= 9007199254740992) by lia.
  destruct (second_stage_small _ e1 mrs'' e2 Hm2 He1 Hsecond) as [Hm'' He2].
  destruct (shr_m mrs'') as [|p|p] eqn:Em; [reflexivity| |reflexivity].
  replace (e2 <=? 971) with true by (symmetry; apply Z.leb_le; lia).
  destruct s; [reflexivity|].
  destruct (SFltb SFone64 (S754_finite false p e2)) eqn:E; [|reflexivity].
  apply gt_one_finite in E. lia.
Qed.

(** The first stage on a quotient of 53 or 54 digits. *)
Lemma first_stage_large (q e' : Z) (l : location) :
  4503599627370496 <= q < 18014398509481984 -> -1074 <= e' ->
  shr_fexp prec emax q e' l
  = if q <? 9007199254740992
    then (shr_record_of_loc q l, e')
    else (shr_1 (shr_record_of_loc q l), e' + 1).
Proof.
  intros [Hlo Hhi] He'.
  assert (Hq : 0 < q) by lia.
  destruct (Z.ltb_spec q 9007199254740992) as [Hlt|Hge].
  - assert (Hd : Zdigits2 q = 53).
    { apply Zdigits2_unique; [|exact Hq].
      change (2 ^ (53 - 1)) with 4503599627370496.
      change (2 ^ 53) with 9007199254740992. lia. }
    destruct (shr_fexp_spec q e' l ltac:(lia)) as [Hno _].
    apply Hno. rewrite fexp64_eq, Hd. lia.
  - assert (Hd : Zdigits2 q = 54).
    { apply Zdigits2_unique; [|exact Hq].
      change (2 ^ (54 - 1)) with 9007199254740992.
      change (2 ^ 54) with 18014398509481984. lia. }
    unfold shr_fexp. rewrite fexp64_eq, Hd.
    replace (Z.max (54 + e' - 53) (-1074) - e') with 1 by lia.
    reflexivity.
Qed.

(** The second stage on a rounded mantissa of 53 digits, or [2^53]. *)
Lemma second_stage_large (m2 e1 : Z) (mrs'' : shr_record) (e2 : Z) :
  4503599627370496 <= m2 <= 9007199254740992 -> -1074 <= e1 ->
  shr_fexp prec emax m2 e1 loc_Exact = (mrs'', e2) ->
  SFltb SFone64
    match shr_m mrs'' with
    | Z0 => S754_zero false
    | Zpos p =>
        if e2 <=? 971 then S754_finite false p e2 else S754_infinity false
    | Zneg _ => S754_nan
    end = true
  <-> -52 < e1 \/ (e1 = -52 /\ 4503599627370496 < m2).
Proof.
  intros [Hlo Hhi] He1 Hsecond.
  rewrite first_stage_large in Hsecond by lia.
  destruct (Z.ltb_spec m2 9007199254740992) as [Hlt|Hge];
    apply pair_equal_spec in Hsecond as [<- <-].
  - rewrite shr_m_shr_record_of_loc.
    destruct m2 as [|p|p]; try lia.
    destruct (Z.leb_spec e1 971) as [Hle|Hgt].
    + apply gt_one_finite.
    + split; [intros _; lia | reflexivity].
  - assert (m2 = 9007199254740992) as -> by lia.
    change (shr_m (shr_1 (shr_record_of_loc 9007199254740992 loc_Exact)))
      with 4503599627370496.
    destruct (Z.leb_spec (e1 + 1) 971) as [Hle|Hgt].
    + rewrite gt_one_finite. lia.
    + split; [intros _; lia | reflexivity].
Qed.

Lemma bounded_facts (m : positive) (e : Z) :
  bounded prec emax m e = true ->
  1 <= Z.pos (digits2_pos m) <= 53
  /\ -1074 <= e <= 971
  /\ (e = -1074 \/ Z.pos (digits2_pos m) = 53).
Proof.
  unfold bounded, canonical_mantissa. intros H.
  apply andb_true_iff in H as [Hc Hb].
  apply Z.eqb_eq in Hc. apply Z.leb_le in Hb.
  rewrite fexp64_eq in Hc. change (emax - prec) with 971 in Hb. lia.
Qed.

Lemma SFdiv_core_binary_spec (mx my : positive) (ex ey : Z) :
  let e' :=
    Z.min (SpecFloat.fexp prec emax (Z.pos (digits2_pos mx) + ex - (Z.pos (digits2_pos my) + ey)))
          (ex - ey) in
  let m' := Z.pos mx * 2 ^ (ex - ey - e') in
  SFdiv_core_binary prec emax (Z.pos mx) ex (Z.pos my) ey
  = (m' / Z.pos my, e', new_location (Z.pos my) (m' mod Z.pos my)).
Proof.
  intros e' m'. unfold SFdiv_core_binary.
  change (Zdigits2 (Z.pos mx)) with (Z.pos (digits2_pos mx)).
  change (Zdigits2 (Z.pos my)) with (Z.pos (digits2_pos my)).
  fold e'.
  assert (Hs : 0 <= ex - ey - e') by (subst e'; lia).
  assert (Hm' : match ex - ey - e' with
                | Z0 => Z.pos mx
                | Zpos _ => Z.shiftl (Z.pos mx) (ex - ey - e')
                | Zneg _ => 0
                end = m').
  { subst m'. destruct (ex - ey - e') as [|p|p] eqn:Es.
    - change (2 ^ 0) with 1. lia.
    - rewrite Z.shiftl_mul_pow2 by lia. reflexivity.
    - lia. }
  rewrite Hm'. unfold Z.div, Z.modulo.
  destruct (Z.div_eucl m' (Z.pos my)) as [q r]. reflexivity.
Qed.

Lemma new_location_exact (nb : Z) : new_location nb 0 = loc_Exact.
Proof.
  unfold new_location.
  destruct (Z.even nb); reflexivity.
Qed.

Lemma new_location_inexact (nb k : Z) :
  k <> 0 -> exists c, new_location nb k = loc_Inexact c.
Proof.
  intros Hk. apply Z.eqb_neq in Hk. unfold new_location.
  destruct (Z.even nb); unfold new_location_even, new_location_odd;
    rewrite Hk; eexists; reflexivity.
Qed.

Lemma new_location_above_half (nb k : Z) :
  0 < k -> nb < 2 * k -> new_location nb k = loc_Inexact Gt.
Proof.
  intros Hk Hhalf. unfold new_location.
  destruct (Z.even nb); unfold new_location_even, new_location_odd;
    replace (k =? 0) with false by (symmetry; apply Z.eqb_neq; lia).
  - replace (2 * k ?= nb) with Gt; [reflexivity|].
    symmetry. apply Z.compare_gt_iff. lia.
  - replace (2 * k + 1 ?= nb) with Gt; [reflexivity|].
    symmetry. apply Z.compare_gt_iff. lia.
Qed.

(** For canonical mantissas, the order on (exponent, mantissa) pairs is the
    order on the values [m * 2^e]. *)
Lemma canonical_lt_scaled (m1 m2 : positive) (e1 e2 : Z) :
  bounded prec emax m1 e1 = true ->
  bounded prec emax m2 e2 = true ->
  e1 < e2 \/ (e1 = e2 /\ Z.pos m1 < Z.pos m2) ->
  e1 <= e2 /\ Z.pos m1 + 1 <= Z.pos m2 * 2 ^ (e2 - e1).
Proof.
  intros H1 H2.
  destruct (bounded_facts m1 e1 H1) as (Hd1 & He1 & Hn1).
  destruct (bounded_facts m2 e2 H2) as (Hd2 & He2 & Hn2).
  pose proof (digits2_pos_bounds m1) as [Hm1_lo Hm1_hi].
  pose proof (digits2_pos_bounds m2) as [Hm2_lo Hm2_hi].
  intros [Hlt|[-> Hlt]].
  - split; [lia|].
    destruct Hn2 as [->|Hn2]; [lia|].
    rewrite Hn2 in Hm2_lo.
    change (2 ^ (53 - 1)) with 4503599627370496 in Hm2_lo.
    assert (Hm53 : 2 ^ Z.pos (digits2_pos m1) <= 2 ^ 53)
      by (apply Z.pow_le_mono_r; lia).
    change (2 ^ 53) with 9007199254740992 in Hm53.
    assert (Hp : 2 ^ 1 <= 2 ^ (e2 - e1)) by (apply Z.pow_le_mono_r; lia).
    change (2 ^ 1) with 2 in Hp.
    assert (4503599627370496 * 2 <= Z.pos m2 * 2 ^ (e2 - e1))
      by (apply Z.mul_le_mono_nonneg; lia).
    lia.
  - split; [lia|]. rewrite Z.sub_diag. change (2 ^ 0) with 1. lia.
Qed.

Section Quotient.
Variables (mx my : positive) (ex ey : Z).
Hypothesis Hx : bounded prec emax mx ex = true.
Hypothesis Hy : bounded prec emax my ey = true.

Let d1 := Z.pos (digits2_pos mx).
Let d2 := Z.pos (digits2_pos my).
Let D := d1 + ex - (d2 + ey).
Let e' := Z.min (SpecFloat.fexp prec emax D) (ex - ey).
Let m' := Z.pos mx * 2 ^ (ex - ey - e').
Let q := m' / Z.pos my.
Let r := m' mod Z.pos my.

Lemma SFdiv_finite (sx sy : bool) :
  SFdiv prec emax (S754_finite sx mx ex) (S754_finite sy my ey)
  = binary_round_aux prec emax (xorb sx sy) q e'
      (new_location (Z.pos my) r).
Proof.
  unfold SFdiv. rewrite SFdiv_core_binary_spec. reflexivity.
Qed.

(** [x < y]: the quotient rounds to at most one. *)
Lemma quotient_below (s : bool) :
  ex < ey \/ (ex = ey /\ Z.pos mx < Z.pos my) ->
  SFltb SFone64
    (binary_round_aux prec emax s q e' (new_location (Z.pos my) r)) = false.
Proof.
  intros Hlt.
  destruct (canonical_lt_scaled mx my ex ey Hx Hy Hlt) as [Hee Hscaled].
  destruct (bounded_facts mx ex Hx) as (Hd1 & He1 & Hn1).
  destruct (bounded_facts my ey Hy) as (Hd2 & He2 & Hn2).
  pose proof (digits2_pos_bounds mx) as [Hmx_lo Hmx_hi].
  pose proof (digits2_pos_bounds my) as [Hmy_lo Hmy_hi].
  fold d1 in Hd1, Hn1, Hmx_lo, Hmx_hi. fold d2 in Hd2, Hn2, Hmy_lo, Hmy_hi.
  (* D <= 0 *)
  assert (HD : D <= 0).
  { assert (Hlt2 : 2 ^ (d1 - 1) < 2 ^ (d2 + (ey - ex))).
    { rewrite (Z.pow_add_r 2 d2 (ey - ex)) by lia.
      assert (Z.pos my * 2 ^ (ey - ex) < 2 ^ d2 * 2 ^ (ey - ex)).
      { apply Z.mul_lt_mono_pos_r; [apply Z.pow_pos_nonneg; lia | lia]. }
      lia. }
    apply Z.pow_lt_mono_r_iff in Hlt2; [|lia|lia]. subst D. lia. }
  assert (He' : e' <= -53) by (subst e'; rewrite fexp64_eq; lia).
  assert (Hs : 0 <= ex - ey - e') by (subst e'; lia).
  apply round_small; [|exact He'].
  split.
  - subst q. apply Z.div_pos; [|lia]. subst m'.
    apply Z.mul_nonneg_nonneg; [lia | apply Z.pow_nonneg; lia].
  - subst q. apply Z.div_lt_upper_bound; [lia|].
    subst m'.
    replace (- e') with ((ey - ex) + (ex - ey - e')) by lia.
    rewrite Z.pow_add_r by lia.
    set (P := 2 ^ (ex - ey - e')) in *.
    assert (HP : 0 < P) by (apply Z.pow_pos_nonneg; lia).
    assert (Z.pos mx * P < (Z.pos my * 2 ^ (ey - ex)) * P).
    { apply Z.mul_lt_mono_pos_r; [exact HP | lia]. }
    lia.
Qed.

(** [x = y]: the quotient is exactly one. *)
Lemma quotient_equal (s : bool) :
  ex = ey -> mx = my ->
  SFltb SFone64
    (binary_round_aux prec emax s q e' (new_location (Z.pos my) r)) = false.
Proof.
  intros Hee Hmm.
  assert (HD : D = 0) by (subst D d1 d2; rewrite Hee, Hmm; lia).
  assert (He' : e' = -53).
  { subst e'. rewrite HD, Hee, Z.sub_diag. reflexivity. }
  assert (Hm' : m' = 9007199254740992 * Z.pos my).
  { subst m'. rewrite He', Hee, Hmm.
    replace (ey - ey - -53) with 53 by lia.
    change (2 ^ 53) with 9007199254740992. lia. }
  assert (Hq : q = 9007199254740992)
    by (subst q; rewrite Hm'; apply Z.div_mul; lia).
  assert (Hr : r = 0) by (subst r; rewrite Hm'; apply Z.mod_mul; lia).
  rewrite Hq, Hr, He', new_location_exact.
  destruct s; vm_compute; reflexivity.
Qed.

(** [x > y]: the quotient rounds to more than one. *)
Lemma quotient_above :
  ey < ex \/ (ey = ex /\ Z.pos my < Z.pos mx) ->
  SFltb SFone64
    (binary_round_aux prec emax false q e' (new_location (Z.pos my) r)) = true.
Proof.
  intros Hgt.
  destruct (canonical_lt_scaled my mx ey ex Hy Hx Hgt) as [Hee Hscaled].
  destruct (bounded_facts mx ex Hx) as (Hd1 & He1 & Hn1).
  destruct (bounded_facts my ey Hy) as (Hd2 & He2 & Hn2).
  pose proof (digits2_pos_bounds mx) as [Hmx_lo Hmx_hi].
  pose proof (digits2_pos_bounds my) as [Hmy_lo Hmy_hi].
  fold d1 in Hd1, Hn1, Hmx_lo, Hmx_hi. fold d2 in Hd2, Hn2, Hmy_lo, Hmy_hi.
  assert (Hmy53 : Z.pos my < 9007199254740992).
  { assert (H53 : 2 ^ d2 <= 2 ^ 53) by (apply Z.pow_le_mono_r; lia).
    change (2 ^ 53) with 9007199254740992 in H53. lia. }
  (* D >= 0 *)
  assert (HD : 0 <= D).
  { assert (Hlt2 : 2 ^ (d2 - 1) < 2 ^ (d1 + (ex - ey))).
    { rewrite (Z.pow_add_r 2 d1 (ex - ey)) by lia.
      assert (Z.pos mx * 2 ^ (ex - ey) < 2 ^ d1 * 2 ^ (ex - ey)).
      { apply Z.mul_lt_mono_pos_r; [apply Z.pow_pos_nonneg; lia | lia]. }
      lia. }
    apply Z.pow_lt_mono_r_iff in Hlt2; [|lia|lia]. subst D. lia. }
  assert (He' : e' = D - 53) by (subst e' D; rewrite fexp64_eq; lia).
  assert (Hs : ex - ey - e' = (ex - ey) + (53 - D)) by lia.
  assert (Hs' : ex - ey - e' = 53 - d1 + d2) by (subst D; lia).
  (* the scaled dividend *)
  assert (Hm'lo : 4503599627370496 * Z.pos my <= m').
  { subst m'. rewrite Hs'.
    assert (H1 : 2 ^ (d1 - 1) * 2 ^ (53 - d1 + d2)
                 <= Z.pos mx * 2 ^ (53 - d1 + d2)).
    { apply Z.mul_le_mono_nonneg_r; [apply Z.pow_nonneg; lia | lia]. }
    rewrite <- Z.pow_add_r in H1 by lia.
    replace (d1 - 1 + (53 - d1 + d2)) with (52 + d2) in H1 by lia.
    rewrite (Z.pow_add_r 2 52 d2) in H1 by lia.
    change (2 ^ 52) with 4503599627370496 in H1.
    assert (4503599627370496 * Z.pos my <= 4503599627370496 * 2 ^ d2)
      by (apply Z.mul_le_mono_nonneg_l; lia).
    lia. }
  assert (Hm'hi : m' < Z.pos my * 18014398509481984).
  { subst m'. rewrite Hs'.
    assert (H1 : Z.pos mx * 2 ^ (53 - d1 + d2)
                 < 2 ^ d1 * 2 ^ (53 - d1 + d2)).
    { apply Z.mul_lt_mono_pos_r; [apply Z.pow_pos_nonneg; lia | lia]. }
    rewrite <- Z.pow_add_r in H1 by lia.
    replace (d1 + (53 - d1 + d2)) with (54 + (d2 - 1)) in H1 by lia.
    rewrite (Z.pow_add_r 2 54 (d2 - 1)) in H1 by lia.
    change (2 ^ 54) with 18014398509481984 in H1.
    assert (18014398509481984 * 2 ^ (d2 - 1)
            <= 18014398509481984 * Z.pos my)
      by (apply Z.mul_le_mono_nonneg_l; lia).
    lia. }
  assert (Hm'gt : D <= 53 -> (Z.pos my + 1) * 2 ^ (53 - D) <= m').
  { intros HD53. subst m'. rewrite Hs, Z.pow_add_r by lia.
    rewrite Z.mul_assoc.
    apply Z.mul_le_mono_nonneg_r; [apply Z.pow_nonneg; lia | lia]. }
  assert (Hdm : m' = Z.pos my * q + r /\ 0 <= r < Z.pos my).
  { subst q r. split; [apply Z.div_mod; lia | apply Z.mod_pos_bound; lia]. }
  destruct Hdm as [Hdm Hr].
  assert (Hqlo : 4503599627370496 <= q).
  { subst q. apply Z.div_le_lower_bound; lia. }
  assert (Hqhi : q < 18014398509481984).
  { subst q. apply Z.div_lt_upper_bound; lia. }
  clearbody q r m' e'.
  (* the two rounding stages *)
  destruct (binary_round_aux_stages false q e' (new_location (Z.pos my) r))
    as (mrs' & e1 & mrs'' & e2 & Hfirst & Hsecond & ->).
  rewrite first_stage_large in Hfirst by lia.
  destruct (Z.ltb_spec q 9007199254740992) as [Hq53|Hq54];
    apply pair_equal_spec in Hfirst as [<- <-].
  - (* 53 digits: no shift *)
    rewrite shr_m_shr_record_of_loc, loc_of_shr_record_of_loc in Hsecond.
    pose proof (round_nearest_even_bounds q (new_location (Z.pos my) r))
      as Hround.
    apply (second_stage_large
             (round_nearest_even q (new_location (Z.pos my) r)) e' mrs'' e2
             ltac:(lia) ltac:(lia) Hsecond).
    destruct (Z_le_gt_dec 2 D) as [HD2|HD2]; [left; lia|].
    destruct (Z.eq_dec D 1) as [HD1|HD0].
    + right. split; [lia|].
      specialize (Hm'gt ltac:(lia)).
      rewrite HD1 in Hm'gt. change (2 ^ (53 - 1)) with 4503599627370496 in Hm'gt.
      destruct (Z.eq_dec q 4503599627370496) as [Hq|Hq]; [|lia].
      rewrite Hq in Hdm |- *.
      rewrite new_location_above_half by lia.
      unfold round_nearest_even. lia.
    + exfalso. assert (D = 0) as HD0' by lia.
      specialize (Hm'gt ltac:(lia)).
      rewrite HD0' in Hm'gt. change (2 ^ (53 - 0)) with 9007199254740992 in Hm'gt.
      assert (Z.pos my * q <= Z.pos my * 9007199254740991)
        by (apply Z.mul_le_mono_nonneg_l; lia).
      lia.
  - (* 54 digits: one shift *)
    assert (Hm1 : shr_m (shr_1 (shr_record_of_loc q (new_location (Z.pos my) r)))
                  = q / 2).
    { rewrite shr_m_shr_1; rewrite shr_m_shr_record_of_loc; [reflexivity|lia]. }
    assert (Hhalf : 2 * (q / 2) <= q < 2 * (q / 2) + 2).
    { pose proof (Z.div_mod q 2 ltac:(lia)).
      pose proof (Z.mod_pos_bound q 2 ltac:(lia)). lia. }
    pose proof (round_nearest_even_bounds
                  (shr_m (shr_1 (shr_record_of_loc q
                                   (new_location (Z.pos my) r))))
                  (loc_of_shr_record
                     (shr_1 (shr_record_of_loc q
                               (new_location (Z.pos my) r))))) as Hround.
    set (m2 := round_nearest_even _ _) in *.
    assert (Hm2 : 4503599627370496 <= m2 <= 9007199254740992)
      by (rewrite Hm1 in Hround; lia).
    apply (second_stage_large m2 (e' + 1) mrs'' e2 Hm2 ltac:(lia) Hsecond).
    destruct (Z_le_gt_dec 1 D) as [HD1|HD0]; [left; lia|].
    right. split; [lia|].
    assert (D = 0) as HD0' by lia.
    specialize (Hm'gt ltac:(lia)).
    rewrite HD0' in Hm'gt. change (2 ^ (53 - 0)) with 9007199254740992 in Hm'gt.
    destruct (Z_le_gt_dec (9007199254740992 + 2) q) as [Hbig|Hsmall];
      [rewrite Hm1 in Hround; lia|].
    assert (Hq : q = 9007199254740992 + 1).
    { destruct (Z.eq_dec q 9007199254740992) as [Hq|Hq]; [|lia].
      rewrite Hq in Hdm. lia. }
    assert (Hr0 : r <> 0) by (rewrite Hq in Hdm; lia).
    subst m2.
    destruct (new_location_inexact (Z.pos my) r Hr0) as [c ->].
    rewrite Hq.
    destruct c; vm_compute; reflexivity.
Qed.
End Quotient.

Lemma negative_not_above (m e : Z) (l : location) :
  SFltb SFone64 (binary_round_aux prec emax true m e l) = false.
Proof.
  destruct (binary_round_aux_stages true m e l)
    as (mrs' & e1 & mrs'' & e2 & _ & _ & ->).
  destruct (shr_m mrs'') as [|p|p]; try reflexivity.
  destruct (e2 <=? 971); reflexivity.
Qed.

Lemma lt_finite_iff (m1 m2 : positive) (e1 e2 : Z) :
  SFltb (S754_finite false m1 e1) (S754_finite false m2 e2) = true
  <-> e1 < e2 \/ (e1 = e2 /\ Z.pos m1 < Z.pos m2).
Proof.
  cbv beta iota delta [SFltb SFcompare].
  change (Pos.compare_cont Eq m1 m2) with (Pos.compare m1 m2).
  destruct (Z.compare_spec e1 e2) as [He|He|He].
  - destruct (Pos.compare_spec m1 m2) as [Hm|Hm|Hm].
    + apply (f_equal Z.pos) in Hm.
      split; [intros H; exfalso; exact (Bool.diff_false_true H) | lia].
    + apply Pos2Z.pos_lt_pos in Hm.
      split; [intros _; lia | reflexivity].
    + apply Pos2Z.pos_lt_pos in Hm.
      split; [intros H; exfalso; exact (Bool.diff_false_true H) | lia].
  - split; [intros _; lia | reflexivity].
  - split; [intros H; exfalso; exact (Bool.diff_false_true H) | lia].
Qed.

(** Dividing by a positive number: the rounded quotient exceeds one
    exactly when the dividend exceeds the divisor. *)
Lemma SFdiv_above_one (x y : spec_float) :
  valid_binary x = true -> valid_binary y = true ->
  SFltb (S754_zero false) y = true ->
  (SFltb SFone64 (SFdiv prec emax x y) = true <-> SFltb y x = true).
Proof.
  intros Hx Hy Hpos.
  destruct y as [sy|sy| |sy my ey].
  - exfalso. exact (Bool.diff_false_true Hpos).
  - destruct sy; [exfalso; exact (Bool.diff_false_true Hpos)|].
    destruct x as [sx|[]| |sx mx ex]; split; intros H;
      first [exact H | exfalso; exact (Bool.diff_false_true H)].
  - exfalso. exact (Bool.diff_false_true Hpos).
  - destruct sy; [exfalso; exact (Bool.diff_false_true Hpos)|].
    destruct x as [sx|[]| |[] mx ex].
    + split; intros H; exfalso; exact (Bool.diff_false_true H).
    + split; intros H; exfalso; exact (Bool.diff_false_true H).
    + split; intros _; reflexivity.
    + split; intros H; exfalso; exact (Bool.diff_false_true H).
    + rewrite (SFdiv_finite mx my ex ey true false).
      change (xorb true false) with true. rewrite negative_not_above.
      split; intros H; exfalso; exact (Bool.diff_false_true H).
    + rewrite (SFdiv_finite mx my ex ey false false).
      change (xorb false false) with false.
      cbn [valid_binary] in Hx, Hy.
      rewrite lt_finite_iff.
      destruct (Z.lt_trichotomy ex ey) as [Hlt|[Heq|Hgt]].
      * rewrite (quotient_below mx my ex ey Hx Hy false) by (left; exact Hlt).
        split; [intros H; exfalso; exact (Bool.diff_false_true H) | lia].
      * destruct (Z.lt_trichotomy (Z.pos mx) (Z.pos my)) as [Hlt|[Hmm|Hgt]].
        -- rewrite (quotient_below mx my ex ey Hx Hy false)
             by (right; split; assumption).
           split; [intros H; exfalso; exact (Bool.diff_false_true H) | lia].
        -- rewrite (quotient_equal mx my ex ey false Heq)
             by (apply Pos2Z.inj; exact Hmm).
           split; [intros H; exfalso; exact (Bool.diff_false_true H) | lia].
        -- rewrite (quotient_above mx my ex ey Hx Hy)
             by (right; split; [symmetry; exact Heq | exact Hgt]).
           split; [intros _; right; split; [symmetry|]; assumption
                  | reflexivity].
      * rewrite (quotient_above mx my ex ey Hx Hy) by (left; exact Hgt).
        split; [intros _; left; exact Hgt | reflexivity].
Qed.

End Division.

Section DivisionOnFloats.
Local Open Scope float_scope.

(** For a positive budget [b], [a / b > 1] exactly when [a > b]. *)
Lemma div_above_one (a b : float) :
  (0 <? b) = true -> ((1 <? a / b) = true <-> (b <? a) = true).
Proof.
  rewrite !ltb_spec, div_spec.
  change (Prim2SF 1) with SFone64.
  change (Prim2SF 0) with (S754_zero false).
  apply SFdiv_above_one; apply Prim2SF_valid.
Qed.

End DivisionOnFloats.

(* ================================================================== *)
(** * Facts about objects *)
(* ================================================================== *)

Section ObjectFacts.
Context {K V : Type} (eqb : K -> K -> bool).
Hypothesis eqb_eq : forall a b, eqb a b = true <-> a = b.

Lemma eqb_neq_false (a b : K) : a <> b -> eqb a b = false.
Proof.
  intros H. destruct (eqb a b) eqn:E; [|reflexivity].
  apply eqb_eq in E. contradiction.
Qed.

Lemma set_fresh (o : @object K V) (k : K) (v : V) :
  ~ In k (keys o) -> JS.set eqb o k v = o ++ [(k, v)].
Proof.
  induction o as [|[k' v'] o IH]; simpl; intros Hk; [reflexivity|].
  rewrite eqb_neq_false by (intros ->; tauto).
  rewrite IH by tauto. reflexivity.
Qed.

Lemma get_in (o : @object K V) (k : K) (v : V) :
  NoDup (keys o) -> In (k, v) o -> JS.get eqb o k = Some v.
Proof.
  induction o as [|[k' v'] o IH]; simpl; intros Hnd Hin; [contradiction|].
  inversion Hnd as [|? ? Hnotin Hnd']; subst.
  destruct Hin as [E|Hin].
  - inversion E; subst. now rewrite (proj2 (eqb_eq k k) eq_refl).
  - rewrite eqb_neq_false.
    + now apply IH.
    + intros ->. apply Hnotin. unfold keys. now apply (in_map fst _ (k', v)).
Qed.
End ObjectFacts.

Lemma InteractionType_eqb_eq (a b : InteractionType) :
  InteractionType_eqb a b = true <-> a = b.
Proof. destruct a, b; simpl; split; congruence. Qed.

Lemma ValidationStatus_eqb_eq (a b : ValidationStatus) :
  ValidationStatus_eqb a b = true <-> a = b.
Proof. destruct a, b; simpl; split; congruence. Qed.

Lemma keys_app {K V : Type} (a b : @object K V) :
  keys (a ++ b) = keys a ++ keys b.
Proof. apply map_app. Qed.

(* ================================================================== *)
(** * The shape of a validation result *)
(* ================================================================== *)

(** The interaction loop appends one validation per declared kind with a
    defined budget, its status, and its violation when it failed. *)
Lemma fold_checkInteraction rendersByType wt budgets :
  forall iv statuses violations,
    NoDup (keys iv ++ keys budgets) ->
    let recorded := interactionValidationsOf rendersByType wt budgets in
    fold_left (checkInteraction rendersByType wt) (entries budgets)
              (iv, statuses, violations)
    = (iv ++ recorded,
       statuses ++ map (fun e => mv_status (snd e)) recorded,
       violations
       ++ map violationOf (filter isFail (namedInteractionEntries recorded))).
Proof.
  unfold entries.
  induction budgets as [|[k b] budgets IH]; intros iv statuses violations Hnd.
  - simpl. now rewrite !app_nil_r.
  - cbn [fold_left]. unfold checkInteraction at 2.
    unfold interactionValidationsOf, entries. cbn [flat_map].
    fold (interactionValidationsOf rendersByType wt budgets).
    cbn [keys map fst] in Hnd.
    assert (Hfresh : ~ In k (keys iv)).
    { intros Hin. apply NoDup_remove_2 in Hnd. apply Hnd.
      apply in_or_app. now left. }
    destruct (maxRenders b) as [m|].
    + unfold record_check.
      rewrite (set_fresh InteractionType_eqb InteractionType_eqb_eq) by exact Hfresh.
      rewrite IH.
      2:{ rewrite keys_app. cbn [keys map fst]. rewrite <- app_assoc. exact Hnd. }
      cbv zeta. fold (interactionValidationsOf rendersByType wt budgets).
      set (v := validateMetric _ m wt).
      set (rest := interactionValidationsOf rendersByType wt budgets).
      unfold namedInteractionEntries, entries. cbn [app map filter].
      unfold isFail at 2. cbn [snd fst].
      change (violationOf (interactionMetricName k, v))
        with (createViolation (interactionMetricName k) (budget v) (actual v)).
      change (budget v) with m.
      change (actual v)
        with (or_zero (get InteractionType_eqb rendersByType k)).
      rewrite <- !app_assoc. cbn [app].
      destruct (ValidationStatus_eqb (mv_status v) fail); cbn [map app];
        rewrite <- ?app_assoc; reflexivity.
    + rewrite IH.
      2:{ apply NoDup_remove_1 in Hnd. exact Hnd. }
      reflexivity.
Qed.

Lemma combineStatuses_nil : combineStatuses [] = pass.
Proof. reflexivity. Qed.

Lemma status_of_statuses (statuses : list ValidationStatus) :
  (if Nat.ltb 0 (List.length statuses) then combineStatuses statuses else pass)
  = combineStatuses statuses.
Proof. destruct statuses; reflexivity. Qed.

Lemma statuses_named (o : @object InteractionType MetricValidation) :
  map (fun e => mv_status (snd e)) (namedInteractionEntries o)
  = map (fun e => mv_status (snd e)) o.
Proof.
  unfold namedInteractionEntries, entries. rewrite map_map.
  apply map_ext. now intros [k v].
Qed.

(** The result lists exactly the checks made; its violations are the
    failed ones, in order; its status combines all their statuses. *)
Lemma validateAgainstContract_structure name m c :
  NoDup (keys (interactions c)) ->
  let r := validateAgainstContract name m c in
  checkedMetrics r = performedChecks m c
  /\ violations r = map violationOf (filter isFail (performedChecks m c))
  /\ status r
     = combineStatuses (map (fun e => mv_status (snd e)) (performedChecks m c)).
Proof.
  intros Hnd r. subst r.
  unfold validateAgainstContract. rewrite status_of_statuses.
  cbn [status metrics violations].
  unfold checkInteractions, checkRenderCount, checkRenderTime, performedChecks,
    checkedMetrics, record_check.
  fold (renderMetricsOf m).
  set (vt := validateMetric (rm_averageRenderTime _) _ _).
  set (vc := validateMetric (renderCount _) _ _).
  destruct m as [rm|r].
  - destruct (strict_neq (maxRenderTime c) Infinity),
             (strict_neq (maxRenderCount c) Infinity);
      cbn [acc_statuses acc_violations acc_metrics metrics m_renderTime
           m_renderCount m_memoryDelta m_rendersPerInteraction option_entry
           app map filter snd fst];
      unfold isFail; cbn [snd];
      repeat match goal with
        | |- context [ValidationStatus_eqb ?s fail] =>
            destruct (ValidationStatus_eqb s fail)
        end;
      repeat split; reflexivity.
  - destruct (strict_neq (maxRenderTime c) Infinity),
             (strict_neq (maxRenderCount c) Infinity);
      cbn [acc_statuses acc_violations acc_metrics metrics m_renderTime
           m_renderCount m_memoryDelta m_rendersPerInteraction];
      rewrite fold_checkInteraction by exact Hnd;
      cbv zeta;
      set (recorded := interactionValidationsOf _ _ _);
      cbn [acc_statuses acc_violations acc_metrics metrics m_renderTime
           m_renderCount m_memoryDelta m_rendersPerInteraction option_entry
           app map filter snd fst].
    all: destruct recorded as [|e recorded'] eqn:Erec;
      cbn [keys map List.length Nat.ltb Nat.leb m_renderTime m_renderCount
           m_memoryDelta m_rendersPerInteraction option_entry app];
      unfold isFail; cbn [snd filter map app];
      rewrite ?app_nil_r.
    all: rewrite ?statuses_named; cbn [map snd];
      repeat match goal with
        | |- context [ValidationStatus_eqb (mv_status ?v) fail] =>
            is_var v; destruct (ValidationStatus_eqb (mv_status v) fail)
        end;
      cbn [map app]; repeat split; reflexivity.
Qed.

Section Validation.
Local Open Scope float_scope.

Lemma in_unique_name {A : Type} (L : list (string * A)) (e e' : string * A) :
  NoDup (map fst L) -> In e L -> In e' L -> fst e = fst e' -> e = e'.
Proof.
  induction L as [|x L IH]; cbn [map In]; intros Hnd He He' Hfst;
    [contradiction|].
  inversion Hnd as [|? ? Hnotin Hnd']; subst.
  destruct He as [<-|He], He' as [<-|He'].
  - reflexivity.
  - exfalso. apply Hnotin. rewrite Hfst. now apply in_map.
  - exfalso. apply Hnotin. rewrite <- Hfst. now apply in_map.
  - now apply IH.
Qed.

Lemma interactionMetricName_inj (a b : InteractionType) :
  interactionMetricName a = interactionMetricName b -> a = b.
Proof. destruct a, b; intros H; try reflexivity; discriminate H. Qed.

Lemma interactionMetricName_not_component (k : InteractionType) :
  interactionMetricName k <> "renderTime"
  /\ interactionMetricName k <> "renderCount".
Proof. destruct k; split; discriminate. Qed.

Lemma keys_interactionValidationsOf rbt wt budgets k :
  In k (keys (interactionValidationsOf rbt wt budgets)) -> In k (keys budgets).
Proof.
  unfold interactionValidationsOf, entries, keys.
  induction budgets as [|[k' b] budgets IH]; cbn [flat_map map]; [tauto|].
  rewrite map_app. intros Hin. apply in_app_or in Hin as [Hin|Hin].
  - destruct (maxRenders b); cbn in Hin; [|contradiction].
    destruct Hin as [<-|[]]. now left.
  - right. now apply IH.
Qed.

Lemma NoDup_interactionValidationsOf rbt wt budgets :
  NoDup (keys budgets) -> NoDup (keys (interactionValidationsOf rbt wt budgets)).
Proof.
  induction budgets as [|[k b] budgets IH]; intros Hnd.
  - constructor.
  - inversion Hnd as [|? ? Hnotin Hnd']; subst.
    unfold interactionValidationsOf, entries. cbn [flat_map].
    fold (interactionValidationsOf rbt wt budgets).
    destruct (maxRenders b); cbn [app keys map fst].
    + constructor; [|now apply IH].
      intros Hin. apply Hnotin. now apply keys_interactionValidationsOf in Hin.
    + now apply IH.
Qed.

Lemma names_namedInteractionEntries {A : Type} (o : @object InteractionType A) :
  map fst (namedInteractionEntries o) = map interactionMetricName (keys o).
Proof.
  unfold namedInteractionEntries, entries, keys. rewrite !map_map.
  apply map_ext. now intros [k v].
Qed.

Lemma NoDup_map_injective {A B : Type} (f : A -> B) (l : list A) :
  (forall a b, f a = f b -> a = b) -> NoDup l -> NoDup (map f l).
Proof.
  intros Hinj. induction 1 as [|x l Hnotin Hnd IH]; cbn [map]; constructor.
  - intros Hin. apply in_map_iff in Hin as (y & Hy & Hin).
    apply Hinj in Hy. subst. contradiction.
  - exact IH.
Qed.

(** Distinct checks bear distinct names. *)
Lemma performedChecks_names m c :
  NoDup (keys (interactions c)) -> NoDup (map fst (performedChecks m c)).
Proof.
  intros Hnd. unfold performedChecks.
  set (named :=
         match m with
         | PlainMetrics _ => []
         | InteractionMeasurement r =>
             namedInteractionEntries
               (interactionValidationsOf (rendersByType r)
                  (warningThreshold c) (interactions c))
         end).
  assert (Hnamed : NoDup (map fst named)
                   /\ ~ In "renderTime" (map fst named)
                   /\ ~ In "renderCount" (map fst named)).
  { subst named. destruct m as [rm|r].
    - cbn. repeat split; try constructor; tauto.
    - rewrite names_namedInteractionEntries. repeat split.
      + apply NoDup_map_injective; [exact interactionMetricName_inj|].
        now apply NoDup_interactionValidationsOf.
      + intros Hin. apply in_map_iff in Hin as (k & Hk & _).
        now apply (interactionMetricName_not_component k).
      + intros Hin. apply in_map_iff in Hin as (k & Hk & _).
        now apply (interactionMetricName_not_component k). }
  destruct Hnamed as (Hn & Ht & Hc).
  destruct (strict_neq (maxRenderTime c) Infinity),
           (strict_neq (maxRenderCount c) Infinity);
    cbn [app map fst]; repeat constructor; cbn [In]; try assumption;
    intros [E|Hin]; try discriminate E; contradiction.
Qed.

(** Every check is [validateMetric] of its own actual value and budget,
    under the contract's warning threshold. *)
Lemma performedChecks_validateMetric m c e :
  In e (performedChecks m c) ->
  snd e = validateMetric (actual (snd e)) (budget (snd e)) (warningThreshold c).
Proof.
  unfold performedChecks. intros Hin.
  apply in_app_or in Hin as [Hin|Hin]; [|apply in_app_or in Hin as [Hin|Hin]].
  - destruct (strict_neq _ _); [|contradiction].
    destruct Hin as [<-|[]]. reflexivity.
  - destruct (strict_neq _ _); [|contradiction].
    destruct Hin as [<-|[]]. reflexivity.
  - destruct m as [rm|r]; [contradiction|].
    unfold namedInteractionEntries, interactionValidationsOf, entries in Hin.
    apply in_map_iff in Hin as ([k v] & <- & Hin).
    apply in_flat_map in Hin as ([k' b] & _ & Hin).
    destruct (maxRenders b); [|contradiction].
    destruct Hin as [E|[]]. inversion E; subst. reflexivity.
Qed.
End Validation.

(* ================================================================== *)
(** * Violation severity *)
(* ================================================================== *)

Section Severity.
Local Open Scope float_scope.

(** Anything at or above one half is not below one quarter. *)
Lemma ge_half_not_lt_quarter (x : float) :
  (0.5 <=? x) = true -> (x <? 0.25) = false.
Proof.
  rewrite leb_spec, ltb_spec.
  change (Prim2SF 0.5) with (S754_finite false 4503599627370496 (-53)).
  change (Prim2SF 0.25) with (S754_finite false 4503599627370496 (-54)).
  destruct (Prim2SF x) as [s|s| |[] m e];
    cbv beta iota delta [SFleb SFltb SFcompare]; try congruence.
  - destruct s; congruence.
  - destruct (Z.compare_spec (-53) e), (Z.compare_spec e (-54));
      try lia; congruence.
Qed.

(** C4. The severity of a violation is [getViolationSeverity] of its
    [exceededByPercent] and of nothing else, with half-open intervals:
    [[0, 0.25)] is minor, [[0.25, 0.5)] is moderate and everything from
    [0.5] upwards is severe; exactly [0.25] is moderate and exactly [0.5]
    is severe. *)
Theorem getViolationSeverity_intervals :
  (forall name budget actual,
      severity (createViolation name budget actual)
      = getViolationSeverity
          (exceededByPercent (createViolation name budget actual)))
  /\ (forall x, JS.le 0 x = true -> JS.lt x 0.25 = true ->
                getViolationSeverity x = minor)
  /\ (forall x, JS.le 0.25 x = true -> JS.lt x 0.5 = true ->
                getViolationSeverity x = moderate)
  /\ (forall x, JS.le 0.5 x = true -> getViolationSeverity x = severe)
  /\ getViolationSeverity 0.25 = moderate
  /\ getViolationSeverity 0.5 = severe.
Proof.
  unfold getViolationSeverity, JS.le, JS.lt.
  repeat split; try reflexivity.
  - intros x _ H. now rewrite H.
  - intros x H1 H2. now rewrite (leb_not_gtb _ _ H1), H2.
  - intros x H.
    now rewrite (ge_half_not_lt_quarter _ H), (leb_not_gtb _ _ H).
Qed.

Lemma getViolationSeverity_intervals_witness :
  getViolationSeverity 0.125 = minor
  /\ getViolationSeverity 0.375 = moderate
  /\ getViolationSeverity 8 = severe.
Proof.
  destruct getViolationSeverity_intervals as (_ & Hminor & Hmod & Hsev & _).
  split; [| split].
  - apply Hminor; reflexivity.
  - apply Hmod; reflexivity.
  - apply Hsev; reflexivity.
Defined.

End Severity.

(* ================================================================== *)
(** * Properties of the contract validator *)
(* ================================================================== *)

Section ValidatorClaims.
Local Open Scope float_scope.

Lemma metric_violationOf (e : string * MetricValidation) :
  metric (violationOf e) = fst e.
Proof. reflexivity. Qed.

(** C3. In every result of [validateAgainstContract] the violations are
    exactly the checked metrics whose status is [fail], one violation each
    and in the same order; checked metrics bear distinct names, so a metric
    with status [warn] or [pass] never appears among the violations. *)
Theorem violations_exactly_failed name m c :
  NoDup (keys (interactions c)) ->
  let r := validateAgainstContract name m c in
  violations r = map violationOf (filter isFail (checkedMetrics r))
  /\ NoDup (map fst (checkedMetrics r))
  /\ (forall e, In e (checkedMetrics r) ->
        (In (fst e) (map metric (violations r)) <-> mv_status (snd e) = fail)).
Proof.
  intros Hnd r.
  destruct (validateAgainstContract_structure name m c Hnd) as (Hc & Hv & _).
  fold r in Hc, Hv.
  pose proof (performedChecks_names m c Hnd) as Hnames.
  rewrite <- Hc in Hv, Hnames.
  split; [exact Hv|]. split; [exact Hnames|].
  intros e He. rewrite Hv, map_map.
  rewrite (map_ext _ fst metric_violationOf).
  split.
  - intros Hin. apply in_map_iff in Hin as (e' & Hfst & Hin).
    apply filter_In in Hin as (Hin & Hfail).
    rewrite (in_unique_name _ e e' Hnames He Hin (eq_sym Hfst)).
    now apply ValidationStatus_eqb_eq.
  - intros Hfail. apply in_map. apply filter_In. split; [exact He|].
    now apply ValidationStatus_eqb_eq.
Qed.

Lemma NoDup_clickType : NoDup (keys (interactions clickTypeContract)).
Proof. repeat constructor; cbn; intuition discriminate. Defined.

Lemma violations_exactly_failed_witness :
  NoDup (keys (interactions clickTypeContract))
  /\ violations
    (validateAgainstContract "Button" (InteractionMeasurement sampleMeasurement)
       clickTypeContract)
  = map violationOf
      (filter isFail
         (checkedMetrics
            (validateAgainstContract "Button"
               (InteractionMeasurement sampleMeasurement) clickTypeContract))).
Proof.
  split; [exact NoDup_clickType|].
  exact (proj1 (violations_exactly_failed "Button"
                  (InteractionMeasurement sampleMeasurement)
                  clickTypeContract NoDup_clickType)).
Defined.

Lemma comparisons_named rbt wt budgets :
  map comparison_of
      (namedInteractionEntries (interactionValidationsOf rbt wt budgets))
  = interactionComparisons rbt budgets.
Proof.
  unfold namedInteractionEntries, interactionValidationsOf,
    interactionComparisons, entries.
  induction budgets as [|[k b] budgets IH]; cbn [flat_map map]; [reflexivity|].
  rewrite !map_app, IH. now destruct (maxRenders b).
Qed.

(** C9 (amended). [validateAgainstContract] checks exactly: the average
    render time against [maxRenderTime] and the render count against
    [maxRenderCount], each unless its budget is [Infinity]; and, only when
    the measurement is an interaction measurement, for each declared
    interaction kind with a defined [maxRenders], [rendersByType[kind] || 0]
    against that [maxRenders]. *)
Theorem checked_metrics_are name m c :
  NoDup (keys (interactions c)) ->
  map comparison_of (checkedMetrics (validateAgainstContract name m c))
  = componentComparisons m c
    ++ match m with
       | InteractionMeasurement r =>
           interactionComparisons (rendersByType r) (interactions c)
       | PlainMetrics _ => []
       end.
Proof.
  intros Hnd.
  destruct (validateAgainstContract_structure name m c Hnd) as (-> & _).
  unfold performedChecks, componentComparisons.
  rewrite !map_app.
  destruct m as [rm|r]; [|rewrite comparisons_named];
    destruct (strict_neq (maxRenderTime c) Infinity),
             (strict_neq (maxRenderCount c) Infinity); reflexivity.
Qed.

Lemma checked_metrics_are_witness :
  NoDup (keys (interactions clickTypeContract))
  /\ map comparison_of
       (checkedMetrics
          (validateAgainstContract "Button"
             (InteractionMeasurement sampleMeasurement) clickTypeContract))
     = [("rendersPerInteraction.click", 4, 2);
        ("rendersPerInteraction.type", 1, 3)].
Proof.
  split; [exact NoDup_clickType|].
  exact (checked_metrics_are "Button"
           (InteractionMeasurement sampleMeasurement) clickTypeContract
           NoDup_clickType).
Defined.

(** C9 as stated fails: for plain render metrics the declared [click]
    budget is not checked, where the claim has [0] compared against it. *)
Lemma plain_metrics_skip_interactions :
  let m := PlainMetrics (sampleMetrics 3 14) in
  let c := sampleContract 16 5 0.8 [(click, rendersBudget 2)] in
  map comparison_of (checkedMetrics (validateAgainstContract "Button" m c))
  = [("renderTime", 14, 16); ("renderCount", 3, 5)]
  /\ claimedComparisons m c
     = [("renderTime", 14, 16); ("renderCount", 3, 5);
        ("rendersPerInteraction.click", 0, 2)]
  /\ map comparison_of (checkedMetrics (validateAgainstContract "Button" m c))
     <> claimedComparisons m c.
Proof.
  cbv zeta. split; [reflexivity|]. split; [reflexivity|].
  intros H. apply (f_equal (@List.length _)) in H. discriminate H.
Qed.

(** C2. A budget of [Infinity] for [maxRenderTime] or [maxRenderCount]
    leaves no entry for that metric and the whole result, its status
    included, is the same whatever value was measured; no [memoryDelta]
    entry is ever produced and [maxMemoryDelta] never changes the result. *)
Theorem infinite_budget_is_skipped name m c :
  let r := validateAgainstContract name m c in
  (maxRenderTime c = Infinity ->
     m_renderTime (metrics r) = None
     /\ forall v,
         validateAgainstContract name
           (mapRenderMetrics (withAverageRenderTime v) m) c = r)
  /\ (maxRenderCount c = Infinity ->
       m_renderCount (metrics r) = None
       /\ forall v,
           validateAgainstContract name
             (mapRenderMetrics (withRenderCount v) m) c = r)
  /\ (m_memoryDelta (metrics r) = None
      /\ forall v, validateAgainstContract name m (withMaxMemoryDelta v c) = r).
Proof.
  cbv zeta. unfold validateAgainstContract, checkRenderTime, checkRenderCount,
    checkInteractions.
  assert (Hskip : strict_neq Infinity Infinity = false) by reflexivity.
  split; [|split].
  - intros H. rewrite H, Hskip. split; [|intros v; destruct m; reflexivity].
    destruct m, (strict_neq (maxRenderCount c) Infinity); cbn;
      try reflexivity;
      destruct (fold_left _ _ _) as [[iv st] vi]; cbn;
      destruct iv; reflexivity.
  - intros H. rewrite H, Hskip. split; [|intros v; destruct m; reflexivity].
    destruct m, (strict_neq (maxRenderTime c) Infinity); cbn;
      try reflexivity;
      destruct (fold_left _ _ _) as [[iv st] vi]; cbn;
      destruct iv; reflexivity.
  - split; [|intros v; destruct m; reflexivity].
    destruct m, (strict_neq (maxRenderTime c) Infinity),
             (strict_neq (maxRenderCount c) Infinity); cbn;
      try reflexivity;
      destruct (fold_left _ _ _) as [[iv st] vi]; cbn;
      destruct iv; reflexivity.
Qed.

Lemma infinite_budget_is_skipped_witness :
  maxRenderTime clickTypeContract = Infinity
  /\ m_renderTime
       (metrics
          (validateAgainstContract "Button"
             (InteractionMeasurement sampleMeasurement) clickTypeContract))
     = None
  /\ validateAgainstContract "Button"
       (mapRenderMetrics (withAverageRenderTime 1000)
          (InteractionMeasurement sampleMeasurement)) clickTypeContract
     = validateAgainstContract "Button"
         (InteractionMeasurement sampleMeasurement) clickTypeContract.
Proof.
  split; [reflexivity|].
  destruct (infinite_budget_is_skipped "Button"
              (InteractionMeasurement sampleMeasurement) clickTypeContract)
    as (Htime & _).
  destruct (Htime eq_refl) as (Hnone & Hsame).
  split; [exact Hnone | exact (Hsame 1000)].
Defined.

Lemma includes_In (statuses : list ValidationStatus) (s : ValidationStatus) :
  includes statuses s = true <-> In s statuses.
Proof.
  unfold includes. rewrite existsb_exists. split.
  - intros (x & Hin & E). apply ValidationStatus_eqb_eq in E. now subst.
  - intros Hin. exists s. split; [exact Hin|].
    now apply ValidationStatus_eqb_eq.
Qed.

Lemma includes_false (statuses : list ValidationStatus) (s : ValidationStatus) :
  ~ In s statuses -> includes statuses s = false.
Proof.
  intros H. destruct (includes statuses s) eqn:E; [|reflexivity].
  apply includes_In in E. contradiction.
Qed.

Lemma count_partition (results : list ValidationResult) :
  (List.length (filter (fun r => ValidationStatus_eqb (status r) pass) results)
   + List.length (filter (fun r => ValidationStatus_eqb (status r) warn) results)
   + List.length (filter (fun r => ValidationStatus_eqb (status r) fail) results)
   = List.length results)%nat.
Proof.
  induction results as [|r results IH]; [reflexivity|].
  cbn [filter]. destruct (status r); cbn [ValidationStatus_eqb List.length]; lia.
Qed.

(** C10. [getOverallStatus] of no results is [pass]; otherwise it is
    [fail] if some result failed, else [warn] if some result warned, else
    [pass]; and the three counts of [countByStatus] add up to the number of
    results. *)
Theorem overall_status_and_counts :
  getOverallStatus [] = pass
  /\ (forall results,
        (exists r, In r results /\ status r = fail) ->
        getOverallStatus results = fail)
  /\ (forall results,
        (forall r, In r results -> status r <> fail) ->
        (exists r, In r results /\ status r = warn) ->
        getOverallStatus results = warn)
  /\ (forall results,
        (forall r, In r results -> status r <> fail) ->
        (forall r, In r results -> status r <> warn) ->
        getOverallStatus results = pass)
  /\ (forall results,
        (count_pass (countByStatus results)
         + count_warn (countByStatus results)
         + count_fail (countByStatus results)
         = List.length results)%nat).
Proof.
  unfold getOverallStatus, combineStatuses.
  split; [reflexivity|]. split; [|split; [|split]].
  - intros results (r & Hin & Hfail).
    rewrite (proj2 (includes_In _ fail)); [reflexivity|].
    rewrite <- Hfail. now apply in_map.
  - intros results Hnofail (r & Hin & Hwarn).
    rewrite includes_false.
    + rewrite (proj2 (includes_In _ warn)); [reflexivity|].
      rewrite <- Hwarn. now apply in_map.
    + intros H. apply in_map_iff in H as (x & Hx & Hinx).
      now apply (Hnofail x).
  - intros results Hnofail Hnowarn.
    rewrite !includes_false; [reflexivity| |].
    + intros H. apply in_map_iff in H as (x & Hx & Hinx).
      now apply (Hnowarn x).
    + intros H. apply in_map_iff in H as (x & Hx & Hinx).
      now apply (Hnofail x).
  - intros results. apply count_partition.
Qed.

(** C5 at a zero budget: [validateAgainstContract] records the quotient
    [5 / 0 = Infinity] as the utilization (and fails the component);
    [0 / 0] gives [NaN]; only the helper [getBudgetUtilization] returns [0]
    there. *)
Theorem zero_budget_utilization :
  let r := validateAgainstContract "Button" (PlainMetrics (sampleMetrics 3 5))
             (sampleContract 0 5 0.8 []) in
  option_map utilization (m_renderTime (metrics r)) = Some infinity
  /\ status r = fail
  /\ utilization (validateMetric 0 0 0.8) = nan
  /\ getBudgetUtilization 5 0 = 0.
Proof. cbv zeta. repeat split; reflexivity. Qed.

Lemma overall_status_and_counts_witness :
  let warned :=
    validateAgainstContract "Button" (PlainMetrics (sampleMetrics 3 14))
      (sampleContract 16 5 0.8 []) in
  let failed :=
    validateAgainstContract "Button" (PlainMetrics (sampleMetrics 8 10))
      (sampleContract 16 5 0.8 []) in
  getOverallStatus [warned; failed] = fail
  /\ getOverallStatus [warned] = warn.
Proof.
  cbv zeta.
  destruct overall_status_and_counts as (_ & Hfail & Hwarn & _).
  split.
  - apply Hfail. eexists. split; [right; left; reflexivity | reflexivity].
  - apply Hwarn.
    + intros r [<-|[]]. discriminate.
    + eexists. split; [left; reflexivity | reflexivity].
Defined.

End ValidatorClaims.

(* ================================================================== *)
(** * The enumeration order of an object's properties *)
(* ================================================================== *)

Section EnumerationOrder.
Context {V : Type}.

Lemma insertByIndex_Permutation (i : N) (e : string * V)
  (sorted : list (N * (string * V))) :
  Permutation (insertByIndex i e sorted) ((i, e) :: sorted).
Proof.
  induction sorted as [|[j e'] sorted IH]; cbn [insertByIndex].
  - apply Permutation_refl.
  - destruct (i <=? j)%N; [apply Permutation_refl|].
    apply perm_trans with ((j, e') :: (i, e) :: sorted).
    + now apply perm_skip.
    + apply perm_swap.
Qed.

Lemma Object_entries_cons (e : string * V) (o : @object string V) :
  Permutation (Object_entries (e :: o)) (e :: Object_entries o).
Proof.
  unfold Object_entries, indexProperties, namedProperties, isArrayIndex.
  cbn [fold_right filter].
  destruct (arrayIndex (fst e)) as [i|]; cbn [negb].
  - apply (Permutation_app_tail _
             (Permutation_map snd (insertByIndex_Permutation i e _))).
  - apply Permutation_sym, Permutation_middle.
Qed.

(** [Object.entries] lists every property once. *)
Lemma Object_entries_Permutation (o : @object string V) :
  Permutation (Object_entries o) o.
Proof.
  induction o as [|e o IH]; [apply Permutation_refl|].
  apply perm_trans with (e :: Object_entries o).
  - apply Object_entries_cons.
  - now apply perm_skip.
Qed.

Lemma Object_entries_In (o : @object string V) (e : string * V) :
  In e (Object_entries o) <-> In e o.
Proof.
  split; apply Permutation_in;
    [|apply Permutation_sym]; apply Object_entries_Permutation.
Qed.

Lemma Object_entries_keys (o : @object string V) :
  Permutation (keys (Object_entries o)) (keys o).
Proof. apply Permutation_map, Object_entries_Permutation. Qed.

Lemma Object_entries_NoDup (o : @object string V) :
  NoDup (keys o) -> NoDup (keys (Object_entries o)).
Proof.
  apply Permutation_NoDup, Permutation_sym, Object_entries_keys.
Qed.

(** Without array indices among the keys the order is creation order. *)
Lemma Object_entries_named (o : @object string V) :
  (forall key, In key (keys o) -> isArrayIndex key = false) ->
  Object_entries o = o.
Proof.
  unfold Object_entries, indexProperties, namedProperties, keys.
  induction o as [|e o IH]; intros Hnamed; [reflexivity|].
  cbn [fold_right filter].
  pose proof (Hnamed (fst e) (or_introl eq_refl)) as He.
  rewrite He. unfold isArrayIndex in He.
  destruct (arrayIndex (fst e)); [discriminate|]. cbn [negb].
  assert (Htail : forall key, In key (map fst o) -> isArrayIndex key = false)
    by (intros key Hkey; apply Hnamed; now right).
  specialize (IH Htail).
  assert (Hnone : fold_right
            (fun (e : string * V) (sorted : list (N * (string * V))) =>
               match arrayIndex (fst e) with
               | Some i => insertByIndex i e sorted
               | None => sorted
               end) [] o = []).
  { clear IH Hnamed He. induction o as [|e' o IHo]; [reflexivity|].
    cbn [fold_right].
    pose proof (Htail (fst e') (or_introl eq_refl)) as He'.
    unfold isArrayIndex in He'.
    destruct (arrayIndex (fst e')); [discriminate|].
    apply IHo. intros key Hkey. apply Htail. now right. }
  rewrite Hnone in *. cbn [map app] in *. now rewrite IH.
Qed.

Lemma insertByIndex_indexed (i : N) (e : string * V)
  (sorted : list (N * (string * V))) :
  arrayIndex (fst e) = Some i ->
  Forall (fun p => arrayIndex (fst (snd p)) = Some (fst p)) sorted ->
  Forall (fun p => arrayIndex (fst (snd p)) = Some (fst p))
         (insertByIndex i e sorted).
Proof.
  intros He Hall. apply Forall_forall. intros p Hp.
  apply (Permutation_in _ (insertByIndex_Permutation i e sorted)) in Hp.
  destruct Hp as [<-|Hp]; [exact He|].
  now apply (proj1 (Forall_forall _ _) Hall).
Qed.

Lemma insertByIndex_sorted (i : N) (e : string * V)
  (sorted : list (N * (string * V))) :
  StronglySorted (fun p q => (fst p <= fst q)%N) sorted ->
  StronglySorted (fun p q => (fst p <= fst q)%N) (insertByIndex i e sorted).
Proof.
  induction sorted as [|[j e'] sorted IH]; intros Hs; cbn [insertByIndex].
  - constructor; constructor.
  - apply StronglySorted_inv in Hs as [Hs Hj].
    destruct (N.leb_spec i j) as [Hle|Hgt].
    + constructor; [now constructor|].
      constructor; [exact Hle|].
      apply Forall_forall. intros q Hq.
      pose proof (proj1 (Forall_forall _ _) Hj q Hq) as Hjq.
      cbn [fst] in *. lia.
    + constructor; [now apply IH|].
      apply Forall_forall. intros q Hq.
      apply (Permutation_in _ (insertByIndex_Permutation i e sorted)) in Hq.
      destruct Hq as [<-|Hq]; [cbn [fst]; lia|].
      exact (proj1 (Forall_forall _ _) Hj q Hq).
Qed.

(** The array indices come first, in ascending order; the other keys
    follow in creation order. *)
Lemma Object_entries_order (o : @object string V) :
  Object_entries o = map snd (indexProperties o) ++ namedProperties o
  /\ StronglySorted (fun p q => (fst p <= fst q)%N) (indexProperties o)
  /\ Forall (fun p => arrayIndex (fst (snd p)) = Some (fst p))
            (indexProperties o)
  /\ namedProperties o = filter (fun e => negb (isArrayIndex (fst e))) o.
Proof.
  split; [reflexivity|]. split; [|split; [|reflexivity]].
  - unfold indexProperties.
    induction o as [|e o IH]; cbn [fold_right]; [constructor|].
    destruct (arrayIndex (fst e)); [now apply insertByIndex_sorted|exact IH].
  - unfold indexProperties.
    induction o as [|e o IH]; cbn [fold_right]; [constructor|].
    destruct (arrayIndex (fst e)) eqn:E; [|exact IH].
    now apply insertByIndex_indexed.
Qed.
End EnumerationOrder.

(* ================================================================== *)
(** * Properties of the contract resolver *)
(* ================================================================== *)

Section LoaderClaims.
Local Open Scope float_scope.

Lemma push_if_app {A : Type} (cond : bool) (x : A) (errors : list A) :
  push_if cond x errors = errors ++ (if cond then [x] else []).
Proof. unfold push_if. destruct cond; [reflexivity | now rewrite app_nil_r]. Qed.

Lemma fold_left_appending {A B : Type} (step : list B -> A -> list B)
  (g : A -> list B) (xs : list A) :
  (forall acc x, step acc x = acc ++ g x) ->
  forall acc, fold_left step xs acc = acc ++ flat_map g xs.
Proof.
  intros Hstep. induction xs as [|x xs IH]; intros acc; cbn [fold_left flat_map].
  - now rewrite app_nil_r.
  - now rewrite IH, Hstep, app_assoc.
Qed.

Lemma brokenMessages_app (a b : list RuleInstance) :
  brokenMessages (a ++ b) = brokenMessages a ++ brokenMessages b.
Proof. unfold brokenMessages. now rewrite filter_app, map_app. Qed.

Lemma brokenMessages_flat_map {A : Type} (g : A -> list RuleInstance)
  (xs : list A) :
  brokenMessages (flat_map g xs) = flat_map (fun x => brokenMessages (g x)) xs.
Proof.
  induction xs as [|x xs IH]; cbn [flat_map]; [reflexivity|].
  now rewrite brokenMessages_app, IH.
Qed.

Lemma brokenMessages_one (r : RuleInstance) :
  brokenMessages [r] = if rule_broken r then [rule_message r] else [].
Proof. unfold brokenMessages. cbn. now destruct (rule_broken r). Qed.

Lemma validateGlobal_checks g errors :
  validateGlobal g errors = errors ++ brokenMessages (globalChecks g).
Proof.
  unfold validateGlobal, globalChecks. rewrite !push_if_app.
  change [?a; ?b; ?c] with ([a] ++ [b] ++ [c]).
  rewrite !brokenMessages_app, !brokenMessages_one. cbn [rule_broken rule_message].
  now rewrite <- !app_assoc.
Qed.

Lemma validateInteractionBudgets_checks name budgets errors :
  validateInteractionBudgets name budgets errors
  = errors ++ brokenMessages (map (interactionCheck name) budgets).
Proof.
  unfold validateInteractionBudgets, entries.
  rewrite (fold_left_appending _
             (fun e => brokenMessages [interactionCheck name e])).
  - f_equal. induction budgets as [|e budgets IH]; [reflexivity|].
    cbn [flat_map map].
    change (interactionCheck name e :: map (interactionCheck name) budgets)
      with ([interactionCheck name e] ++ map (interactionCheck name) budgets).
    now rewrite brokenMessages_app, IH.
  - intros acc [k b]. rewrite push_if_app, brokenMessages_one. reflexivity.
Qed.

Lemma validateComponent_checks name contract errors :
  validateComponent name contract errors
  = errors ++ brokenMessages (componentChecks (name, contract)).
Proof.
  unfold validateComponent, componentChecks. rewrite !push_if_app.
  change [?a; ?b; ?c] with ([a] ++ [b] ++ [c]).
  rewrite !brokenMessages_app, !brokenMessages_one.
  cbn [rule_broken rule_message].
  destruct (cc_interactions contract) as [budgets|]; cbn [nullish].
  - rewrite validateInteractionBudgets_checks. now rewrite <- !app_assoc.
  - cbn [map]. unfold brokenMessages at 1. cbn [filter map].
    now rewrite <- !app_assoc, app_nil_r.
Qed.

Lemma validateAggregate_checks name aggregate errors :
  validateAggregate name aggregate errors
  = errors ++ brokenMessages (aggregateChecks (name, aggregate)).
Proof.
  unfold validateAggregate, aggregateChecks.
  now rewrite push_if_app, brokenMessages_one.
Qed.

(** The list returned is the message of every condition that holds, in
    the order the conditions are tested. *)
Lemma validateConfig_checks config :
  validateConfig config = brokenMessages (configChecks config).
Proof.
  unfold validateConfig, configChecks, entries.
  rewrite !brokenMessages_app, !brokenMessages_flat_map.
  assert (Hg : match cfg_global config with
               | Some g => validateGlobal g []
               | None => []
               end
               = brokenMessages match cfg_global config with
                                | Some g => globalChecks g
                                | None => []
                                end).
  { destruct (cfg_global config); [|reflexivity].
    now rewrite validateGlobal_checks. }
  rewrite Hg. clear Hg.
  set (start := brokenMessages _).
  destruct (cfg_components config) as [cs|], (cfg_aggregates config) as [ags|];
    cbn [nullish flat_map];
    rewrite ?app_nil_r;
    repeat rewrite (fold_left_appending _
                      (fun x => brokenMessages (componentChecks x)))
      by (intros acc [n c]; apply validateComponent_checks);
    repeat rewrite (fold_left_appending _
                      (fun x => brokenMessages (aggregateChecks x)))
      by (intros acc [n a]; apply validateAggregate_checks);
    rewrite <- ?app_assoc; reflexivity.
Qed.

Lemma fold_set_fresh {A B : Type} (f : A -> B) (xs : @object string A) :
  forall acc : @object string B,
    NoDup (keys acc ++ keys xs) ->
    fold_left (fun acc '(name, x) => JS.set String.eqb acc name (f x)) xs acc
    = acc ++ map (fun '(name, x) => (name, f x)) xs.
Proof.
  induction xs as [|[name x] xs IH]; intros acc Hnd; cbn [fold_left map].
  - now rewrite app_nil_r.
  - cbn [keys map fst] in Hnd.
    rewrite (set_fresh String.eqb String.eqb_eq).
    2:{ intros Hin. apply NoDup_remove_2 in Hnd. apply Hnd.
        apply in_or_app. now left. }
    rewrite IH.
    + now rewrite <- app_assoc.
    + rewrite keys_app. cbn [keys map fst]. now rewrite <- app_assoc.
Qed.

Lemma getComponentContract_resolved config cs name contract :
  cfg_components config = Some cs ->
  NoDup (keys cs) ->
  In (name, contract) cs ->
  getComponentContract (resolveConfig config) name
  = Some (resolveComponentContract contract).
Proof.
  intros Hcs Hnd Hin.
  unfold getComponentContract, resolveConfig. cbn [rc_components].
  rewrite Hcs.
  pose proof (Object_entries_NoDup cs Hnd) as Hnd'.
  rewrite (fold_set_fresh resolveComponentContract (Object_entries cs) [])
    by exact Hnd'.
  cbn [app]. apply (get_in String.eqb String.eqb_eq).
  - unfold keys. rewrite map_map.
    erewrite map_ext; [exact Hnd'|]. now intros [n c].
  - apply in_map_iff. exists (name, contract).
    split; [reflexivity|]. now apply Object_entries_In.
Qed.

(** C7. [resolveConfig] fills every omitted component field with its
    default ([Infinity] for the three budgets, [0.8] for the warning
    threshold, empty [interactions] and [meta]) and every omitted global
    field with its default ([runs = 10], [warmupRuns = 1],
    [historyWindow = 20], [regressionThreshold = 0.15],
    [outputDir = '.perf-contracts'], diagnostics enabled); resolving the
    same input again gives an equal output. *)
Theorem resolveConfig_defaults (config : ContractConfig) :
  (forall cs name contract,
      cfg_components config = Some cs ->
      NoDup (keys cs) ->
      In (name, contract) cs ->
      exists r,
        getComponentContract (resolveConfig config) name = Some r
        /\ (cc_maxRenderTime contract = None -> maxRenderTime r = Infinity)
        /\ (cc_maxRenderCount contract = None -> maxRenderCount r = Infinity)
        /\ (cc_maxMemoryDelta contract = None -> maxMemoryDelta r = Infinity)
        /\ (cc_warningThreshold contract = None -> warningThreshold r = 0.8)
        /\ (cc_interactions contract = None -> interactions r = [])
        /\ (cc_meta contract = None -> meta r = []))
  /\ (let g := rc_global (resolveConfig config) in
      let omitted {A : Type} (field : GlobalConfig -> option A) :=
        opt_chain (cfg_global config) field = None in
      (omitted gc_runs -> runs g = 10)
      /\ (omitted gc_warmupRuns -> warmupRuns g = 1)
      /\ (omitted gc_historyWindow -> historyWindow g = 20)
      /\ (omitted gc_regressionThreshold -> regressionThreshold g = 0.15)
      /\ (omitted gc_outputDir -> outputDir g = ".perf-contracts")
      /\ (omitted gc_diagnostics -> rdg_enabled (diagnostics g) = true))
  /\ (forall config', config' = config ->
        resolveConfig config' = resolveConfig config).
Proof.
  split; [|split].
  - intros cs name contract Hcs Hnd Hin.
    exists (resolveComponentContract contract).
    split; [now apply (getComponentContract_resolved config cs)|].
    unfold resolveComponentContract; cbn.
    repeat split; intros ->; reflexivity.
  - cbv zeta. unfold resolveConfig, resolveGlobalConfig; cbn.
    repeat split; intros ->; reflexivity.
  - now intros config' ->.
Qed.

Lemma resolveConfig_defaults_witness :
  exists r,
    getComponentContract (resolveConfig sparseConfig) "Button" = Some r
    /\ maxRenderTime r = Infinity
    /\ maxRenderCount r = 5
    /\ warningThreshold r = 0.8
    /\ runs (rc_global (resolveConfig sparseConfig)) = 10.
Proof.
  destruct (resolveConfig_defaults sparseConfig) as (Hcomponents & Hglobal & _).
  destruct (Hcomponents _ "Button" _ eq_refl
              ltac:(repeat constructor; cbn; tauto)
              (or_introl eq_refl))
    as (r & Hget & Htime & _ & _ & Hthreshold & _).
  exists r. split; [exact Hget|].
  split; [exact (Htime eq_refl)|].
  split.
  - cbv in Hget. now inversion Hget.
  - split; [exact (Hthreshold eq_refl)|].
    cbv zeta in Hglobal. exact (proj1 Hglobal eq_refl).
Defined.
End LoaderClaims.

(* ================================================================== *)
(** * Properties of run aggregation *)
(* ================================================================== *)

Section AggregationClaims.
Local Open Scope float_scope.

Lemma Math_round_integral (x : number) :
  Number_isInteger x = true -> Math_round x = x.
Proof. unfold Math_round. intros ->. now rewrite orb_true_r. Qed.

Lemma fold_sum_repeat {A : Type} (f : A -> number) (x : A) (R : nat) :
  forall acc,
    fold_left (fun sum r => sum + f r) (repeat x R) acc
    = fold_left (fun sum v => sum + v) (repeat (f x) R) acc.
Proof.
  induction R as [|R IH]; intros acc; cbn [repeat fold_left];
    [reflexivity | apply IH].
Qed.

Lemma sum_of_repeat {A : Type} (f : A -> number) (x : A) (R : nat) :
  sum_of f (repeat x R) = sum_of (fun v => v) (repeat (f x) R).
Proof. apply fold_sum_repeat. Qed.

Lemma fold_sum_defined_repeat {A : Type} (f : A -> number) (x : A) (R : nat) :
  forall acc,
    fold_left
      (fun acc r =>
         do sum <- acc;
         match r with
         | Some r => Return (sum + f r)
         | None => Throw "TypeError: Cannot read properties of undefined"
         end)
      (repeat (Some x) R) (Return acc)
    = Return (fold_left (fun sum v => sum + v) (repeat (f x) R) acc).
Proof.
  induction R as [|R IH]; intros acc; cbn [repeat fold_left];
    [reflexivity | apply IH].
Qed.

Lemma sum_of_defined_repeat {A : Type} (f : A -> number) (x : A) (R : nat) :
  sum_of_defined f (repeat (Some x) R)
  = Return (sum_of (fun v => v) (repeat (f x) R)).
Proof. apply fold_sum_defined_repeat. Qed.

Lemma mean_of_repeat {A : Type} (f : A -> number) (x : A) (R : nat) :
  sum_of f (repeat x R) / of_nat (List.length (repeat x R))
  = meanOfCopies R (f x).
Proof. unfold meanOfCopies. now rewrite sum_of_repeat, repeat_length. Qed.

(** With a requested run count of 1 the loop runs once and its result is
    returned as it is. *)
Lemma single_run_returned_unchanged (World : Type)
  (performRun :
     list InteractionSpec -> World ->
     completion (RenderMetrics * list InteractionResult) * World)
  (Date_now : World -> number) (fuel : nat) (name : string)
  (options : MeasureInteractionOptions) (w w' : World)
  (snapshot : RenderMetrics) (results : list InteractionResult) :
  nullish (opt_runs options) 1 = 1 ->
  performRun (opt_interactions options) w = (Return (snapshot, results), w') ->
  measureInteraction World performRun Date_now (S fuel) name options w
  = Some (Return (runResult name options snapshot results (Date_now w')), w').
Proof.
  intros Hruns Hrun. unfold measureInteraction. rewrite Hruns.
  cbn [runLoop]. change (JS.lt 0 1) with true. cbv iota. rewrite Hrun.
  change (0 + 1) with 1.
  destruct fuel; cbn [runLoop]; change (JS.lt 1 1) with false; reflexivity.
Qed.

(** C8 as stated fails: three copies of a run whose total duration is
    [0.1] aggregate to [0.10000000000000002], since
    [(0 + 0.1 + 0.1 + 0.1) / 3] is rounded at every step. *)
Lemma three_copies_not_reproduced :
  exists aggregate,
    aggregateResults 0 (repeat tenthOfMillisecondRun 3) = Return aggregate
    /\ totalActualDuration (mi_metrics tenthOfMillisecondRun) = 0.1
    /\ totalActualDuration (mi_metrics aggregate) = 0.10000000000000002
    /\ totalActualDuration (mi_metrics aggregate)
       <> totalActualDuration (mi_metrics tenthOfMillisecondRun).
Proof.
  eexists. split; [reflexivity|]. split; [reflexivity|].
  split; [reflexivity|].
  intros H. apply (f_equal Prim2SF) in H. vm_compute in H. discriminate H.
Qed.
End AggregationClaims.

(* ================================================================== *)
(** * The status of a checked metric *)
(* ================================================================== *)

Section MetricStatus.
Local Open Scope float_scope.

Lemma one_comparable : comparable 1.
Proof. unfold comparable. change (Prim2SF 1) with SFone64. intros H. inversion H. Qed.

(** The status [validateMetric] gives for a positive budget. *)
Lemma validateMetric_status (a b wt : number) :
  JS.gt b 0 = true ->
  let v := validateMetric a b wt in
  utilization v = a / b
  /\ (mv_status v = fail <-> JS.gt a b = true)
  /\ (mv_status v = warn
      <-> JS.lt wt (a / b) = true /\ JS.le (a / b) 1 = true)
  /\ (mv_status v = pass
      <-> ~ JS.gt a b = true
          /\ ~ (JS.lt wt (a / b) = true /\ JS.le (a / b) 1 = true)).
Proof.
  unfold JS.gt, JS.lt, JS.le. intros Hb. cbv zeta.
  unfold validateMetric, getStatusFromUtilization, JS.gt.
  cbn [utilization mv_status].
  split; [reflexivity|].
  destruct (1 <? a / b) eqn:Hfail.
  - assert (Hab : (b <? a) = true)
      by (apply (proj1 (div_above_one a b Hb)); exact Hfail).
    assert (Hle : (a / b <=? 1) = false).
    { destruct (a / b <=? 1) eqn:E; [|reflexivity].
      apply leb_not_gtb in E. congruence. }
    rewrite Hab, Hle.
    repeat split; intros; intuition (try reflexivity; try discriminate).
  - assert (Hab : (b <? a) = false).
    { destruct (b <? a) eqn:E; [|reflexivity].
      apply (proj2 (div_above_one a b Hb)) in E. congruence. }
    rewrite Hab.
    destruct (wt <? a / b) eqn:Hwarn.
    + assert (Hle : (a / b <=? 1) = true).
      { apply not_gtb_leb; [|exact one_comparable|exact Hfail].
        exact (ltb_comparable_r _ _ Hwarn). }
      rewrite Hle.
      repeat split; intros; intuition (try reflexivity; try discriminate).
    + repeat split; intros; intuition (try reflexivity; try discriminate).
Qed.

(** C1. Every metric validation that [validateAgainstContract] records for
    a budget [> 0] has utilization [actual / budget] and status [fail]
    exactly when [actual > budget], status [warn] exactly when
    [warningThreshold < actual / budget <= 1], and status [pass]
    otherwise. *)
Theorem status_by_budget name m c e :
  NoDup (keys (interactions c)) ->
  In e (checkedMetrics (validateAgainstContract name m c)) ->
  JS.gt (budget (snd e)) 0 = true ->
  let v := snd e in
  let ratio := actual v / budget v in
  utilization v = ratio
  /\ (mv_status v = fail <-> JS.gt (actual v) (budget v) = true)
  /\ (mv_status v = warn
      <-> JS.lt (warningThreshold c) ratio = true /\ JS.le ratio 1 = true)
  /\ (mv_status v = pass
      <-> ~ JS.gt (actual v) (budget v) = true
          /\ ~ (JS.lt (warningThreshold c) ratio = true
                /\ JS.le ratio 1 = true)).
Proof.
  intros Hnd Hin Hb.
  destruct (validateAgainstContract_structure name m c Hnd) as (Hc & _).
  rewrite Hc in Hin.
  rewrite (performedChecks_validateMetric m c e Hin) in Hb |- *.
  cbn [budget actual] in Hb |- *.
  exact (validateMetric_status _ _ _ Hb).
Qed.

Lemma status_by_budget_witness :
  let c := sampleContract 16 5 0.8 [] in
  let r :=
    validateAgainstContract "Button" (PlainMetrics (sampleMetrics 3 14)) c in
  let e := ("renderTime", validateMetric 14 16 0.8) in
  NoDup (keys (interactions c))
  /\ In e (checkedMetrics r)
  /\ JS.gt (budget (snd e)) 0 = true
  /\ mv_status (snd e) = warn.
Proof.
  cbv zeta.
  assert (Hnd : NoDup (keys (interactions (sampleContract 16 5 0.8 []))))
    by constructor.
  assert (Hin : In ("renderTime", validateMetric 14 16 0.8)
                   (checkedMetrics
                      (validateAgainstContract "Button"
                         (PlainMetrics (sampleMetrics 3 14))
                         (sampleContract 16 5 0.8 []))))
    by (left; reflexivity).
  split; [exact Hnd|]. split; [exact Hin|]. split; [reflexivity|].
  destruct (status_by_budget "Button" (PlainMetrics (sampleMetrics 3 14))
              (sampleContract 16 5 0.8 [])
              ("renderTime", validateMetric 14 16 0.8) Hnd Hin eq_refl)
    as (_ & _ & Hwarn & _).
  apply Hwarn. split; reflexivity.
Defined.
End MetricStatus.

(* ================================================================== *)
(** * The structural rules and what [validateConfig] tests *)
(* ================================================================== *)

Section StructuralRules.
Local Open Scope float_scope.

Lemma is_nan_comparable (x : float) :
  PrimFloat.is_nan x = false -> comparable x.
Proof.
  unfold PrimFloat.is_nan, comparable. intros H Hnan.
  rewrite FloatAxioms.eqb_spec, Hnan in H. discriminate.
Qed.

Lemma integer_comparable (x : float) :
  Number_isInteger x = true -> comparable x.
Proof.
  unfold Number_isInteger, comparable. intros H Hnan. rewrite Hnan in H.
  discriminate.
Qed.

(** On comparable numbers [x < y] is the negation of [y <= x]. *)
Lemma ltb_negb_leb (x y : float) :
  comparable x -> comparable y -> (x <? y) = negb (y <=? x).
Proof.
  intros Hx Hy. rewrite leb_spec, ltb_spec. unfold SFleb, SFltb.
  rewrite (SFcompare_swap (Prim2SF x) (Prim2SF y)).
  destruct (SFcompare_total _ _ Hx Hy) as [c ->].
  destruct c; reflexivity.
Qed.

Lemma ltb_not_geb (x y : float) : (x <? y) = true -> (y <=? x) = false.
Proof.
  rewrite leb_spec, ltb_spec. unfold SFleb, SFltb.
  rewrite (SFcompare_swap (Prim2SF x) (Prim2SF y)).
  destruct (SFcompare (Prim2SF x) (Prim2SF y)) as [[]|]; simpl; congruence.
Qed.

Lemma zero_comparable : comparable 0.
Proof. unfold comparable. vm_compute. discriminate. Qed.

(** An integer is below one exactly when it is not positive. *)
Lemma integer_below_one (x : float) :
  Number_isInteger x = true -> (x <? 1) = negb (0 <? x).
Proof.
  unfold Number_isInteger. rewrite !ltb_spec.
  pose proof (Prim2SF_valid x) as Hvalid.
  change (Prim2SF 1) with SFone64.
  change (Prim2SF 0) with (S754_zero false).
  destruct (Prim2SF x) as [s|s| |s m e]; try discriminate.
  - intros _. reflexivity.
  - intros Hint. destruct s; [reflexivity|].
    change (SFltb (S754_zero false) (S754_finite false m e)) with true.
    cbn [negb].
    destruct (SFltb (S754_finite false m e) SFone64) eqn:E; [|reflexivity].
    exfalso. unfold SFone64 in E. apply lt_finite_iff in E.
    cbn [valid_binary] in Hvalid.
    destruct (bounded_facts m e Hvalid) as (Hd & He & Hcanon).
    pose proof (digits2_pos_bounds m) as [Hlo Hhi].
    apply orb_true_iff in Hint. destruct Hint as [Hint|Hint].
    + apply Z.leb_le in Hint. lia.
    + apply Z.eqb_eq in Hint.
      destruct E as [E|[E Hm]].
      * assert (H53 : (2 ^ Z.pos (digits2_pos m) <= 2 ^ 53)%Z)
          by (apply Z.pow_le_mono_r; lia).
        assert (Hexp : (2 ^ 53 <= 2 ^ (- e))%Z)
          by (apply Z.pow_le_mono_r; lia).
        rewrite Z.mod_small in Hint by lia. lia.
      * destruct Hcanon as [Hcanon|Hcanon]; [lia|].
        rewrite Hcanon in Hlo.
        change (2 ^ (53 - 1))%Z with 4503599627370496%Z in Hlo. lia.
Qed.

(** ** Each condition of the code against the rule it stands for *)

Lemma positiveInteger_check_1 (v : option number) :
  defined_and v (fun r => JS.lt r 1 || negb (Number_isInteger r))
  = breaks v isPositiveInteger.
Proof.
  destruct v as [x|]; [|reflexivity].
  unfold defined_and, breaks, isPositiveInteger, JS.lt, JS.gt.
  destruct (Number_isInteger x) eqn:E.
  - rewrite (integer_below_one x E), orb_false_r, andb_true_r. reflexivity.
  - now rewrite orb_true_r, andb_false_r.
Qed.

Lemma positiveInteger_check_0 (v : option number) :
  defined_and v (fun c => JS.le c 0 || negb (Number_isInteger c))
  = breaks v isPositiveInteger.
Proof.
  destruct v as [x|]; [|reflexivity].
  unfold defined_and, breaks, isPositiveInteger, JS.le, JS.gt.
  destruct (Number_isInteger x) eqn:E.
  - rewrite orb_false_r, andb_true_r.
    rewrite (ltb_negb_leb 0 x zero_comparable (integer_comparable x E)).
    now rewrite negb_involutive.
  - now rewrite orb_true_r, andb_false_r.
Qed.

Lemma positive_check (v : option number) :
  notNaN v = true ->
  defined_and v (fun t => JS.le t 0) = breaks v isPositive.
Proof.
  destruct v as [x|]; [|reflexivity].
  unfold notNaN, defined_and, breaks, isPositive, JS.le, JS.gt.
  intros H. apply negb_true_iff, is_nan_comparable in H.
  rewrite (ltb_negb_leb 0 x zero_comparable H).
  now rewrite negb_involutive.
Qed.

Lemma unitInterval_check (v : option number) :
  notNaN v = true ->
  defined_and v (fun t => JS.lt t 0 || JS.gt t 1)
  = breaks v inUnitInterval.
Proof.
  destruct v as [x|]; [|reflexivity].
  unfold notNaN, defined_and, breaks, inUnitInterval, JS.lt, JS.gt, JS.ge,
    JS.le.
  intros H. apply negb_true_iff, is_nan_comparable in H.
  rewrite (ltb_negb_leb x 0 H zero_comparable).
  rewrite (ltb_negb_leb 1 x one_comparable H).
  now rewrite negb_andb.
Qed.

Lemma positive_check_sound (v : option number) :
  defined_and v (fun t => JS.le t 0) = true -> breaks v isPositive = true.
Proof.
  destruct v as [x|]; [|discriminate].
  unfold defined_and, breaks, isPositive, JS.le, JS.gt. intros H.
  now rewrite (leb_not_gtb _ _ H).
Qed.

Lemma unitInterval_check_sound (v : option number) :
  defined_and v (fun t => JS.lt t 0 || JS.gt t 1) = true ->
  breaks v inUnitInterval = true.
Proof.
  destruct v as [x|]; [|discriminate].
  unfold defined_and, breaks, inUnitInterval, JS.lt, JS.gt, JS.ge, JS.le.
  intros H. apply orb_true_iff in H. destruct H as [H|H].
  - now rewrite (ltb_not_geb _ _ H).
  - now rewrite (ltb_not_geb _ _ H), andb_false_r.
Qed.

Lemma nonEmpty_check (cs : option (list string)) :
  match cs with
  | None => true
  | Some cs => Nat.eqb (List.length cs) 0
  end
  = match cs with
    | Some (_ :: _) => false
    | _ => true
    end.
Proof. now destruct cs as [[|c cs]|]. Qed.

(** ** Configurations without [NaN]: the tested conditions are the rules *)

Lemma flat_map_ext_In {A B : Type} (f g : A -> list B) (xs : list A) :
  (forall x, In x xs -> f x = g x) -> flat_map f xs = flat_map g xs.
Proof.
  induction xs as [|x xs IH]; intros H; cbn [flat_map]; [reflexivity|].
  rewrite (H x (or_introl eq_refl)), IH; [reflexivity|].
  intros y Hy. apply H. now right.
Qed.

Lemma aggregateChecks_rules (entry : string * AggregateContract) :
  aggregateChecks entry = aggregateRules entry.
Proof.
  destruct entry as [name aggregate]. unfold aggregateChecks, aggregateRules.
  now rewrite nonEmpty_check.
Qed.

Lemma globalChecks_rules (g : GlobalConfig) :
  notNaN (gc_regressionThreshold g) = true ->
  globalChecks g = globalRules g.
Proof.
  intros H. unfold globalChecks, globalRules.
  now rewrite !positiveInteger_check_1, (unitInterval_check _ H).
Qed.

Lemma componentChecks_rules (entry : string * ComponentContract) :
  notNaN (cc_maxRenderTime (snd entry)) = true ->
  notNaN (cc_warningThreshold (snd entry)) = true ->
  forallb (fun budget : InteractionType * InteractionBudget =>
             notNaN (maxRenders (snd budget)))
          (nullish (cc_interactions (snd entry)) []) = true ->
  componentChecks entry = componentRules entry.
Proof.
  destruct entry as [name contract]. cbn [snd].
  intros Htime Hthreshold Hbudgets.
  unfold componentChecks, componentRules.
  rewrite positiveInteger_check_0, (positive_check _ Htime),
    (unitInterval_check _ Hthreshold).
  f_equal. apply map_ext_in. intros budget Hin.
  unfold interactionCheck, interactionRule. f_equal.
  apply positive_check.
  exact (proj1 (forallb_forall _ _) Hbudgets budget Hin).
Qed.

Lemma configChecks_rules (config : ContractConfig) :
  nanFree config = true -> configChecks config = structuralRules config.
Proof.
  unfold nanFree, configChecks, structuralRules. intros H.
  apply andb_true_iff in H. destruct H as [Hglobal Hcomponents].
  f_equal; [|f_equal].
  - destruct (cfg_global config) as [g|]; [|reflexivity].
    now apply globalChecks_rules.
  - apply flat_map_ext_In. intros entry Hin.
    apply (proj1 (Object_entries_In _ _)) in Hin.
    pose proof (proj1 (forallb_forall _ _) Hcomponents entry Hin) as He.
    apply andb_true_iff in He. destruct He as [He Hbudgets].
    apply andb_true_iff in He. destruct He as [Htime Hthreshold].
    now apply componentChecks_rules.
  - apply flat_map_ext_In. intros entry _. apply aggregateChecks_rules.
Qed.

(** ** Every configuration: no message without a broken rule *)

Lemma Forall2_flat_map {A B C : Type} (R : B -> C -> Prop)
  (f : A -> list B) (g : A -> list C) (xs : list A) :
  (forall x, Forall2 R (f x) (g x)) ->
  Forall2 R (flat_map f xs) (flat_map g xs).
Proof.
  intros H. induction xs as [|x xs IH]; cbn [flat_map]; [constructor|].
  now apply Forall2_app.
Qed.

Lemma Forall2_map {A B C : Type} (R : B -> C -> Prop)
  (f : A -> B) (g : A -> C) (xs : list A) :
  (forall x, R (f x) (g x)) -> Forall2 R (map f xs) (map g xs).
Proof.
  intros H. induction xs as [|x xs IH]; cbn [map]; constructor;
    [apply H|exact IH].
Qed.

Lemma configChecks_sound (config : ContractConfig) :
  Forall2 soundCheck (configChecks config) (structuralRules config).
Proof.
  unfold configChecks, structuralRules.
  apply Forall2_app; [|apply Forall2_app].
  - destruct (cfg_global config) as [g|]; [|constructor].
    unfold globalChecks, globalRules.
    rewrite !positiveInteger_check_1.
    repeat constructor; try reflexivity; cbn [rule_broken]; try tauto.
    apply unitInterval_check_sound.
  - apply Forall2_flat_map. intros [name contract].
    unfold componentChecks, componentRules.
    rewrite positiveInteger_check_0.
    apply Forall2_app.
    + repeat constructor; try reflexivity; cbn [rule_broken]; try tauto.
      * apply positive_check_sound.
      * apply unitInterval_check_sound.
    + apply Forall2_map. intros budget. split; [reflexivity|].
      apply positive_check_sound.
  - apply Forall2_flat_map. intros entry.
    rewrite aggregateChecks_rules.
    destruct entry as [name aggregate]. repeat constructor; tauto.
Qed.

Lemma brokenMessages_sound (checks rules : list RuleInstance) :
  Forall2 soundCheck checks rules ->
  forall message,
    In message (brokenMessages checks) -> In message (brokenMessages rules).
Proof.
  unfold brokenMessages.
  induction 1 as [|check rule checks rules [Hmessage Hbroken] _ IH];
    intros message Hin; [contradiction|].
  cbn [filter] in *.
  destruct (rule_broken check) eqn:E.
  - rewrite (Hbroken eq_refl). cbn [map] in *.
    destruct Hin as [<-|Hin]; [left; now symmetry|right; now apply IH].
  - destruct (rule_broken rule); [right|]; now apply IH.
Qed.

(** C6.  [validateConfig] never stops at the first problem: on a
    configuration in which no threshold and no render-time or interaction
    budget is [NaN] it returns the message of every broken structural
    rule, in the order the configuration is read; on
    [{global: {runs: 0}, components: {X: {maxRenderTime: -1}}}] these are
    the two messages, one per broken rule.  On every configuration each
    message it returns is that of a broken rule.  But it does not check
    every rule for every input: a [NaN] threshold or budget breaks its
    rule and is accepted, as in the configuration [nanConfig], where four
    rules are broken and no message is returned. *)
Theorem validateConfig_misses_nan :
  (forall config,
      nanFree config = true ->
      validateConfig config = brokenMessages (structuralRules config))
  /\ (forall config message,
        In message (validateConfig config) ->
        In message (brokenMessages (structuralRules config)))
  /\ validateConfig scenarioD
     = ["global.runs must be a positive integer";
        "X.maxRenderTime must be positive"]
  /\ validateConfig nanConfig = []
  /\ brokenMessages (structuralRules nanConfig)
     = ["global.regressionThreshold must be between 0 and 1";
        "Button.maxRenderTime must be positive";
        "Button.warningThreshold must be between 0 and 1";
        "Button.interactions.click.maxRenders must be positive"].
Proof.
  split; [|split; [|split; [|split]]].
  - intros config Hfree.
    now rewrite validateConfig_checks, (configChecks_rules config Hfree).
  - intros config message. rewrite validateConfig_checks.
    apply brokenMessages_sound, configChecks_sound.
  - reflexivity.
  - reflexivity.
  - reflexivity.
Qed.

Lemma validateConfig_misses_nan_witness :
  nanFree scenarioD = true
  /\ validateConfig scenarioD = brokenMessages (structuralRules scenarioD).
Proof.
  split; [reflexivity|].
  apply (proj1 validateConfig_misses_nan scenarioD). reflexivity.
Defined.

End StructuralRules.
(* ================================================================== *)
(** * Passing a contract *)
(* ================================================================== *)

Section PassingContracts.
Local Open Scope float_scope.

Lemma combineStatuses_fail (statuses : list ValidationStatus) :
  combineStatuses statuses = fail <-> In fail statuses.
Proof.
  unfold combineStatuses. rewrite <- includes_In.
  destruct (includes statuses fail); [tauto|].
  destruct (includes statuses warn); split; discriminate.
Qed.

Lemma no_failed_entry (L : list (string * MetricValidation)) :
  filter isFail L = [] <-> ~ In fail (map (fun e => mv_status (snd e)) L).
Proof.
  induction L as [|e L IH]; simpl; [tauto|].
  unfold isFail at 1.
  destruct (mv_status (snd e)) eqn:E; simpl; rewrite ?IH;
    split; intros H; try tauto; try discriminate;
    try (intros [H'|H']; [discriminate|tauto]).
Qed.

(** The status, the metrics and the violations of a result do not depend
    on the name it is reported under. *)
Lemma validateAgainstContract_name name name' m c :
  let r := validateAgainstContract name m c in
  let r' := validateAgainstContract name' m c in
  status r = status r' /\ metrics r = metrics r'
  /\ violations r = violations r' /\ componentName r = name
  /\ suggestions r = [].
Proof. repeat split; reflexivity. Qed.

Lemma passesContract_status name m c :
  passesContract m c = true <-> status (validateAgainstContract name m c) <> fail.
Proof.
  unfold passesContract.
  destruct (validateAgainstContract_name (componentNameOf m) name m c)
    as [-> _].
  destruct (status (validateAgainstContract name m c)); simpl;
    split; congruence.
Qed.

(** X1.  [passesContract] answers [true] exactly when the detailed
    validation, under whatever component name, reports no violation. *)
Theorem passesContract_iff_no_violation name m c :
  NoDup (keys (interactions c)) ->
  (passesContract m c = true
   <-> violations (validateAgainstContract name m c) = []).
Proof.
  intros Hnd. rewrite (passesContract_status name).
  destruct (validateAgainstContract_structure name m c Hnd) as (_ & -> & ->).
  rewrite combineStatuses_fail, <- no_failed_entry.
  split.
  - intros ->. reflexivity.
  - intros H. destruct (filter isFail (performedChecks m c)); [reflexivity|].
    discriminate.
Qed.

Lemma passesContract_iff_no_violation_witness :
  NoDup (keys (interactions clickTypeContract))
  /\ (passesContract (InteractionMeasurement sampleMeasurement)
        clickTypeContract = true
      <-> violations
            (validateAgainstContract "Button"
               (InteractionMeasurement sampleMeasurement) clickTypeContract)
          = []).
Proof.
  split.
  - repeat constructor; simpl; intuition discriminate.
  - apply passesContract_iff_no_violation.
    repeat constructor; simpl; intuition discriminate.
Defined.

Lemma performedChecks_comparisons m c :
  map comparison_of (performedChecks m c)
  = componentComparisons m c
    ++ match m with
       | InteractionMeasurement r =>
           interactionComparisons (rendersByType r) (interactions c)
       | PlainMetrics _ => []
       end.
Proof.
  unfold performedChecks, componentComparisons.
  rewrite !map_app.
  destruct m as [rm|r]; [|rewrite comparisons_named];
    destruct (strict_neq (maxRenderTime c) Infinity),
             (strict_neq (maxRenderCount c) Infinity); reflexivity.
Qed.

(** X2.  When every budget that is checked is positive, [passesContract]
    answers [true] exactly when no compared value is greater than its
    budget. *)
Theorem passesContract_iff_within_budgets m c :
  NoDup (keys (interactions c)) ->
  let compared :=
    componentComparisons m c
    ++ match m with
       | InteractionMeasurement r =>
           interactionComparisons (rendersByType r) (interactions c)
       | PlainMetrics _ => []
       end in
  (forall name a b, In (name, a, b) compared -> JS.gt b 0 = true) ->
  (passesContract m c = true
   <-> forall name a b, In (name, a, b) compared -> JS.gt a b = false).
Proof.
  intros Hnd compared Hpos. subst compared.
  rewrite <- performedChecks_comparisons in *.
  rewrite (passesContract_status "").
  destruct (validateAgainstContract_structure "" m c Hnd) as (_ & _ & ->).
  rewrite combineStatuses_fail, in_map_iff.
  assert (Hfail : forall e, In e (performedChecks m c) ->
            (mv_status (snd e) = fail
             <-> JS.gt (actual (snd e)) (budget (snd e)) = true)).
  { intros e He.
    assert (Hb : JS.gt (budget (snd e)) 0 = true).
    { apply (Hpos (fst e) (actual (snd e))).
      apply in_map_iff. exists e. split; [reflexivity|exact He]. }
    rewrite (performedChecks_validateMetric m c e He) at 1.
    exact (proj1 (proj2 (validateMetric_status _ _ (warningThreshold c) Hb))). }
  split.
  - intros Hno name a b Hin.
    apply in_map_iff in Hin. destruct Hin as (e & He & Hin).
    unfold comparison_of in He. inversion He; subst.
    destruct (JS.gt (actual (snd e)) (budget (snd e))) eqn:E; [|reflexivity].
    exfalso. apply Hno. exists e. split; [|exact Hin].
    now apply Hfail.
  - intros Hall (e & He & Hin).
    apply (Hfail e Hin) in He.
    rewrite (Hall (fst e) (actual (snd e)) (budget (snd e))) in He;
      [discriminate|].
    apply in_map_iff. exists e. split; [reflexivity|exact Hin].
Qed.

Lemma passesContract_iff_within_budgets_witness :
  passesContract (InteractionMeasurement sampleMeasurement) clickTypeContract
  = true
  <-> forall name a b,
        In (name, a, b)
           [("rendersPerInteraction.click", 4, 2);
            ("rendersPerInteraction.type", 1, 3)] ->
        JS.gt a b = false.
Proof.
  apply (passesContract_iff_within_budgets
           (InteractionMeasurement sampleMeasurement) clickTypeContract).
  - exact NoDup_clickType.
  - simpl. intros name a b [H|[H|[]]]; inversion H; subst; reflexivity.
Defined.

(** A comparison with [NaN] on either side is false. *)
Lemma ltb_nan_l (x y : float) : Prim2SF x = S754_nan -> (x <? y) = false.
Proof. intros H. rewrite ltb_spec, H. reflexivity. Qed.

Lemma ltb_nan_r (x y : float) : Prim2SF y = S754_nan -> (x <? y) = false.
Proof.
  intros H. rewrite ltb_spec, H. unfold SFltb, SFcompare.
  now destruct (Prim2SF x) as [| | |[] ? ?].
Qed.

Lemma leb_nan_l (x y : float) : Prim2SF x = S754_nan -> (x <=? y) = false.
Proof. intros H. rewrite leb_spec, H. reflexivity. Qed.

Lemma div_nan (a b : float) :
  Prim2SF a = S754_nan \/ Prim2SF b = S754_nan -> Prim2SF (a / b) = S754_nan.
Proof.
  rewrite div_spec. intros [H|H]; rewrite H; [reflexivity|].
  unfold SFdiv. now destruct (Prim2SF a).
Qed.

(** X3.  For a positive budget and a value that is a number, the three ways
    the code has of asking "is it within budget" agree: [isWithinBudget],
    a status other than [fail] from [validateMetric], and a utilization
    from [getBudgetUtilization] that is not above 1. *)
Theorem within_budget_agreement (a b wt : number) :
  JS.gt b 0 = true -> comparable a ->
  (isWithinBudget a b = true <-> mv_status (validateMetric a b wt) <> fail)
  /\ (isWithinBudget a b = true
      <-> JS.gt (getBudgetUtilization a b) 1 = false)
  /\ getBudgetUtilization a b = utilization (validateMetric a b wt).
Proof.
  intros Hb Ha.
  destruct (validateMetric_status a b wt Hb) as (Hu & Hfail & _).
  assert (Hcb : comparable b) by exact (ltb_comparable_r _ _ Hb).
  assert (Hle : isWithinBudget a b = true <-> JS.gt a b = false).
  { unfold isWithinBudget, JS.le, JS.gt. split.
    - apply leb_not_gtb.
    - now apply not_gtb_leb. }
  assert (Hut : getBudgetUtilization a b = a / b).
  { unfold getBudgetUtilization. now rewrite Hb. }
  split; [|split].
  - rewrite Hle, Hfail. destruct (JS.gt a b); split; congruence.
  - rewrite Hle, Hut. unfold JS.gt in *.
    pose proof (div_above_one a b Hb) as Hdiv.
    destruct (1 <? a / b), (b <? a); intuition congruence.
  - rewrite Hut. reflexivity.
Qed.

Lemma within_budget_agreement_witness :
  isWithinBudget 14 16 = true
  <-> mv_status (validateMetric 14 16 0.8) <> fail.
Proof.
  apply (within_budget_agreement 14 16 0.8).
  - reflexivity.
  - unfold comparable. vm_compute. discriminate.
Defined.

(** X4.  A value or a budget that is [NaN] is never reported: the metric
    gets status [pass] and no [exceededBy], although [isWithinBudget]
    answers [false] for it. *)
Theorem nan_is_never_a_violation (a b wt : number) :
  Prim2SF a = S754_nan \/ Prim2SF b = S754_nan ->
  mv_status (validateMetric a b wt) = pass
  /\ exceededBy (validateMetric a b wt) = None
  /\ isWithinBudget a b = false.
Proof.
  intros H.
  pose proof (div_nan a b H) as Hdiv.
  unfold validateMetric, getStatusFromUtilization, JS.gt, isWithinBudget, JS.le.
  cbn [mv_status exceededBy].
  rewrite !(ltb_nan_r _ (a / b) Hdiv).
  repeat split.
  destruct H as [H|H].
  - exact (leb_nan_l a b H).
  - rewrite leb_spec, H. unfold SFleb, SFcompare.
    now destruct (Prim2SF a) as [| | |[] ? ?].
Qed.

Lemma nan_is_never_a_violation_witness :
  mv_status (validateMetric nan 16 0.8) = pass
  /\ exceededBy (validateMetric nan 16 0.8) = None
  /\ isWithinBudget nan 16 = false.
Proof.
  apply (nan_is_never_a_violation nan 16 0.8). left. reflexivity.
Defined.

(** X5.  Each violation restates a failed metric: its [exceededByPercent]
    is the [exceededBy] recorded for that metric, which is present exactly
    on the metrics whose status is [fail]. *)
Theorem violation_matches_exceededBy name m c :
  NoDup (keys (interactions c)) ->
  let r := validateAgainstContract name m c in
  (forall v, In v (violations r) ->
     exists e, In e (checkedMetrics r)
       /\ fst e = metric v
       /\ mv_status (snd e) = fail
       /\ budget (snd e) = v_budget v
       /\ actual (snd e) = v_actual v
       /\ exceededBy (snd e) = Some (exceededByPercent v))
  /\ (forall e, In e (checkedMetrics r) ->
        (exceededBy (snd e) = None <-> mv_status (snd e) <> fail)).
Proof.
  intros Hnd r. subst r.
  destruct (validateAgainstContract_structure name m c Hnd) as (-> & -> & _).
  assert (Hshape : forall e, In e (performedChecks m c) ->
            (mv_status (snd e) = fail ->
             exceededBy (snd e)
             = Some ((actual (snd e) - budget (snd e)) / budget (snd e)))
            /\ (exceededBy (snd e) = None <-> mv_status (snd e) <> fail)).
  { intros e He.
    rewrite (performedChecks_validateMetric m c e He).
    unfold validateMetric, getStatusFromUtilization.
    cbn [mv_status exceededBy actual budget].
    destruct (JS.gt _ 1).
    - split; [reflexivity|]. split; [discriminate|intros H; now elim H].
    - destruct (JS.gt _ (warningThreshold c));
        (split; [discriminate|]);
        (split; intros; [discriminate|reflexivity]). }
  split.
  - intros v Hv. apply in_map_iff in Hv. destruct Hv as (e & <- & He).
    apply filter_In in He. destruct He as (He & Hf).
    unfold isFail in Hf. apply ValidationStatus_eqb_eq in Hf.
    exists e. repeat split; try assumption; try reflexivity.
    exact (proj1 (Hshape e He) Hf).
  - intros e He. exact (proj2 (Hshape e He)).
Qed.

Lemma violation_matches_exceededBy_witness :
  exists e,
    In e (checkedMetrics
            (validateAgainstContract "Button"
               (InteractionMeasurement sampleMeasurement) clickTypeContract))
    /\ fst e = metric (createViolation "rendersPerInteraction.click" 2 4)
    /\ mv_status (snd e) = fail
    /\ budget (snd e)
       = v_budget (createViolation "rendersPerInteraction.click" 2 4)
    /\ actual (snd e)
       = v_actual (createViolation "rendersPerInteraction.click" 2 4)
    /\ exceededBy (snd e)
       = Some (exceededByPercent
                 (createViolation "rendersPerInteraction.click" 2 4)).
Proof.
  apply (proj1 (violation_matches_exceededBy "Button"
                  (InteractionMeasurement sampleMeasurement)
                  clickTypeContract NoDup_clickType)
           (createViolation "rendersPerInteraction.click" 2 4)).
  left. reflexivity.
Defined.

End PassingContracts.

(* ================================================================== *)
(** * Looking contracts up and validating in bulk *)
(* ================================================================== *)

Section ContractLookup.
Local Open Scope float_scope.

Lemma Map_has_get {V : Type} (m : @object string V) (key : string) :
  Map_has m key
  = match JS.get String.eqb m key with Some _ => true | None => false end.
Proof.
  unfold Map_has, keys.
  induction m as [|[k v] m IH]; simpl; [reflexivity|].
  destruct (String.eqb key k); [reflexivity|exact IH].
Qed.

Lemma Map_has_In {V : Type} (m : @object string V) (key : string) :
  Map_has m key = true <-> In key (keys m).
Proof.
  unfold Map_has. rewrite existsb_exists. split.
  - intros (k & Hin & E). apply String.eqb_eq in E. now subst.
  - intros H. exists key. split; [exact H|apply String.eqb_refl].
Qed.

Lemma validateEach_flat_map results config :
  validateEach results config
  = flat_map
      (fun entry =>
         match validateContractSync (mc_componentName entry)
                 (mc_measurements entry) config with
         | Some validation => [validation]
         | None => []
         end)
      results.
Proof.
  unfold validateEach.
  rewrite (fold_left_appending _
             (fun entry =>
                match validateContractSync (mc_componentName entry)
                        (mc_measurements entry) config with
                | Some validation => [validation]
                | None => []
                end)).
  - reflexivity.
  - intros acc entry.
    destruct (validateContractSync _ _ config); [reflexivity|].
    now rewrite app_nil_r.
Qed.

Lemma validateEach_In results config v :
  In v (validateEach results config)
  <-> exists entry contract,
        In entry results
        /\ getComponentContract config (mc_componentName entry) = Some contract
        /\ v = validateAgainstContract (mc_componentName entry)
                 (mc_measurements entry) contract.
Proof.
  rewrite validateEach_flat_map. unfold validateContractSync.
  rewrite in_flat_map. split.
  - intros (e & He & Hv).
    destruct (getComponentContract config (mc_componentName e)) as [c|] eqn:E;
      [|contradiction].
    destruct Hv as [<-|[]]. now exists e, c.
  - intros (e & c & He & Hc & ->). exists e. split; [exact He|].
    rewrite Hc. now left.
Qed.

(** X7.  [validateMultiple] over a configuration reports, in the order
    given, exactly the components that have a contract, each validated
    against its own contract; the others are dropped silently. *)
Theorem validateEach_reports_contracted results config :
  map componentName (validateEach results config)
  = filter (hasContract config) (map mc_componentName results)
  /\ (forall v,
        In v (validateEach results config)
        <-> exists entry contract,
              In entry results
              /\ getComponentContract config (mc_componentName entry)
                 = Some contract
              /\ v = validateAgainstContract (mc_componentName entry)
                       (mc_measurements entry) contract)
  /\ (List.length (validateEach results config) <= List.length results)%nat.
Proof.
  split; [|split].
  - rewrite validateEach_flat_map. unfold validateContractSync, hasContract.
    induction results as [|e results IH]; [reflexivity|].
    cbn [flat_map map filter]. rewrite map_app, IH, Map_has_get.
    unfold getComponentContract.
    now destruct (JS.get String.eqb (rc_components config) (mc_componentName e)).
  - intros v. apply validateEach_In.
  - rewrite validateEach_flat_map. unfold validateContractSync.
    induction results as [|e results IH]; [apply le_n|].
    cbn [flat_map]. rewrite length_app.
    destruct (getComponentContract config (mc_componentName e));
      cbn [List.length]; lia.
Qed.

(** X8.  The overall status of a bulk validation is [fail] exactly when
    some component with a contract does not pass it. *)
Theorem validateEach_fails_iff results config :
  getOverallStatus (validateEach results config) = fail
  <-> exists entry contract,
        In entry results
        /\ getComponentContract config (mc_componentName entry) = Some contract
        /\ passesContract (mc_measurements entry) contract = false.
Proof.
  unfold getOverallStatus. rewrite combineStatuses_fail, in_map_iff.
  pose proof (validateEach_In results config) as Hin.
  split.
  - intros (v & Hv & Hv'). apply Hin in Hv'.
    destruct Hv' as (e & c & He & Hc & ->).
    exists e, c. repeat split; try assumption.
    destruct (passesContract (mc_measurements e) c) eqn:E; [|reflexivity].
    apply (passesContract_status (mc_componentName e)) in E. contradiction.
  - intros (e & c & He & Hc & Hp).
    exists (validateAgainstContract (mc_componentName e) (mc_measurements e) c).
    split.
    + destruct (status _) eqn:E; try reflexivity; exfalso;
        assert (Hp' : passesContract (mc_measurements e) c = true)
          by (apply (passesContract_status (mc_componentName e));
              rewrite E; discriminate);
        congruence.
    + apply Hin. now exists e, c.
Qed.

(** X9.  [addSuggestions] only appends: it leaves the verdict untouched,
    adding nothing is the identity, adding twice is adding the
    concatenation, a fresh validation carries exactly the suggestions
    added, and overall status and counts ignore suggestions. *)
Theorem addSuggestions_laws :
  (forall r s,
      status (addSuggestions r s) = status r
      /\ componentName (addSuggestions r s) = componentName r
      /\ metrics (addSuggestions r s) = metrics r
      /\ violations (addSuggestions r s) = violations r)
  /\ (forall r, addSuggestions r [] = r)
  /\ (forall r s s',
        addSuggestions (addSuggestions r s) s' = addSuggestions r (s ++ s'))
  /\ (forall name m c s,
        suggestions (addSuggestions (validateAgainstContract name m c) s) = s)
  /\ (forall (f : ValidationResult -> list FixSuggestion) results,
        let results' := map (fun r => addSuggestions r (f r)) results in
        getOverallStatus results' = getOverallStatus results
        /\ countByStatus results' = countByStatus results).
Proof.
  split; [|split; [|split; [|split]]].
  - intros r s. repeat split; reflexivity.
  - intros [st n ms vs ss]. unfold addSuggestions. cbn.
    now rewrite app_nil_r.
  - intros r s s'. unfold addSuggestions. cbn. now rewrite app_assoc.
  - reflexivity.
  - intros f results results'. subst results'.
    assert (Hfilter : forall p : ValidationStatus -> bool,
               List.length
                 (filter (fun r => p (status r))
                    (map (fun r => addSuggestions r (f r)) results))
               = List.length (filter (fun r => p (status r)) results)).
    { intros p. induction results as [|r results IH]; [reflexivity|].
      cbn [map filter]. cbn [addSuggestions status].
      destruct (p (status r)); cbn [List.length]; now rewrite IH. }
    split.
    + unfold getOverallStatus. rewrite map_map. reflexivity.
    + unfold countByStatus.
      rewrite (Hfilter (fun s => ValidationStatus_eqb s pass)),
              (Hfilter (fun s => ValidationStatus_eqb s warn)),
              (Hfilter (fun s => ValidationStatus_eqb s fail)).
      reflexivity.
Qed.

End ContractLookup.

(* ================================================================== *)
(** * Updating objects and maps *)
(* ================================================================== *)

Section ObjectUpdates.
Context {K V : Type} (eqb : K -> K -> bool).
Hypothesis eqb_eq : forall a b, eqb a b = true <-> a = b.

Lemma eqb_same (k : K) : eqb k k = true.
Proof. now apply eqb_eq. Qed.

Lemma get_set_same (o : @object K V) (k : K) (v : V) :
  JS.get eqb (JS.set eqb o k v) k = Some v.
Proof.
  induction o as [|[k0 v0] o IH]; simpl.
  - now rewrite eqb_same.
  - destruct (eqb k k0) eqn:E; simpl; rewrite E; [reflexivity|exact IH].
Qed.

Lemma get_set_other (o : @object K V) (k k' : K) (v : V) :
  k' <> k -> JS.get eqb (JS.set eqb o k v) k' = JS.get eqb o k'.
Proof.
  intros Hne.
  induction o as [|[k0 v0] o IH]; simpl.
  - now rewrite (eqb_neq_false eqb eqb_eq k' k Hne).
  - destruct (eqb k k0) eqn:E; simpl.
    + apply eqb_eq in E. subst k0.
      now rewrite (eqb_neq_false eqb eqb_eq k' k Hne).
    + destruct (eqb k' k0); [reflexivity|exact IH].
Qed.

Lemma keys_set_In (o : @object K V) (k : K) (v : V) :
  forall k', In k' (keys (JS.set eqb o k v)) <-> k' = k \/ In k' (keys o).
Proof.
  unfold keys.
  induction o as [|[k0 v0] o IH]; intros k'; simpl.
  - intuition congruence.
  - destruct (eqb k k0) eqn:E; simpl.
    + apply eqb_eq in E. subst. intuition congruence.
    + rewrite IH. tauto.
Qed.

Lemma keys_set_NoDup (o : @object K V) (k : K) (v : V) :
  NoDup (keys o) -> NoDup (keys (JS.set eqb o k v)).
Proof.
  unfold keys.
  induction o as [|[k0 v0] o IH]; simpl; intros Hnd.
  - constructor; [tauto|constructor].
  - inversion Hnd as [|? ? Hnotin Hnd']; subst.
    destruct (eqb k k0) eqn:E; simpl.
    + constructor; assumption.
    + constructor; [|now apply IH].
      intros Hin. apply (keys_set_In o k v) in Hin.
      destruct Hin as [->|Hin]; [|contradiction].
      now rewrite eqb_same in E.
Qed.

Lemma get_None_iff (o : @object K V) (k : K) :
  JS.get eqb o k = None <-> ~ In k (keys o).
Proof.
  unfold keys.
  induction o as [|[k0 v0] o IH]; simpl; [tauto|].
  destruct (eqb k k0) eqn:E.
  - apply eqb_eq in E. subst. split; [discriminate|tauto].
  - rewrite IH. split; [|tauto].
    intros H [->|Hin]; [|contradiction].
    now rewrite eqb_same in E.
Qed.
End ObjectUpdates.

(* ================================================================== *)
(** * Resolved configurations *)
(* ================================================================== *)

Section ResolvedConfigurations.
Local Open Scope float_scope.

Lemma fold_set_keys {A B : Type} (f : A -> B) (xs : @object string A) :
  forall acc : @object string B,
    NoDup (keys acc) ->
    let result :=
      fold_left (fun acc '(name, x) => JS.set String.eqb acc name (f x))
                xs acc in
    NoDup (keys result)
    /\ forall k, In k (keys result) <-> In k (keys acc) \/ In k (keys xs).
Proof.
  induction xs as [|[name x] xs IH]; intros acc Hnd; cbn [fold_left].
  - split; [exact Hnd|]. intros k. simpl. tauto.
  - destruct (IH (JS.set String.eqb acc name (f x))
                 (keys_set_NoDup String.eqb String.eqb_eq acc name (f x) Hnd)) as (Hnd' & Hin).
    split; [exact Hnd'|].
    intros k. rewrite Hin, (keys_set_In String.eqb String.eqb_eq).
    unfold keys. simpl.
    intuition congruence.
Qed.

(** The resolved [Map] holds the declared names and no other. *)
Lemma resolved_component_names (config : ContractConfig) (name : string) :
  In name (keys (rc_components (resolveConfig config)))
  <-> In name (keys (nullish (cfg_components config) [])).
Proof.
  unfold resolveConfig. cbn [rc_components].
  destruct (cfg_components config) as [cs|]; [|reflexivity].
  cbn [nullish].
  rewrite (proj2 (fold_set_keys resolveComponentContract
                    (Object_entries cs) [] (NoDup_nil _))).
  split.
  - intros [[]|H].
    exact (Permutation_in _ (Object_entries_keys cs) H).
  - intros H. right.
    exact (Permutation_in _ (Permutation_sym (Object_entries_keys cs)) H).
Qed.

(** The names that are array indices, as [Object.entries] orders them. *)
Lemma indexProperties_names {V : Type} (o : @object string V) :
  Permutation (map (fun p => fst (snd p)) (indexProperties o))
              (filter isArrayIndex (keys o)).
Proof.
  unfold indexProperties, keys, isArrayIndex.
  induction o as [|e o IH]; cbn [fold_right map filter];
    [apply Permutation_refl|].
  destruct (arrayIndex (fst e)) as [i|]; [|exact IH].
  apply perm_trans
    with (map (fun p : N * (string * V) => fst (snd p))
              ((i, e) :: fold_right
                  (fun e sorted =>
                     match arrayIndex (fst e) with
                     | Some i => insertByIndex i e sorted
                     | None => sorted
                     end) [] o)).
  - apply Permutation_map, insertByIndex_Permutation.
  - cbn [map fst snd]. now apply perm_skip.
Qed.

Lemma StronglySorted_map {A B : Type} (f : A -> B)
  (R : A -> A -> Prop) (S : B -> B -> Prop) (xs : list A) :
  (forall a b, In a xs -> In b xs -> R a b -> S (f a) (f b)) ->
  StronglySorted R xs -> StronglySorted S (map f xs).
Proof.
  induction xs as [|x xs IH]; intros Hrs Hs; cbn [map]; [constructor|].
  apply StronglySorted_inv in Hs as [Hs Hx].
  constructor.
  - apply IH; [|exact Hs]. intros a b Ha Hb. apply Hrs; now right.
  - apply Forall_forall. intros y Hy. apply in_map_iff in Hy.
    destruct Hy as (a & <- & Ha). apply Hrs; [now left|now right|].
    exact (proj1 (Forall_forall _ _) Hx a Ha).
Qed.

(** X10.  The resolved [Map] of components never lists a name twice and
    lists exactly the declared names.  For a declaration without repeated
    names it lists them as [Object.entries] enumerates the declaration:
    first the names that are array indices, in ascending numeric order,
    then the other names in declaration order; hence in declaration order
    when no name is an array index. *)
Theorem contracted_components_of_resolved (config : ContractConfig) :
  NoDup (getContractedComponents (resolveConfig config))
  /\ (forall name,
        In name (getContractedComponents (resolveConfig config))
        <-> In name (keys (nullish (cfg_components config) [])))
  /\ (forall cs,
        cfg_components config = Some cs -> NoDup (keys cs) ->
        (exists indices,
            getContractedComponents (resolveConfig config)
            = indices ++ filter (fun name => negb (isArrayIndex name)) (keys cs)
            /\ Permutation indices (filter isArrayIndex (keys cs))
            /\ StronglySorted indexLe indices)
        /\ ((forall name, In name (keys cs) -> isArrayIndex name = false) ->
            getContractedComponents (resolveConfig config) = keys cs)).
Proof.
  unfold getContractedComponents, resolveConfig. cbn [rc_components].
  split; [|split].
  - destruct (cfg_components config) as [cs|]; [|constructor].
    apply (fold_set_keys resolveComponentContract (Object_entries cs) []).
    constructor.
  - intros name. apply (resolved_component_names config).
  - intros cs -> Hnd.
    assert (Hkeys :
              keys (fold_left
                      (fun acc '(name, contract) =>
                         JS.set String.eqb acc name
                           (resolveComponentContract contract))
                      (Object_entries cs) [])
              = keys (Object_entries cs)).
    { rewrite (fold_set_fresh resolveComponentContract (Object_entries cs) [])
        by (apply Object_entries_NoDup; exact Hnd).
      cbn [app]. unfold keys. rewrite map_map.
      apply map_ext. now intros [name x]. }
    rewrite Hkeys. split.
    + exists (map (fun p => fst (snd p)) (indexProperties cs)).
      split; [|split].
      * unfold Object_entries, namedProperties, keys.
        rewrite map_app, map_map. f_equal.
        clear. induction cs as [|e cs IH]; [reflexivity|].
        cbn [filter map]. destruct (isArrayIndex (fst e)); cbn [negb map];
          now rewrite IH.
      * apply indexProperties_names.
      * destruct (Object_entries_order cs) as (_ & Hsorted & Hindexed & _).
        apply (StronglySorted_map _ _ _ _) with (2 := Hsorted).
        intros p q Hp Hq Hpq i j Hi Hj.
        rewrite (proj1 (Forall_forall _ _) Hindexed p Hp) in Hi.
        rewrite (proj1 (Forall_forall _ _) Hindexed q Hq) in Hj.
        inversion Hi. inversion Hj. subst. exact Hpq.
    + intros Hnamed. now rewrite Object_entries_named.
Qed.

Lemma contracted_components_of_resolved_witness :
  getContractedComponents (resolveConfig sparseConfig) = ["Button"]
  /\ (exists indices,
        getContractedComponents (resolveConfig numberedComponents)
        = indices ++ ["B"; "A"]
        /\ Permutation indices ["1"])
  /\ getContractedComponents (resolveConfig numberedComponents)
     = ["1"; "B"; "A"].
Proof.
  split; [|split; [|reflexivity]].
  - apply (proj2 (proj2 (proj2 (contracted_components_of_resolved
                                  sparseConfig))
                    [("Button", {| cc_maxRenderTime := None;
                                   cc_maxRenderCount := Some 5;
                                   cc_maxMemoryDelta := None;
                                   cc_warningThreshold := None;
                                   cc_interactions := None;
                                   cc_meta := None |})]
                    eq_refl
                    ltac:(repeat constructor; simpl; tauto))).
    intros name [<-|[]]. reflexivity.
  - destruct (proj1 (proj2 (proj2 (contracted_components_of_resolved
                                     numberedComponents))
                       [("B", emptyComponentContract);
                        ("1", emptyComponentContract);
                        ("A", emptyComponentContract)]
                       eq_refl
                       ltac:(repeat constructor; simpl;
                             intuition discriminate)))
      as (indices & Hlist & Hindices & _).
    exists indices. split; [exact Hlist|exact Hindices].
Defined.

(** X6.  A component has a contract in the resolved configuration
    exactly when the configuration declares it: [hasContract] answers
    [true] for the declared names only, [validateContractSync] answers
    [null] for every other name, and for a declared name it validates
    against the declared contract with its defaults filled in. *)
Theorem declared_components_have_contracts (config : ContractConfig)
  (name : string) :
  (hasContract (resolveConfig config) name = true
   <-> In name (keys (nullish (cfg_components config) [])))
  /\ (forall m,
        validateContractSync name m (resolveConfig config) = None
        <-> ~ In name (keys (nullish (cfg_components config) [])))
  /\ (forall cs contract m,
        cfg_components config = Some cs -> NoDup (keys cs) ->
        In (name, contract) cs ->
        validateContractSync name m (resolveConfig config)
        = Some (validateAgainstContract name m
                  (resolveComponentContract contract))).
Proof.
  assert (Hhas : hasContract (resolveConfig config) name = true
                 <-> In name (keys (nullish (cfg_components config) []))).
  { unfold hasContract. rewrite Map_has_In.
    apply resolved_component_names. }
  split; [exact Hhas|]. split.
  - intros m. rewrite <- Hhas.
    unfold validateContractSync, getComponentContract, hasContract.
    rewrite Map_has_get.
    destruct (JS.get String.eqb (rc_components (resolveConfig config)) name);
      split; intros H; try reflexivity; try discriminate.
    now elim H.
  - intros cs contract m Hcs Hnd Hin. unfold validateContractSync.
    now rewrite (getComponentContract_resolved config cs name contract
                   Hcs Hnd Hin).
Qed.

(** No tested condition holds in a configuration [validateConfig]
    accepts. *)
Lemma accepted_checks (config : ContractConfig) :
  validateConfig config = [] ->
  forall rule, In rule (configChecks config) -> rule_broken rule = false.
Proof.
  rewrite validateConfig_checks. unfold brokenMessages.
  intros H rule Hin.
  destruct (rule_broken rule) eqn:E; [|reflexivity].
  assert (Hf : In rule (filter rule_broken (configChecks config)))
    by (apply filter_In; now split).
  destruct (filter rule_broken (configChecks config)); [contradiction|].
  discriminate.
Qed.

Lemma leb_infinity_zero : JS.le Infinity 0 = false.
Proof. reflexivity. Qed.

(** The budget of every comparison is one of the contract's budgets. *)
Lemma compared_budget m c rbt name a b :
  In (name, a, b)
     (componentComparisons m c ++ interactionComparisons rbt (interactions c)) ->
  b = maxRenderTime c \/ b = maxRenderCount c
  \/ exists k ib, In (k, ib) (interactions c) /\ maxRenders ib = Some b.
Proof.
  intros H. apply in_app_or in H. destruct H as [H|H].
  - unfold componentComparisons in H. apply in_app_or in H.
    destruct H as [H|H].
    + destruct (strict_neq (maxRenderTime c) Infinity); [|contradiction].
      destruct H as [H|[]]. inversion H. now left.
    + destruct (strict_neq (maxRenderCount c) Infinity); [|contradiction].
      destruct H as [H|[]]. inversion H. right. now left.
  - right. right. unfold interactionComparisons, entries in H.
    apply in_flat_map in H. destruct H as ([k ib] & Hin & H).
    destruct (maxRenders ib) as [mr|] eqn:E; [|contradiction].
    destruct H as [H|[]]. inversion H; subst. now exists k, ib.
Qed.

(** X11.  A component of a configuration that [validateConfig] accepts is
    never checked against a zero or negative budget: every budget its
    resolved contract is validated against is not [<= 0], hence positive
    unless it is [NaN]; and its warning threshold is not outside
    [[0, 1]]. *)
Theorem accepted_budgets_are_positive config cs name contract m :
  validateConfig config = [] ->
  cfg_components config = Some cs ->
  NoDup (keys cs) ->
  In (name, contract) cs ->
  NoDup (keys (nullish (cc_interactions contract) [])) ->
  exists resolved,
    getComponentContract (resolveConfig config) name = Some resolved
    /\ JS.lt (warningThreshold resolved) 0 = false
    /\ JS.gt (warningThreshold resolved) 1 = false
    /\ forall e,
         In e (checkedMetrics (validateAgainstContract name m resolved)) ->
         JS.le (budget (snd e)) 0 = false
         /\ (comparable (budget (snd e)) -> JS.gt (budget (snd e)) 0 = true).
Proof.
  intros Hvalid Hcs Hnd Hin Hndi.
  exists (resolveComponentContract contract).
  split; [exact (getComponentContract_resolved config cs name contract
                   Hcs Hnd Hin)|].
  assert (Hrules : forall rule,
             In rule (componentChecks (name, contract)) ->
             rule_broken rule = false).
  { intros rule Hrule. apply (accepted_checks config Hvalid).
    unfold configChecks. apply in_or_app. right. apply in_or_app. left.
    rewrite Hcs. cbn [nullish]. apply in_flat_map.
    exists (name, contract). split; [|exact Hrule].
    now apply Object_entries_In. }
  pose proof Hrules as Hrules'.
  cbn [componentChecks] in Hrules.
  assert (Htime : JS.le (maxRenderTime (resolveComponentContract contract)) 0
                  = false).
  { specialize (Hrules _ (or_introl eq_refl)). cbn [rule_broken] in Hrules.
    cbn [resolveComponentContract maxRenderTime].
    now destruct (cc_maxRenderTime contract). }
  assert (Hcount : JS.le (maxRenderCount (resolveComponentContract contract)) 0
                   = false).
  { specialize (Hrules _ (or_intror (or_introl eq_refl))).
    cbn [rule_broken] in Hrules.
    cbn [resolveComponentContract maxRenderCount].
    destruct (cc_maxRenderCount contract) as [c|]; [|reflexivity].
    cbn [defined_and nullish] in *.
    now apply orb_false_iff in Hrules. }
  assert (Hthreshold :
            JS.lt (warningThreshold (resolveComponentContract contract)) 0
            = false
            /\ JS.gt (warningThreshold (resolveComponentContract contract)) 1
               = false).
  { specialize (Hrules _ (or_intror (or_intror (or_introl eq_refl)))).
    cbn [rule_broken] in Hrules.
    cbn [resolveComponentContract warningThreshold].
    destruct (cc_warningThreshold contract) as [t|].
    - cbn [defined_and nullish] in *. now apply orb_false_iff in Hrules.
    - split; reflexivity. }
  assert (Hinter : forall k ib mr,
            In (k, ib) (interactions (resolveComponentContract contract)) ->
            maxRenders ib = Some mr -> JS.le mr 0 = false).
  { intros k ib mr Hk Hmr.
    cbn [resolveComponentContract interactions] in Hk.
    assert (Hr : In (interactionCheck name (k, ib))
                    (componentChecks (name, contract))).
    { cbn [componentChecks]. apply in_or_app. right.
      apply in_map. exact Hk. }
    apply Hrules' in Hr.
    cbn [interactionCheck rule_broken snd] in Hr. rewrite Hmr in Hr.
    exact Hr. }
  split; [exact (proj1 Hthreshold)|]. split; [exact (proj2 Hthreshold)|].
  intros e He.
  assert (Hle : JS.le (budget (snd e)) 0 = false).
  { destruct (validateAgainstContract_structure name m
                (resolveComponentContract contract) Hndi) as (Hc & _).
    rewrite Hc in He.
    assert (Hcmp : In (comparison_of e)
                      (map comparison_of
                         (performedChecks m
                            (resolveComponentContract contract))))
      by now apply in_map.
    rewrite performedChecks_comparisons in Hcmp.
    assert (Hcmp' : In (comparison_of e)
              (componentComparisons m (resolveComponentContract contract)
               ++ interactionComparisons (rendersByTypeOf m)
                    (interactions (resolveComponentContract contract)))).
    { apply in_app_or in Hcmp. apply in_or_app.
      destruct Hcmp as [Hcmp|Hcmp]; [now left|right].
      destruct m; [contradiction|exact Hcmp]. }
    unfold comparison_of in Hcmp'.
    apply compared_budget in Hcmp'.
    destruct Hcmp' as [->|[->|(k & ib & Hk & Hmr)]];
      [exact Htime|exact Hcount|exact (Hinter k ib _ Hk Hmr)]. }
  split; [exact Hle|].
  intros Hcb. unfold JS.gt, JS.le in *.
  destruct (0 <? budget (snd e)) eqn:E; [reflexivity|].
  apply not_gtb_leb in E.
  - congruence.
  - exact Hcb.
  - unfold comparable. vm_compute. discriminate.
Qed.

Lemma accepted_budgets_are_positive_witness :
  exists resolved,
    getComponentContract (resolveConfig sparseConfig) "Button" = Some resolved
    /\ JS.lt (warningThreshold resolved) 0 = false
    /\ JS.gt (warningThreshold resolved) 1 = false
    /\ forall e,
         In e (checkedMetrics
                 (validateAgainstContract "Button"
                    (PlainMetrics (sampleMetrics 3 14)) resolved)) ->
         JS.le (budget (snd e)) 0 = false
         /\ (comparable (budget (snd e)) -> JS.gt (budget (snd e)) 0 = true).
Proof.
  apply (accepted_budgets_are_positive sparseConfig
           [("Button", {| cc_maxRenderTime := None;
                          cc_maxRenderCount := Some 5;
                          cc_maxMemoryDelta := None;
                          cc_warningThreshold := None;
                          cc_interactions := None;
                          cc_meta := None |})]
           "Button"
           {| cc_maxRenderTime := None;
              cc_maxRenderCount := Some 5;
              cc_maxMemoryDelta := None;
              cc_warningThreshold := None;
              cc_interactions := None;
              cc_meta := None |}).
  - reflexivity.
  - reflexivity.
  - repeat constructor; simpl; tauto.
  - now left.
  - constructor.
Defined.

End ResolvedConfigurations.

(* ================================================================== *)
(** * The configuration cache *)
(* ================================================================== *)

Section ConfigurationCache.
Variable World : Type.
Variable loadConfig :
  option string -> World -> completion (option LoadedConfig) * World.

Lemma getConfig_hit searchFrom forceReload cache w resolved cache' w' :
  getConfig World loadConfig searchFrom forceReload cache w
  = (Return resolved, cache', w') ->
  cachedConfig cache' = Some resolved
  /\ forall searchFrom' w'',
       getConfig World loadConfig searchFrom' false cache' w''
       = (Return resolved, cache', w'').
Proof.
  intros H.
  assert (Hc : cachedConfig cache' = Some resolved).
  { unfold getConfig in H.
    destruct (cachedConfig cache) as [cached|] eqn:Ec;
      [destruct forceReload; cbn [negb] in H|].
    2:{ inversion H; subst. exact Ec. }
    all: destruct (loadConfig searchFrom w) as [[[loaded|]|e] w1];
      try discriminate;
      [destruct (Nat.ltb 0 (List.length (validateConfig (lc_config loaded))));
       [discriminate|]|];
      inversion H; subst; reflexivity. }
  split; [exact Hc|].
  intros searchFrom' w''. unfold getConfig. rewrite Hc. reflexivity.
Qed.

(** X12.  Once [getConfig] has returned a configuration, that
    configuration is cached: every later call that does not force a reload
    returns it again, whatever directory it is asked to search from,
    without consulting the loader and without touching the cache. *)
Theorem getConfig_is_cached searchFrom forceReload cache w resolved cache' w' :
  getConfig World loadConfig searchFrom forceReload cache w = (Return resolved, cache', w') ->
  cachedConfig cache' = Some resolved
  /\ forall searchFrom' w'',
       getConfig World loadConfig searchFrom' false cache' w'' = (Return resolved, cache', w'').
Proof. apply getConfig_hit. Qed.

(** X13.  A configuration in which [validateConfig] finds a fault is
    never cached and never returned: loading it throws the message that
    lists every fault, and leaves the cache as it was. *)
Theorem getConfig_rejects_invalid searchFrom forceReload cache w loaded w' :
  cachedConfig cache = None \/ forceReload = true ->
  loadConfig searchFrom w = (Return (Some loaded), w') ->
  validateConfig (lc_config loaded) <> [] ->
  getConfig World loadConfig searchFrom forceReload cache w
  = (Throw (invalidConfigurationMessage (validateConfig (lc_config loaded))),
     cache, w').
Proof.
  intros Hmiss Hload Hinvalid. unfold getConfig. rewrite Hload.
  assert (Hlen : Nat.ltb 0 (List.length (validateConfig (lc_config loaded)))
                 = true).
  { destruct (validateConfig (lc_config loaded)); [congruence|reflexivity]. }
  rewrite Hlen.
  destruct Hmiss as [->| ->]; [reflexivity|].
  now destruct (cachedConfig cache).
Qed.

Lemma accepted_default : accepted (resolveConfig emptyContractConfig).
Proof. exists emptyContractConfig. split; reflexivity. Qed.

Lemma getConfig_keeps_accepted searchFrom forceReload cache w :
  (forall c, cachedConfig cache = Some c -> accepted c) ->
  (cachedConfig cache = None -> cachedConfigPath cache = None) ->
  let '(result, cache', _) := getConfig World loadConfig searchFrom forceReload cache w in
  (forall c, cachedConfig cache' = Some c -> accepted c)
  /\ (cachedConfig cache' = None -> cachedConfigPath cache' = None)
  /\ (forall c, result = Return c -> accepted c).
Proof.
  intros Hacc Hpath. unfold getConfig.
  assert (Hload :
    let '(result, cache', _) :=
      match loadConfig searchFrom w with
      | (Throw e, w') => (Throw e, cache, w')
      | (Return None, w') =>
          (Return (resolveConfig emptyContractConfig),
           {| cachedConfig := Some (resolveConfig emptyContractConfig);
              cachedConfigPath := None |}, w')
      | (Return (Some loaded), w') =>
          if Nat.ltb 0 (List.length (validateConfig (lc_config loaded))) then
            (Throw (invalidConfigurationMessage
                      (validateConfig (lc_config loaded))), cache, w')
          else
            (Return (resolveConfig (lc_config loaded)),
             {| cachedConfig := Some (resolveConfig (lc_config loaded));
                cachedConfigPath := Some (filepath loaded) |}, w')
      end in
    (forall c, cachedConfig cache' = Some c -> accepted c)
    /\ (cachedConfig cache' = None -> cachedConfigPath cache' = None)
    /\ (forall c, result = Return c -> accepted c)).
  { destruct (loadConfig searchFrom w) as [[[loaded|]|e] w1].
    - destruct (validateConfig (lc_config loaded)) eqn:Ev; cbn.
      + assert (Ha : accepted (resolveConfig (lc_config loaded)))
          by now exists (lc_config loaded).
        repeat split; intros; try discriminate; congruence.
      + repeat split; try assumption. discriminate.
    - cbn. pose proof accepted_default.
      repeat split; intros; try discriminate; congruence.
    - repeat split; try assumption. discriminate. }
  destruct (cachedConfig cache) as [cached|] eqn:Ec; [|exact Hload].
  destruct forceReload; cbn [negb]; [exact Hload|].
  split; [|split].
  - intros c Hc. apply Hacc. congruence.
  - intros Hc. congruence.
  - intros c Hc. inversion Hc; subst. apply Hacc. reflexivity.
Qed.

Lemma reachable_invariant cache :
  CacheReachable World loadConfig cache ->
  (forall c, cachedConfig cache = Some c -> accepted c)
  /\ (cachedConfig cache = None -> cachedConfigPath cache = None).
Proof.
  induction 1 as [|cache _ _|cache searchFrom forceReload w _ [IH1 IH2]].
  - split; [discriminate|reflexivity].
  - split; [discriminate|reflexivity].
  - pose proof (getConfig_keeps_accepted searchFrom forceReload cache w
                  IH1 IH2) as H.
    destruct (getConfig World loadConfig searchFrom forceReload cache w) as [[result cache'] w'].
    cbn [fst snd]. tauto.
Qed.

(** X14.  Whatever sequence of [getConfig] and [clearConfigCache] calls
    went before, a configuration [getConfig] returns is the resolution of
    a declaration [validateConfig] accepts (the empty declaration when no
    file is found), and the remembered path is [null] whenever no
    configuration is cached. *)
Theorem getConfig_returns_accepted cache searchFrom forceReload w :
  CacheReachable World loadConfig cache ->
  (forall resolved cache' w',
      getConfig World loadConfig searchFrom forceReload cache w = (Return resolved, cache', w') ->
      accepted resolved)
  /\ (cachedConfig cache = None -> getConfigPath cache = None).
Proof.
  intros Hreach. destruct (reachable_invariant cache Hreach) as [Hacc Hpath].
  split; [|exact Hpath].
  intros resolved cache' w' H.
  pose proof (getConfig_keeps_accepted searchFrom forceReload cache w
                Hacc Hpath) as Hk.
  rewrite H in Hk. now apply Hk.
Qed.

(** X15.  When no configuration file is found, nothing is validated:
    [validateContract] answers [null] for every component and
    [validateMultiple] returns no result, and the default configuration
    is what is cached. *)
Theorem no_configuration_no_validation cache w w' name m results :
  cachedConfig cache = None ->
  loadConfig None w = (Return None, w') ->
  let defaults :=
    {| cachedConfig := Some (resolveConfig emptyContractConfig);
       cachedConfigPath := None |} in
  validateContract World loadConfig name m None cache w = (Return None, defaults, w')
  /\ validateMultiple World loadConfig results None cache w = (Return [], defaults, w')
  /\ rc_global (resolveConfig emptyContractConfig) = DEFAULT_GLOBAL_CONFIG
  /\ getContractedComponents (resolveConfig emptyContractConfig) = [].
Proof.
  intros Hc Hload defaults.
  unfold validateContract, validateMultiple,
    configOrLoaded, getConfig.
  rewrite Hc, Hload. cbn [bind].
  repeat split.
  f_equal. f_equal. f_equal.
  rewrite validateEach_flat_map.
  induction results as [|e results IH]; [reflexivity|exact IH].
Qed.

(** X16.  With the configuration omitted, the validator works from the
    cache: after [getConfig] has returned a configuration,
    [validateContract] and [validateMultiple] give what they give when
    handed that configuration, and neither consults the loader. *)
Theorem validation_uses_cached_configuration
  searchFrom forceReload cache w resolved cache' w' :
  getConfig World loadConfig searchFrom forceReload cache w = (Return resolved, cache', w') ->
  forall w'' name m results,
    validateContract World loadConfig name m None cache' w''
    = (Return (validateContractSync name m resolved), cache', w'')
    /\ validateContract World loadConfig name m (Some resolved) cache' w''
       = validateContract World loadConfig name m None cache' w''
    /\ validateMultiple World loadConfig results None cache' w''
       = (Return (validateEach results resolved), cache', w'')
    /\ validateMultiple World loadConfig results (Some resolved) cache' w''
       = validateMultiple World loadConfig results None cache' w''.
Proof.
  intros H w'' name m results.
  destruct (getConfig_hit _ _ _ _ _ _ _ H) as [_ Hhit].
  unfold validateContract, validateMultiple, configOrLoaded.
  rewrite (Hhit None w''). cbn [bind]. repeat split.
Qed.

End ConfigurationCache.

Section ConfigurationCacheExamples.
Local Open Scope float_scope.

Lemma getConfig_is_cached_witness :
  getConfig nat (searchFinds (Some sparseConfigFile)) None false initialCache 0%nat
  = (Return (resolveConfig sparseConfig),
     {| cachedConfig := Some (resolveConfig sparseConfig);
        cachedConfigPath := Some "/app/perf.contracts.ts" |}, 1%nat)
  /\ getConfig nat (searchFinds (Some sparseConfigFile)) (Some "/elsewhere")
       false
       {| cachedConfig := Some (resolveConfig sparseConfig);
          cachedConfigPath := Some "/app/perf.contracts.ts" |} 1%nat
     = (Return (resolveConfig sparseConfig),
        {| cachedConfig := Some (resolveConfig sparseConfig);
           cachedConfigPath := Some "/app/perf.contracts.ts" |}, 1%nat).
Proof.
  split; [reflexivity|].
  exact (proj2 (getConfig_is_cached nat (searchFinds (Some sparseConfigFile))
                  None false initialCache 0%nat _ _ _ eq_refl)
           (Some "/elsewhere") 1%nat).
Defined.

Lemma getConfig_rejects_invalid_witness :
  getConfig nat (searchFinds (Some scenarioDFile)) None true
    {| cachedConfig := Some (resolveConfig sparseConfig);
       cachedConfigPath := Some "/app/perf.contracts.ts" |} 0%nat
  = (Throw (invalidConfigurationMessage
              ["global.runs must be a positive integer";
               "X.maxRenderTime must be positive"]),
     {| cachedConfig := Some (resolveConfig sparseConfig);
        cachedConfigPath := Some "/app/perf.contracts.ts" |}, 1%nat).
Proof.
  apply (getConfig_rejects_invalid nat (searchFinds (Some scenarioDFile))
           None true _ 0%nat scenarioDFile 1%nat).
  - now right.
  - reflexivity.
  - discriminate.
Defined.

Lemma getConfig_returns_accepted_witness :
  accepted (resolveConfig sparseConfig).
Proof.
  apply (proj1 (getConfig_returns_accepted nat
                  (searchFinds (Some sparseConfigFile))
                  (clearConfigCache initialCache) None false 0%nat
                  (reachable_clear _ _ _ (reachable_initial _ _)))
           (resolveConfig sparseConfig)
           {| cachedConfig := Some (resolveConfig sparseConfig);
              cachedConfigPath := Some "/app/perf.contracts.ts" |}
           1%nat).
  reflexivity.
Defined.

Lemma no_configuration_no_validation_witness :
  validateContract nat (searchFinds None) "Button"
    (PlainMetrics (sampleMetrics 3 14)) None initialCache 0%nat
  = (Return None,
     {| cachedConfig := Some (resolveConfig emptyContractConfig);
        cachedConfigPath := None |}, 1%nat).
Proof.
  apply (no_configuration_no_validation nat (searchFinds None) initialCache
           0%nat 1%nat "Button" (PlainMetrics (sampleMetrics 3 14)) []).
  - reflexivity.
  - reflexivity.
Defined.

Lemma validation_uses_cached_configuration_witness :
  validateContract nat (searchFinds (Some sparseConfigFile)) "Button"
    (PlainMetrics (sampleMetrics 3 14)) None
    {| cachedConfig := Some (resolveConfig sparseConfig);
       cachedConfigPath := Some "/app/perf.contracts.ts" |} 1%nat
  = (Return (validateContractSync "Button" (PlainMetrics (sampleMetrics 3 14))
               (resolveConfig sparseConfig)),
     {| cachedConfig := Some (resolveConfig sparseConfig);
        cachedConfigPath := Some "/app/perf.contracts.ts" |}, 1%nat).
Proof.
  exact (proj1 (validation_uses_cached_configuration nat
                  (searchFinds (Some sparseConfigFile))
                  None false initialCache 0%nat _ _ _ eq_refl
                  1%nat "Button" (PlainMetrics (sampleMetrics 3 14)) [])).
Defined.

End ConfigurationCacheExamples.

(* ================================================================== *)
(** * The shared profiler context *)
(* ================================================================== *)

Section ProfilerContext.
Local Open Scope float_scope.

Lemma getSnapshot_copy (metrics : RenderMetrics) : getSnapshot metrics = metrics.
Proof. now destruct metrics. Qed.

Lemma recordAll_get calls :
  forall metricsMap name,
    JS.get String.eqb (recordAll calls metricsMap) name
    = match eventsOf name calls with
      | [] => JS.get String.eqb metricsMap name
      | events =>
          Some (afterRenders
                  (nullish (JS.get String.eqb metricsMap name)
                           (createProfiler name))
                  events)
      end.
Proof.
  induction calls as [|[n e] calls IH]; intros metricsMap name;
    [reflexivity|].
  cbn [recordAll fold_left]. fold (recordAll calls (recordRender metricsMap n e)).
  rewrite IH. unfold eventsOf. cbn [filter fst].
  destruct (String.eqb name n) eqn:E.
  - apply String.eqb_eq in E. subst n. cbn [map snd].
    unfold recordRender.
    rewrite (get_set_same String.eqb String.eqb_eq).
    fold (eventsOf name calls).
    assert (Hfresh :
      match JS.get String.eqb metricsMap name with
      | Some metrics => metrics
      | None =>
          {| rm_componentName := name; renderCount := 0;
             totalActualDuration := 0; totalBaseDuration := 0;
             rm_averageRenderTime := 0; renders := [] |}
      end
      = nullish (JS.get String.eqb metricsMap name) (createProfiler name)).
    { now destruct (JS.get String.eqb metricsMap name). }
    rewrite Hfresh.
    destruct (eventsOf name calls); reflexivity.
  - assert (Hne : name <> n).
    { intros ->. now rewrite String.eqb_refl in E. }
    unfold recordRender.
    rewrite (get_set_other String.eqb String.eqb_eq) by exact Hne.
    reflexivity.
Qed.

(** X17.  The shared profiler context keeps the components apart: what
    [getMetrics] reports for a component is what a profiler of its own,
    created by [createProfiler] and fed only that component's renders,
    would hold; a component that never rendered has no metrics, and after
    [resetAll] none has. *)
Theorem provider_tracks_each_component calls name :
  getMetrics (recordAll calls []) name
  = match eventsOf name calls with
    | [] => None
    | events => Some (afterRenders (createProfiler name) events)
    end
  /\ getMetrics (resetAll (recordAll calls [])) name = None.
Proof.
  split; [|reflexivity].
  unfold getMetrics. rewrite recordAll_get. cbn [JS.get nullish].
  destruct (eventsOf name calls); [reflexivity|].
  now rewrite getSnapshot_copy.
Qed.

End ProfilerContext.

(* ================================================================== *)
(** * Aggregating runs that differ *)
(* ================================================================== *)

Section AggregatingRuns.
Local Open Scope float_scope.

Lemma In_None_dec {A : Type} (xs : list (option A)) :
  In None xs \/ ~ In None xs.
Proof.
  induction xs as [|[x|] xs [IH|IH]]; simpl; try tauto.
  right. intros [H|H]; [discriminate|contradiction].
Qed.

Lemma fold_sum_defined_thrown {A : Type} (f : A -> number)
  (xs : list (option A)) (e : string) :
  fold_left
    (fun acc r =>
       do sum <- acc;
       match r with
       | Some r => Return (sum + f r)
       | None => Throw typeError
       end)
    xs (Throw e)
  = Throw e.
Proof. induction xs as [|x xs IH]; [reflexivity|exact IH]. Qed.

Lemma sum_of_defined_returns {A : Type} (f : A -> number)
  (xs : list (option A)) :
  ~ In None xs -> exists v, sum_of_defined f xs = Return v.
Proof.
  unfold sum_of_defined. generalize 0 as acc.
  induction xs as [|[x|] xs IH]; intros acc Hin; cbn [fold_left bind].
  - now exists acc.
  - apply IH. intros H. apply Hin. now right.
  - exfalso. apply Hin. now left.
Qed.

Lemma sum_of_defined_throws {A : Type} (f : A -> number)
  (xs : list (option A)) :
  In None xs -> sum_of_defined f xs = Throw typeError.
Proof.
  unfold sum_of_defined. generalize 0 as acc.
  induction xs as [|[x|] xs IH]; intros acc Hin; cbn [fold_left bind].
  - contradiction.
  - apply IH. destruct Hin as [Hin|Hin]; [discriminate|exact Hin].
  - apply fold_sum_defined_thrown.
Qed.

(** The aggregate at [index] exists exactly when every run has a result
    at [index]; it then bears the interaction of the first run. *)
Lemma aggregateInteraction_returns results first index :
  In first results ->
  (forall r, In r results -> nth_error (interactionResults r) index <> None) ->
  exists a firstResult,
    aggregateInteraction results first index = Return a
    /\ nth_error (interactionResults first) index = Some firstResult
    /\ interaction a = interaction firstResult.
Proof.
  intros Hfirst Hall. unfold aggregateInteraction.
  assert (Hdata : ~ In None
            (map (fun r => nth_error (interactionResults r) index) results)).
  { intros H. apply in_map_iff in H. destruct H as (r & Hr & Hin).
    now apply (Hall r Hin). }
  destruct (sum_of_defined_returns rendersTriggered _ Hdata) as [v1 ->].
  destruct (sum_of_defined_returns totalRenderTime _ Hdata) as [v2 ->].
  cbn [bind].
  destruct (nth_error (interactionResults first) index) as [fr|] eqn:E.
  - eexists. exists fr. repeat split.
  - exfalso. now apply (Hall first Hfirst).
Qed.

Lemma aggregateInteraction_throws results first index r :
  In r results -> nth_error (interactionResults r) index = None ->
  aggregateInteraction results first index = Throw typeError.
Proof.
  intros Hin Hnone. unfold aggregateInteraction.
  rewrite (sum_of_defined_throws rendersTriggered); [reflexivity|].
  apply in_map_iff. now exists r.
Qed.

Lemma aggregateInteraction_message results first index e :
  aggregateInteraction results first index = Throw e -> e = typeError.
Proof.
  unfold aggregateInteraction.
  destruct (In_None_dec
              (map (fun r => nth_error (interactionResults r) index) results))
    as [Hin|Hin].
  - rewrite (sum_of_defined_throws rendersTriggered _ Hin). cbn [bind].
    congruence.
  - destruct (sum_of_defined_returns rendersTriggered _ Hin) as [v1 ->].
    destruct (sum_of_defined_returns totalRenderTime _ Hin) as [v2 ->].
    cbn [bind].
    destruct (nth_error (interactionResults first) index);
      intros H; inversion H; reflexivity.
Qed.

Lemma mapi_from_returns {A B : Type} (f : A -> nat -> completion B)
  (R : A -> B -> Prop) :
  forall xs start,
    (forall i x, nth_error xs i = Some x ->
                 exists y, f x (start + i)%nat = Return y /\ R x y) ->
    exists ys, mapi_from f start xs = Return ys /\ Forall2 R xs ys.
Proof.
  induction xs as [|x xs IH]; intros start H; cbn [mapi_from].
  - exists []. split; [reflexivity|constructor].
  - destruct (H 0%nat x eq_refl) as (y & Hy & HR).
    rewrite Nat.add_0_r in Hy. rewrite Hy. cbn [bind].
    destruct (IH (S start)) as (ys & Hys & HF).
    { intros i x' Hi. destruct (H (S i) x' Hi) as (y' & Hy' & HR').
      exists y'. split; [|exact HR'].
      now rewrite Nat.add_succ_comm. }
    rewrite Hys. cbn [bind]. exists (y :: ys).
    split; [reflexivity|now constructor].
Qed.

Lemma mapi_from_throws {A B : Type} (f : A -> nat -> completion B)
  (e : string) :
  forall xs start,
    (forall i x e', nth_error xs i = Some x ->
                    f x (start + i)%nat = Throw e' -> e' = e) ->
    (exists i x e', nth_error xs i = Some x
                    /\ f x (start + i)%nat = Throw e') ->
    mapi_from f start xs = Throw e.
Proof.
  induction xs as [|x xs IH]; intros start Hmsg (i & x' & e' & Hi & He).
  - now destruct i.
  - cbn [mapi_from].
    destruct (f x start) as [y|e0] eqn:E.
    + cbn [bind]. rewrite (IH (S start)); [reflexivity| |].
      * intros j z e1 Hj Hz. apply (Hmsg (S j) z e1 Hj).
        now rewrite <- Nat.add_succ_comm.
      * destruct i as [|i].
        -- cbn in Hi. inversion Hi; subst.
           rewrite Nat.add_0_r in He. congruence.
        -- exists i, x', e'. split; [exact Hi|].
           now rewrite Nat.add_succ_comm.
    + cbn [bind]. f_equal. apply (Hmsg 0%nat x e0 eq_refl).
      now rewrite Nat.add_0_r.
Qed.

Lemma Forall2_interaction (xs ys : list InteractionResult) :
  Forall2 (fun x y => interaction y = interaction x) xs ys ->
  map interaction ys = map interaction xs.
Proof. induction 1; cbn [map]; congruence. Qed.

(** X18.  [aggregateResults] refuses an empty list; it needs every run to
    have performed at least as many interactions as the first one, and
    otherwise fails with a [TypeError]; when it returns, the aggregate has
    the interactions of the first run, in order (further results of longer
    runs are ignored), all the render events of all runs, and the name,
    timestamp and contract of the first run. *)
Theorem aggregateResults_needs_full_scripts now first rest :
  aggregateResults now [] = Throw "No results to aggregate"
  /\ ((forall r, In r rest ->
         (List.length (interactionResults first)
          <= List.length (interactionResults r))%nat) ->
      exists a,
        aggregateResults now (first :: rest) = Return a
        /\ map interaction (interactionResults a)
           = map interaction (interactionResults first)
        /\ renders (mi_metrics a)
           = flat_map (fun r => renders (mi_metrics r)) (first :: rest)
        /\ mi_componentName a = mi_componentName first
        /\ rm_componentName (mi_metrics a) = mi_componentName first
        /\ timestamp a = now
        /\ contractValidation a = contractValidation first)
  /\ ((exists r, In r rest
         /\ (List.length (interactionResults r)
             < List.length (interactionResults first))%nat) ->
      aggregateResults now (first :: rest) = Throw typeError).
Proof.
  split; [reflexivity|]. split.
  - intros Hlen.
    destruct (mapi_from_returns
                (fun _ index =>
                   aggregateInteraction (first :: rest) first index)
                (fun x y => interaction y = interaction x)
                (interactionResults first) 0%nat) as (ys & Hys & HF).
    { intros i x Hi. cbn [Nat.add].
      destruct (aggregateInteraction_returns (first :: rest) first i)
        as (a & fr & Ha & Hfr & Hint).
      - now left.
      - intros r [<-|Hr]; [congruence|].
        intros Hnone. apply nth_error_None in Hnone.
        specialize (Hlen r Hr).
        assert (Hi' : (i < List.length (interactionResults first))%nat)
          by (apply nth_error_Some; congruence).
        lia.
      - exists a. split; [exact Ha|]. congruence. }
    unfold aggregateResults. rewrite Hys. cbn [bind].
    eexists. split; [reflexivity|].
    cbn [interactionResults mi_metrics renders mi_componentName
         rm_componentName timestamp contractValidation].
    repeat split. now apply Forall2_interaction.
  - intros (r & Hr & Hshort).
    unfold aggregateResults.
    rewrite (mapi_from_throws _ typeError); [reflexivity| |].
    + intros i x e' _ He. exact (aggregateInteraction_message _ _ _ _ He).
    + destruct (nth_error (interactionResults first)
                  (List.length (interactionResults r))) as [x|] eqn:E.
      * exists (List.length (interactionResults r)), x, typeError.
        split; [exact E|]. cbn [Nat.add].
        apply (aggregateInteraction_throws _ _ _ r); [now right|].
        now apply nth_error_None.
      * apply nth_error_None in E. lia.
Qed.

Lemma aggregateResults_needs_full_scripts_witness :
  aggregateResults 0 [sampleMeasurement; runWithoutInteractions]
  = Throw typeError.
Proof.
  apply (aggregateResults_needs_full_scripts 0 sampleMeasurement
           [runWithoutInteractions]).
  exists runWithoutInteractions. split; [now left|]. cbn. lia.
Defined.

End AggregatingRuns.

(* ================================================================== *)
(** * Renders grouped by interaction kind *)
(* ================================================================== *)

Section RendersByType.
Local Open Scope float_scope.

Lemma groupRendersByType_keys_from (results : list InteractionResult) :
  forall acc : @object InteractionType number,
    NoDup (keys acc) ->
    let grouped :=
      fold_left
        (fun rendersByType result =>
           let type_ := is_type (interaction result) in
           JS.set InteractionType_eqb rendersByType type_
             (or_zero (JS.get InteractionType_eqb rendersByType type_)
              + rendersTriggered result))
        results acc in
    NoDup (keys grouped)
    /\ forall t, In t (keys grouped)
                 <-> In t (keys acc)
                     \/ exists r, In r results /\ is_type (interaction r) = t.
Proof.
  induction results as [|r results IH]; intros acc Hnd; cbn [fold_left].
  - split; [exact Hnd|]. intros t. split; [tauto|].
    intros [H|(r & [] & _)]. exact H.
  - cbv zeta.
    set (acc' := JS.set InteractionType_eqb acc (is_type (interaction r)) _).
    destruct (IH acc') as (Hnd' & Hin).
    { apply (keys_set_NoDup InteractionType_eqb InteractionType_eqb_eq).
      exact Hnd. }
    split; [exact Hnd'|].
    intros t. rewrite Hin. subst acc'.
    rewrite (keys_set_In InteractionType_eqb InteractionType_eqb_eq).
    split.
    + intros [[->|H]|(r' & Hr' & Ht)].
      * right. exists r. split; [now left|reflexivity].
      * now left.
      * right. exists r'. split; [now right|exact Ht].
    + intros [H|(r' & [<-|Hr'] & Ht)].
      * left. now right.
      * left. left. now symmetry.
      * right. now exists r'.
Qed.

Lemma zero_quotient (b : float) :
  exists s, Prim2SF (0 / b) = S754_zero s \/ Prim2SF (0 / b) = S754_nan.
Proof.
  rewrite div_spec. change (Prim2SF 0) with (S754_zero false).
  destruct (Prim2SF b) as [s|s| |s m e]; cbn.
  - exists false. now right.
  - exists (xorb false s). now left.
  - exists false. now right.
  - exists (xorb false s). now left.
Qed.

Lemma ltb_zero_sign (x y : float) (s : bool) :
  Prim2SF y = S754_zero s -> (x <? y) = (x <? 0).
Proof.
  intros H. rewrite !ltb_spec, H. change (Prim2SF 0) with (S754_zero false).
  unfold SFltb, SFcompare. now destruct (Prim2SF x) as [| | |[] ? ?].
Qed.

(** X19.  [rendersByType] has one entry per interaction kind that was
    performed, and none for the others.  A kind with a budget that was
    never performed is therefore checked with the value 0: whatever its
    budget, it cannot fail, and it passes unless the warning threshold is
    negative. *)
Theorem unperformed_interaction_never_fails
  (results : list InteractionResult) (t : InteractionType) (b wt : number) :
  let rendersByType := groupRendersByType results in
  NoDup (keys rendersByType)
  /\ (In t (keys rendersByType)
      <-> exists r, In r results /\ is_type (interaction r) = t)
  /\ ((forall r, In r results -> is_type (interaction r) <> t) ->
      let validation :=
        validateMetric (or_zero (JS.get InteractionType_eqb rendersByType t))
                       b wt in
      actual validation = 0
      /\ mv_status validation <> fail
      /\ (JS.lt wt 0 = false -> mv_status validation = pass)).
Proof.
  intros rendersByType. subst rendersByType. unfold groupRendersByType.
  destruct (groupRendersByType_keys_from results [] (NoDup_nil _))
    as (Hnd & Hin).
  cbv zeta in Hnd, Hin.
  split; [exact Hnd|]. split.
  - rewrite Hin. cbn [keys map In]. tauto.
  - intros Hnone.
    match goal with
    | |- context [JS.get InteractionType_eqb ?o t] =>
        assert (Hget : JS.get InteractionType_eqb o t = None)
    end.
    { apply (get_None_iff InteractionType_eqb InteractionType_eqb_eq).
      rewrite Hin. intros [[]|(r & Hr & Ht)]. exact (Hnone r Hr Ht). }
    rewrite Hget. change (or_zero (@None number)) with 0.
    unfold validateMetric, getStatusFromUtilization, JS.gt, JS.lt.
    cbn [actual mv_status].
    split; [reflexivity|].
    destruct (zero_quotient b) as (s & [Hz|Hn]).
    + rewrite (ltb_zero_sign 1 (0 / b) s Hz).
      rewrite (ltb_zero_sign wt (0 / b) s Hz).
      change (1 <? 0) with false. cbv iota.
      split.
      * destruct (wt <? 0); discriminate.
      * intros ->. reflexivity.
    + rewrite !(ltb_nan_r _ _ Hn). split; [discriminate|reflexivity].
Qed.

Lemma unperformed_interaction_never_fails_witness :
  mv_status
    (validateMetric
       (or_zero (JS.get InteractionType_eqb
                   (groupRendersByType [clickResult]) hover))
       2 0.8)
  = pass.
Proof.
  apply (unperformed_interaction_never_fails [clickResult] hover 2 0.8).
  - intros r [<-|[]]. discriminate.
  - reflexivity.
Defined.

End RendersByType.

(* ================================================================== *)
(** * Counting in binary64 *)
(* ================================================================== *)

Section IntegerCounts.
Local Open Scope Z_scope.

Lemma iter_xO_spec (m d : positive) :
  Z.pos (Pos.iter xO m d) = Z.pos m * 2 ^ Z.pos d.
Proof.
  induction d as [|d IH] using Pos.peano_ind.
  - cbn [Pos.iter]. rewrite Pos2Z.inj_xO. change (2 ^ 1) with 2. lia.
  - rewrite Pos.iter_succ, Pos2Z.inj_xO, IH, Pos2Z.inj_succ.
    rewrite Z.pow_succ_r by lia. ring.
Qed.

Lemma shl_align_spec (mx : positive) (ex ez : Z) :
  ez <= ex ->
  Z.pos (fst (shl_align mx ex ez)) = Z.pos mx * 2 ^ (ex - ez).
Proof.
  intros Hle. unfold shl_align.
  destruct (ez - ex) as [|p|p] eqn:E; try lia.
  - cbn [fst]. replace (ex - ez) with 0 by lia. change (2 ^ 0) with 1. lia.
  - cbn [fst]. rewrite iter_xO_spec. f_equal. f_equal. lia.
Qed.

Lemma Zdigits2_scaled (N k : Z) :
  0 < N -> 0 <= k -> Zdigits2 (N * 2 ^ k) = Zdigits2 N + k.
Proof.
  intros HN Hk.
  pose proof (Zdigits2_bounds N HN) as [Hlo Hhi].
  pose proof (Zdigits2_pos N HN) as Hd.
  assert (H2k : 0 < 2 ^ k) by (apply Z.pow_pos_nonneg; lia).
  apply Zdigits2_unique; [|nia].
  replace (Zdigits2 N + k - 1) with (Zdigits2 N - 1 + k) by lia.
  rewrite !Z.pow_add_r by lia. nia.
Qed.

Lemma shr_exact (p : positive) :
  forall M, 0 <= M ->
    SpecFloat.iter_pos shr_1 p (Build_shr_record (M * 2 ^ Z.pos p) false false)
    = Build_shr_record M false false.
Proof.
  assert (Hone : forall M, 0 <= M ->
            shr_1 (Build_shr_record (M * 2) false false)
            = Build_shr_record M false false).
  { intros M HM. rewrite shr_1_spec by lia.
    rewrite Z.div_mul by lia. rewrite Z.odd_mul. cbn.
    now rewrite andb_false_r. }
  induction p as [p IH|p IH|]; intros M HM; cbn [SpecFloat.iter_pos].
  - assert (H2p : 0 < 2 ^ Z.pos p) by (apply Z.pow_pos_nonneg; lia).
    replace (M * 2 ^ Z.pos p~1) with (M * 2 ^ Z.pos p * 2 ^ Z.pos p * 2).
    + rewrite Hone by nia. rewrite IH by nia. now apply IH.
    + replace (Z.pos p~1) with (Z.pos p + Z.pos p + 1) by lia.
      rewrite !Z.pow_add_r by lia. change (2 ^ 1) with 2. ring.
  - assert (H2p : 0 < 2 ^ Z.pos p) by (apply Z.pow_pos_nonneg; lia).
    replace (M * 2 ^ Z.pos p~0) with (M * 2 ^ Z.pos p * 2 ^ Z.pos p).
    + rewrite IH by nia. now apply IH.
    + replace (Z.pos p~0) with (Z.pos p + Z.pos p) by lia.
      rewrite !Z.pow_add_r by lia. ring.
  - change (2 ^ 1) with 2. now apply Hone.
Qed.

(** A mantissa that only carries zero bits below the target exponent is
    shifted without loss. *)
Lemma shr_fexp_exact (M e sh : Z) :
  0 < M -> 0 <= sh ->
  Z.max (Zdigits2 M + e + sh - 53) (-1074) = e + sh ->
  shr_fexp prec emax (M * 2 ^ sh) e loc_Exact
  = (Build_shr_record M false false, e + sh).
Proof.
  intros HM Hsh Hcanon. unfold shr_fexp.
  rewrite fexp64_eq, Zdigits2_scaled by lia.
  replace (Z.max (Zdigits2 M + sh + e - 53) (-1074) - e) with sh by lia.
  cbn [shr_record_of_loc]. unfold shr.
  destruct sh as [|p|p]; try lia.
  - change (2 ^ 0) with 1. rewrite Z.mul_1_r, Z.add_0_r. reflexivity.
  - rewrite shr_exact by lia. reflexivity.
Qed.

Lemma binary_round_aux_exact (s : bool) (M e sh : Z) :
  0 < M -> 0 <= sh ->
  Z.max (Zdigits2 M + e + sh - 53) (-1074) = e + sh ->
  e + sh <= 971 ->
  binary_round_aux prec emax s (M * 2 ^ sh) e loc_Exact
  = S754_finite s (Z.to_pos M) (e + sh).
Proof.
  intros HM Hsh Hcanon Hmax. unfold binary_round_aux.
  rewrite shr_fexp_exact by assumption.
  cbn [shr_m loc_of_shr_record round_nearest_even].
  replace M with (M * 2 ^ 0) at 1 by (change (2 ^ 0) with 1; lia).
  rewrite shr_fexp_exact by lia.
  cbn [shr_m]. rewrite Z.add_0_r.
  destruct M as [|p|p]; try lia.
  change (emax - prec) with 971.
  destruct (Z.leb_spec (e + sh) 971); [reflexivity|lia].
Qed.

Lemma Zdigits2_small (N : Z) :
  0 < N < 9007199254740992 -> 1 <= Zdigits2 N <= 53.
Proof.
  intros [HN Hlt]. pose proof (Zdigits2_pos N HN).
  assert (Zdigits2 N <= 53); [|lia].
  apply Zdigits2_le; [lia|].
  change (2 ^ 53) with 9007199254740992. lia.
Qed.

Lemma scaled_mantissa (N : Z) :
  0 < N < 9007199254740992 ->
  0 < N * 2 ^ (53 - Zdigits2 N)
  /\ Zdigits2 (N * 2 ^ (53 - Zdigits2 N)) = 53.
Proof.
  intros HN. pose proof (Zdigits2_small N HN) as Hd.
  assert (0 < 2 ^ (53 - Zdigits2 N)) by (apply Z.pow_pos_nonneg; lia).
  split; [nia|]. rewrite Zdigits2_scaled by lia. lia.
Qed.

(** Rounding an integer below [2^53], however it is scaled, yields its
    binary64 datum exactly. *)
Lemma binary_round_integer (s : bool) (N k : Z) :
  0 < N < 9007199254740992 -> 0 <= k ->
  binary_round prec emax s (Z.to_pos (N * 2 ^ k)) (- k)
  = S754_finite s (Z.to_pos (N * 2 ^ (53 - Zdigits2 N))) (Zdigits2 N - 53).
Proof.
  intros HN Hk.
  pose proof (Zdigits2_small N HN) as Hd.
  destruct (scaled_mantissa N HN) as [HMpos HMdig].
  assert (H2k : 0 < 2 ^ k) by (apply Z.pow_pos_nonneg; lia).
  assert (Hp : Z.pos (Z.to_pos (N * 2 ^ k)) = N * 2 ^ k)
    by (apply Z2Pos.id; nia).
  unfold binary_round.
  assert (Hdig : Z.pos (digits2_pos (Z.to_pos (N * 2 ^ k))) = Zdigits2 N + k).
  { change (Z.pos (digits2_pos (Z.to_pos (N * 2 ^ k))))
      with (Zdigits2 (Z.pos (Z.to_pos (N * 2 ^ k)))).
    rewrite Hp. apply Zdigits2_scaled; lia. }
  rewrite Hdig, fexp64_eq.
  replace (Z.max (Zdigits2 N + k + - k - 53) (-1074)) with (Zdigits2 N - 53)
    by lia.
  unfold shl_align.
  destruct (Zdigits2 N - 53 - - k) as [|q|q] eqn:E.
  - rewrite Hp.
    replace (N * 2 ^ k) with (N * 2 ^ (53 - Zdigits2 N) * 2 ^ 0).
    2:{ change (2 ^ 0) with 1. rewrite Z.mul_1_r. do 2 f_equal. lia. }
    rewrite binary_round_aux_exact by lia.
    f_equal. lia.
  - rewrite Hp.
    replace (N * 2 ^ k) with (N * 2 ^ (53 - Zdigits2 N) * 2 ^ Z.pos q).
    2:{ rewrite <- Z.mul_assoc, <- Z.pow_add_r by lia. do 2 f_equal. lia. }
    rewrite binary_round_aux_exact by lia.
    f_equal. lia.
  - rewrite iter_xO_spec, Hp.
    replace (N * 2 ^ k * 2 ^ Z.pos q)
      with (N * 2 ^ (53 - Zdigits2 N) * 2 ^ 0).
    2:{ change (2 ^ 0) with 1. rewrite Z.mul_1_r.
        rewrite <- Z.mul_assoc, <- Z.pow_add_r by lia. do 2 f_equal. lia. }
    rewrite binary_round_aux_exact by lia.
    f_equal. lia.
Qed.

Lemma binary_normalize_integer (N k : Z) :
  0 < N < 9007199254740992 -> 0 <= k ->
  binary_normalize prec emax (N * 2 ^ k) (- k) false = integerFloat N.
Proof.
  intros HN Hk.
  assert (H2k : 0 < 2 ^ k) by (apply Z.pow_pos_nonneg; lia).
  pose proof (binary_round_integer false N k HN Hk) as H.
  unfold binary_normalize, integerFloat.
  destruct (N * 2 ^ k) as [|p|p] eqn:E; try nia.
  exact H.
Qed.

Lemma valid_integerFloat (N : Z) :
  0 < N < 9007199254740992 -> valid_binary (integerFloat N) = true.
Proof.
  intros HN. pose proof (Zdigits2_small N HN) as Hd.
  destruct (scaled_mantissa N HN) as [HMpos HMdig].
  unfold integerFloat, SpecFloat.valid_binary, bounded, canonical_mantissa.
  change (Z.pos (digits2_pos (Z.to_pos (N * 2 ^ (53 - Zdigits2 N)))))
    with (Zdigits2 (Z.pos (Z.to_pos (N * 2 ^ (53 - Zdigits2 N))))).
  rewrite Z2Pos.id by lia. rewrite HMdig, fexp64_eq.
  apply andb_true_iff. split.
  - apply Z.eqb_eq. lia.
  - apply Z.leb_le. change (emax - prec) with 971. lia.
Qed.

Lemma Prim2SF_of_Z (N : Z) :
  0 < N < 9007199254740992 -> Prim2SF (of_Z N) = integerFloat N.
Proof.
  intros HN. unfold of_Z.
  replace N with (N * 2 ^ 0) at 1 by (change (2 ^ 0) with 1; lia).
  change 0 with (- 0) at 2.
  rewrite binary_normalize_integer by lia.
  apply Prim2SF_SF2Prim. now apply valid_integerFloat.
Qed.

Lemma Prim2SF_of_Z_zero : Prim2SF (of_Z 0) = S754_zero false.
Proof. reflexivity. Qed.

Lemma aligned_integer (N ez : Z) :
  0 < N < 9007199254740992 -> ez <= Zdigits2 N - 53 ->
  Z.pos (fst (shl_align (Z.to_pos (N * 2 ^ (53 - Zdigits2 N)))
                        (Zdigits2 N - 53) ez))
  = N * 2 ^ (- ez).
Proof.
  intros HN Hez. pose proof (Zdigits2_small N HN) as Hd.
  destruct (scaled_mantissa N HN) as [HMpos _].
  rewrite shl_align_spec by exact Hez.
  rewrite Z2Pos.id by exact HMpos.
  rewrite <- Z.mul_assoc, <- Z.pow_add_r by lia. do 2 f_equal. lia.
Qed.

(** Adding two counts is exact as long as the sum stays below [2^53]. *)
Lemma of_Z_add (a b : Z) :
  0 <= a -> 0 <= b -> a + b < 9007199254740992 ->
  (of_Z a + of_Z b)%float = of_Z (a + b).
Proof.
  intros Ha Hb Hsum. apply Prim2SF_inj. rewrite add_spec.
  destruct (Z.eq_dec a 0) as [->|Ha0]; [|destruct (Z.eq_dec b 0) as [->|Hb0]].
  - rewrite Prim2SF_of_Z_zero. cbn [Z.add].
    destruct (Z.eq_dec b 0) as [->|Hb0]; [reflexivity|].
    rewrite Prim2SF_of_Z by lia. reflexivity.
  - rewrite Prim2SF_of_Z_zero, Z.add_0_r.
    rewrite Prim2SF_of_Z by lia. reflexivity.
  - rewrite !Prim2SF_of_Z by lia.
    pose proof (Zdigits2_small a ltac:(lia)) as Hda.
    pose proof (Zdigits2_small b ltac:(lia)) as Hdb.
    unfold integerFloat at 1 2. unfold SF64add, SFadd. cbv zeta.
    set (ez := Z.min (Zdigits2 a - 53) (Zdigits2 b - 53)).
    rewrite !aligned_integer by lia.
    cbn [cond_Zopp]. rewrite <- Z.mul_add_distr_r.
    pose proof (binary_normalize_integer (a + b) (- ez)) as H.
    rewrite Z.opp_involutive in H. apply H; lia.
Qed.

(** Subtracting a smaller count is exact. *)
Lemma of_Z_sub (a b : Z) :
  0 <= b <= a -> a < 9007199254740992 ->
  (of_Z a - of_Z b)%float = of_Z (a - b).
Proof.
  intros Hab Ha. apply Prim2SF_inj. rewrite sub_spec.
  destruct (Z.eq_dec b 0) as [->|Hb0].
  - rewrite Prim2SF_of_Z_zero, Z.sub_0_r.
    destruct (Z.eq_dec a 0) as [->|Ha0]; [reflexivity|].
    rewrite Prim2SF_of_Z by lia. reflexivity.
  - rewrite !(Prim2SF_of_Z a), !(Prim2SF_of_Z b) by lia.
    pose proof (Zdigits2_small a ltac:(lia)) as Hda.
    pose proof (Zdigits2_small b ltac:(lia)) as Hdb.
    unfold integerFloat at 1 2. unfold SF64sub, SFsub. cbv zeta.
    set (ez := Z.min (Zdigits2 a - 53) (Zdigits2 b - 53)).
    rewrite !aligned_integer by lia.
    cbn [cond_Zopp]. rewrite <- Z.mul_sub_distr_r.
    destruct (Z.eq_dec a b) as [->|Hne].
    + rewrite Z.sub_diag. reflexivity.
    + rewrite (Prim2SF_of_Z (a - b)) by lia.
      pose proof (binary_normalize_integer (a - b) (- ez)) as H.
      rewrite Z.opp_involutive in H. apply H; lia.
Qed.

Lemma Zdigits2_monotone (a b : Z) :
  0 < a -> a <= b -> Zdigits2 a <= Zdigits2 b.
Proof.
  intros Ha Hab.
  pose proof (Zdigits2_bounds a Ha) as [Hlo _].
  pose proof (Zdigits2_bounds b ltac:(lia)) as [_ Hhi].
  destruct (Z_le_gt_dec (Zdigits2 a) (Zdigits2 b)) as [H|H]; [exact H|].
  assert (2 ^ Zdigits2 b <= 2 ^ (Zdigits2 a - 1))
    by (apply Z.pow_le_mono_r; lia).
  lia.
Qed.

Lemma integerFloat_compare_lt (a b : Z) :
  0 < a -> a < b -> b < 9007199254740992 ->
  SFcompare (integerFloat a) (integerFloat b) = Some Lt.
Proof.
  intros Ha Hab Hb.
  pose proof (Zdigits2_small a ltac:(lia)) as Hda.
  pose proof (Zdigits2_small b ltac:(lia)) as Hdb.
  pose proof (Zdigits2_monotone a b Ha ltac:(lia)) as Hmono.
  destruct (scaled_mantissa a ltac:(lia)) as [Hma _].
  destruct (scaled_mantissa b ltac:(lia)) as [Hmb _].
  unfold integerFloat, SFcompare. f_equal.
  destruct (Z.compare_spec (Zdigits2 a - 53) (Zdigits2 b - 53)) as [E|E|E];
    try lia; [|reflexivity].
  rewrite compare_cont_Eq. apply Pos.compare_lt_iff.
  match goal with
  | |- (?p < ?q)%positive => change (Z.pos p < Z.pos q)
  end.
  rewrite !Z2Pos.id by lia.
  replace (Zdigits2 b) with (Zdigits2 a) by lia.
  apply Z.mul_lt_mono_pos_r; [apply Z.pow_pos_nonneg; lia|exact Hab].
Qed.

(** Counts below [2^53] compare as the integers they are. *)
Lemma of_Z_compare (a b : Z) :
  0 <= a < 9007199254740992 -> 0 <= b < 9007199254740992 ->
  SFcompare (Prim2SF (of_Z a)) (Prim2SF (of_Z b)) = Some (a ?= b).
Proof.
  intros Ha Hb.
  destruct (Z.eq_dec a 0) as [->|Ha0]; [|destruct (Z.eq_dec b 0) as [->|Hb0]].
  - rewrite Prim2SF_of_Z_zero.
    destruct (Z.eq_dec b 0) as [->|Hb0]; [reflexivity|].
    rewrite Prim2SF_of_Z by lia. unfold integerFloat. cbn [SFcompare].
    f_equal. symmetry. apply Z.compare_lt_iff. lia.
  - rewrite Prim2SF_of_Z_zero, Prim2SF_of_Z by lia.
    unfold integerFloat. cbn [SFcompare].
    f_equal. symmetry. apply Z.compare_gt_iff. lia.
  - rewrite !Prim2SF_of_Z by lia.
    destruct (Z.compare_spec a b) as [->|Hlt|Hgt].
    + unfold integerFloat, SFcompare. rewrite Z.compare_refl.
      rewrite compare_cont_Eq, Pos.compare_refl. reflexivity.
    + apply integerFloat_compare_lt; lia.
    + rewrite SFcompare_swap, integerFloat_compare_lt by lia. reflexivity.
Qed.

Lemma of_Z_ltb (a b : Z) :
  0 <= a < 9007199254740992 -> 0 <= b < 9007199254740992 ->
  (of_Z a <? of_Z b)%float = (a <? b).
Proof.
  intros Ha Hb. rewrite ltb_spec. unfold SFltb, Z.ltb.
  rewrite of_Z_compare by assumption. reflexivity.
Qed.

Lemma of_Z_leb (a b : Z) :
  0 <= a < 9007199254740992 -> 0 <= b < 9007199254740992 ->
  (of_Z a <=? of_Z b)%float = (a <=? b).
Proof.
  intros Ha Hb. rewrite leb_spec. unfold SFleb, Z.leb.
  rewrite of_Z_compare by assumption. now destruct (a ?= b).
Qed.

Lemma of_Z_eqb (a b : Z) :
  0 <= a < 9007199254740992 -> 0 <= b < 9007199254740992 ->
  (of_Z a =? of_Z b)%float = (a =? b).
Proof.
  intros Ha Hb. rewrite FloatAxioms.eqb_spec. unfold SFeqb.
  rewrite of_Z_compare by assumption.
  destruct (Z.compare_spec a b) as [->|H|H];
    [now rewrite Z.eqb_refl|symmetry; apply Z.eqb_neq; lia ..].
Qed.

Lemma of_Z_integral (a : Z) :
  0 <= a < 9007199254740992 -> Number_isInteger (of_Z a) = true.
Proof.
  intros Ha. unfold Number_isInteger.
  destruct (Z.eq_dec a 0) as [->|Ha0]; [reflexivity|].
  rewrite Prim2SF_of_Z by lia. unfold integerFloat. cbv beta iota.
  pose proof (Zdigits2_small a ltac:(lia)) as Hd.
  destruct (scaled_mantissa a ltac:(lia)) as [Hm _].
  rewrite Z2Pos.id by exact Hm.
  apply orb_true_iff. right. apply Z.eqb_eq.
  replace (- (Zdigits2 a - 53)) with (53 - Zdigits2 a) by lia.
  apply Z.mod_mul.
  assert (0 < 2 ^ (53 - Zdigits2 a)) by (apply Z.pow_pos_nonneg; lia).
  lia.
Qed.

End IntegerCounts.

(* ================================================================== *)
(** * Aggregating copies of one run

    The aggregator computes every mean as [(0 + x + ... + x) / R], each
    step rounded.  For whole numbers below [2^53] the sum and its
    quotient by [R] are exact; so are the sum of two copies and its
    half. *)
(* ================================================================== *)

Section ExactMeans.
Local Open Scope Z_scope.

Lemma Zdigits2_product (a b : Z) :
  0 < a -> 0 < b -> Zdigits2 (a * b) <= Zdigits2 a + Zdigits2 b.
Proof.
  intros Ha Hb.
  pose proof (Zdigits2_bounds a Ha) as [_ Hhia].
  pose proof (Zdigits2_bounds b Hb) as [_ Hhib].
  pose proof (Zdigits2_pos a Ha). pose proof (Zdigits2_pos b Hb).
  apply Zdigits2_le; [lia|].
  rewrite Z.pow_add_r by lia. nia.
Qed.

(** The quotient of a whole number by one of its factors is computed
    exactly. *)
Lemma SFdiv_integerFloat (R n : Z) :
  0 < R -> 0 < n -> R * n < 9007199254740992 ->
  SFdiv prec emax (integerFloat (R * n)) (integerFloat R) = integerFloat n.
Proof.
  intros HR Hn Hbound.
  assert (HRn : 0 < R * n < 9007199254740992) by nia.
  assert (HR' : 0 < R < 9007199254740992) by nia.
  assert (Hn' : 0 < n < 9007199254740992) by nia.
  pose proof (Zdigits2_small _ HRn) as HdP.
  pose proof (Zdigits2_small _ HR') as HdR.
  pose proof (Zdigits2_small _ Hn') as Hdn.
  destruct (scaled_mantissa _ HRn) as [HmP HdigP].
  destruct (scaled_mantissa _ HR') as [HmR HdigR].
  destruct (scaled_mantissa _ Hn') as [Hmn Hdign].
  pose proof (Zdigits2_product R n HR Hn) as Hprod.
  assert (Hmono : Zdigits2 R <= Zdigits2 (R * n))
    by (apply Zdigits2_monotone; nia).
  set (dP := Zdigits2 (R * n)) in *.
  set (dR := Zdigits2 R) in *.
  set (dn := Zdigits2 n) in *.
  unfold integerFloat. fold dP dR dn.
  unfold SFdiv. rewrite SFdiv_core_binary_spec. cbv zeta.
  change (Z.pos (digits2_pos (Z.to_pos (R * n * 2 ^ (53 - dP)))))
    with (Zdigits2 (Z.pos (Z.to_pos (R * n * 2 ^ (53 - dP))))).
  change (Z.pos (digits2_pos (Z.to_pos (R * 2 ^ (53 - dR)))))
    with (Zdigits2 (Z.pos (Z.to_pos (R * 2 ^ (53 - dR))))).
  rewrite !Z2Pos.id by assumption.
  rewrite HdigP, HdigR, fexp64_eq.
  replace (Z.min (Z.max (53 + (dP - 53) - (53 + (dR - 53)) - 53) (-1074))
                 (dP - 53 - (dR - 53)))
    with (dP - dR - 53) by lia.
  replace (dP - 53 - (dR - 53) - (dP - dR - 53)) with 53 by lia.
  assert (Hexact : R * n * 2 ^ (53 - dP) * 2 ^ 53
                   = n * 2 ^ (53 - dn) * 2 ^ (dn - dP + dR)
                     * (R * 2 ^ (53 - dR))).
  { transitivity (R * n * 2 ^ (106 - dP)).
    - rewrite <- Z.mul_assoc, <- Z.pow_add_r by lia. do 2 f_equal. lia.
    - replace (106 - dP) with (53 - dn + (dn - dP + dR) + (53 - dR)) by lia.
      rewrite !Z.pow_add_r by lia. ring. }
  rewrite Hexact, Z.div_mul, Z.mod_mul by lia.
  rewrite new_location_exact. change (xorb false false) with false.
  rewrite binary_round_aux_exact.
  - f_equal. lia.
  - exact Hmn.
  - lia.
  - rewrite Hdign. lia.
  - lia.
Qed.

Lemma of_Z_div (R n : Z) :
  0 < R < 9007199254740992 -> 0 <= n -> R * n < 9007199254740992 ->
  (of_Z (R * n) / of_Z R)%float = of_Z n.
Proof.
  intros HR Hn Hbound. apply Prim2SF_inj. rewrite div_spec.
  rewrite (Prim2SF_of_Z R HR).
  destruct (Z.eq_dec n 0) as [->|Hn0].
  - rewrite Z.mul_0_r, Prim2SF_of_Z_zero. reflexivity.
  - rewrite !Prim2SF_of_Z by nia.
    apply SFdiv_integerFloat; lia.
Qed.

Lemma fold_sum_whole (n : Z) (R : nat) :
  forall a,
    0 <= a -> 0 <= n -> a + Z.of_nat R * n < 9007199254740992 ->
    fold_left (fun sum v => (sum + v)%float) (repeat (of_Z n) R) (of_Z a)
    = of_Z (a + Z.of_nat R * n).
Proof.
  induction R as [|R IH]; intros a Ha Hn Hbound; cbn [repeat fold_left].
  - f_equal. lia.
  - rewrite Nat2Z.inj_succ in *.
    rewrite of_Z_add by nia. rewrite IH by nia. f_equal. ring.
Qed.

(** The mean of [R] copies of a whole number is that number. *)
Lemma meanOfCopies_whole (R n : nat) :
  (1 <= R)%nat -> Z.of_nat R < 9007199254740992 ->
  Z.of_nat R * Z.of_nat n < 9007199254740992 ->
  meanOfCopies R (of_nat n) = of_nat n.
Proof.
  intros HR HR' Hbound. unfold meanOfCopies, sum_of, of_nat.
  change 0%float with (of_Z 0).
  rewrite fold_sum_whole by lia. rewrite Z.add_0_l.
  apply of_Z_div; lia.
Qed.
End ExactMeans.

(** ** One copy and two copies *)
Section SmallMeans.
Local Open Scope Z_scope.

(** Rounding a canonical mantissa that was scaled up gives it back. *)
Lemma round_canonical (s : bool) (m : positive) (e sh : Z) :
  bounded prec emax m e = true -> 0 <= sh ->
  binary_round_aux prec emax s (Z.pos m * 2 ^ sh) (e - sh) loc_Exact
  = S754_finite s m e.
Proof.
  intros Hb Hsh.
  destruct (bounded_facts m e Hb) as (Hd & He & Hcanon).
  change (Z.pos (digits2_pos m)) with (Zdigits2 (Z.pos m)) in *.
  rewrite binary_round_aux_exact; [f_equal; lia|lia|lia| |lia].
  lia.
Qed.

(** The same without the bound on the exponent: the result overflows
    to an infinity when the exponent is too large. *)
Lemma round_doubled (s : bool) (m : positive) (e : Z) :
  Zdigits2 (Z.pos m) = 53 -> -1074 <= e ->
  binary_round_aux prec emax s (Z.pos m * 2 ^ 1) e loc_Exact
  = if e + 1 <=? 971 then S754_finite s m (e + 1) else S754_infinity s.
Proof.
  intros Hd He. unfold binary_round_aux.
  rewrite shr_fexp_exact by lia.
  cbn [shr_m loc_of_shr_record round_nearest_even].
  replace (Z.pos m) with (Z.pos m * 2 ^ 0) at 1
    by (change (2 ^ 0) with 1; lia).
  rewrite shr_fexp_exact by lia.
  cbn [shr_m]. rewrite Z.add_0_r. reflexivity.
Qed.

(** Dividing by a power of two that the quotient can absorb is exact. *)
Lemma SFdiv_power_of_two (s : bool) (m mz : positive) (e ez k : Z) :
  bounded prec emax m e = true ->
  0 <= e + k - ez ->
  Z.pos mz = Z.pos m * 2 ^ (e + k - ez) ->
  Z.max (Zdigits2 (Z.pos mz) + ez - k - 54) (-1074) <= e ->
  SFdiv prec emax (S754_finite s mz ez)
                  (S754_finite false 4503599627370496 (k - 52))
  = S754_finite s m e.
Proof.
  intros Hb Hshift Hmz Hexp.
  destruct (bounded_facts m e Hb) as (Hd & He & Hcanon).
  unfold SFdiv. rewrite SFdiv_core_binary_spec. cbv zeta.
  change (Z.pos (digits2_pos mz)) with (Zdigits2 (Z.pos mz)).
  change (Z.pos (digits2_pos 4503599627370496)) with 53.
  rewrite fexp64_eq.
  set (e' := Z.min (Z.max (Zdigits2 (Z.pos mz) + ez - (53 + (k - 52)) - 53)
                          (-1074))
                   (ez - (k - 52))).
  assert (He' : e' <= e) by (subst e'; lia).
  assert (He'' : e' <= ez - (k - 52)) by (subst e'; lia).
  assert (Hq : Z.pos mz * 2 ^ (ez - (k - 52) - e')
               = Z.pos m * 2 ^ (e - e') * 4503599627370496).
  { rewrite Hmz. change 4503599627370496 with (2 ^ 52).
    rewrite <- !Z.mul_assoc, <- !Z.pow_add_r by lia.
    do 2 f_equal. lia. }
  rewrite Hq, Z.div_mul, Z.mod_mul by lia.
  rewrite new_location_exact. rewrite xorb_false_r.
  replace e' with (e - (e - e')) at 2 by lia.
  apply round_canonical; [exact Hb|lia].
Qed.

Lemma not_neg_zero (x : float) :
  x <> neg_zero -> Prim2SF x <> S754_zero true.
Proof.
  intros Hx H. apply Hx. apply Prim2SF_inj. rewrite H. reflexivity.
Qed.

(** Adding to the initial [0] of a sum. *)
Lemma zero_add (x : float) : x <> neg_zero -> (0 + x)%float = x.
Proof.
  intros Hx. apply not_neg_zero in Hx.
  apply Prim2SF_inj. rewrite add_spec.
  change (Prim2SF 0) with (S754_zero false).
  destruct (Prim2SF x) as [[]| | |]; try reflexivity. now elim Hx.
Qed.

Lemma div_one (x : float) : (x / 1)%float = x.
Proof.
  apply Prim2SF_inj. rewrite div_spec.
  change (Prim2SF 1) with (S754_finite false 4503599627370496 (0 - 52)).
  pose proof (Prim2SF_valid x) as Hvalid.
  destruct (Prim2SF x) as [s|s| |s m e].
  - cbn [SF64div SFdiv]. now rewrite xorb_false_r.
  - cbn [SF64div SFdiv]. now rewrite xorb_false_r.
  - reflexivity.
  - cbn [valid_binary] in Hvalid.
    destruct (bounded_facts m e Hvalid) as (Hd & He & Hcanon).
    change (Z.pos (digits2_pos m)) with (Zdigits2 (Z.pos m)) in *.
    apply SFdiv_power_of_two; [exact Hvalid|lia| |lia].
    replace (e + 0 - e) with 0 by lia. change (2 ^ 0) with 1. lia.
Qed.

(** The mean of one copy. *)
Lemma meanOfCopies_one (x : float) :
  x <> neg_zero -> meanOfCopies 1 x = x.
Proof.
  intros Hx. unfold meanOfCopies, sum_of. cbn [repeat fold_left].
  change (of_nat 1) with 1%float.
  now rewrite (zero_add x Hx), div_one.
Qed.

(** Twice a finite number. *)
Lemma SFadd_self (s : bool) (m : positive) (e : Z) :
  bounded prec emax m e = true ->
  SFadd prec emax (S754_finite s m e) (S754_finite s m e)
  = if Zdigits2 (Z.pos m) =? 53
    then if e + 1 <=? 971 then S754_finite s m (e + 1) else S754_infinity s
    else S754_finite s (m~0)%positive e.
Proof.
  intros Hb.
  destruct (bounded_facts m e Hb) as (Hd & He & Hcanon).
  change (Z.pos (digits2_pos m)) with (Zdigits2 (Z.pos m)) in *.
  unfold SFadd. cbv zeta. rewrite Z.min_id.
  assert (Halign : shl_align m e e = (m, e))
    by (unfold shl_align; now rewrite Z.sub_diag).
  rewrite Halign. cbn [fst].
  assert (Hsum : cond_Zopp s (Z.pos m) + cond_Zopp s (Z.pos m)
                 = cond_Zopp s (Z.pos m~0)) by (destruct s; cbn; lia).
  rewrite Hsum.
  assert (Hnorm : binary_normalize prec emax (cond_Zopp s (Z.pos m~0)) e false
                  = binary_round prec emax s (m~0)%positive e) by now destruct s.
  rewrite Hnorm. unfold binary_round.
  change (Z.pos (digits2_pos m~0)) with (Zdigits2 (Z.pos m~0)).
  assert (Hd2 : Zdigits2 (Z.pos m~0) = Zdigits2 (Z.pos m) + 1).
  { replace (Z.pos m~0) with (Z.pos m * 2 ^ 1)
      by (change (2 ^ 1) with 2; lia).
    apply Zdigits2_scaled; lia. }
  rewrite Hd2, fexp64_eq.
  assert (Hshift : shl_align (m~0)%positive e (Z.max (Zdigits2 (Z.pos m) + 1 + e - 53)
                                         (-1074))
                   = ((m~0)%positive, e)).
  { unfold shl_align.
    destruct (Z.max (Zdigits2 (Z.pos m) + 1 + e - 53) (-1074) - e) eqn:E;
      try reflexivity; lia. }
  rewrite Hshift.
  destruct (Z.eqb_spec (Zdigits2 (Z.pos m)) 53) as [H53|H53].
  - replace (Z.pos m~0) with (Z.pos m * 2 ^ 1)
      by (change (2 ^ 1) with 2; lia).
    apply round_doubled; [exact H53|lia].
  - replace (Z.pos m~0) with (Z.pos m~0 * 2 ^ 0)
      by (change (2 ^ 0) with 1; lia).
    replace e with (e + 0) at 1 by lia.
    rewrite binary_round_aux_exact; [f_equal; lia|lia|lia| |lia].
    rewrite Hd2. lia.
Qed.

(** The mean of two copies, when their sum does not overflow. *)
Lemma meanOfCopies_two (x : float) :
  x <> neg_zero ->
  (JS.is_finite x = true -> JS.is_finite (x + x)%float = true) ->
  meanOfCopies 2 x = x.
Proof.
  intros Hx Hfinite. unfold meanOfCopies, sum_of. cbn [repeat fold_left].
  change (of_nat 2) with 2%float.
  rewrite (zero_add x Hx).
  apply Prim2SF_inj. rewrite div_spec.
  unfold JS.is_finite in Hfinite. rewrite add_spec in *.
  change (Prim2SF 2) with (S754_finite false 4503599627370496 (1 - 52)).
  pose proof (Prim2SF_valid x) as Hvalid.
  apply not_neg_zero in Hx.
  destruct (Prim2SF x) as [s|s| |s m e].
  - destruct s; [now elim Hx|reflexivity].
  - destruct s; reflexivity.
  - reflexivity.
  - cbn [valid_binary] in Hvalid. specialize (Hfinite eq_refl).
    unfold SF64add in *. rewrite (SFadd_self s m e Hvalid) in *.
    destruct (bounded_facts m e Hvalid) as (Hd & He & Hcanon).
    change (Z.pos (digits2_pos m)) with (Zdigits2 (Z.pos m)) in *.
    destruct (Z.eqb_spec (Zdigits2 (Z.pos m)) 53) as [H53|H53].
    + destruct (Z.leb_spec (e + 1) 971) as [Hle|Hgt]; [|discriminate].
      apply SFdiv_power_of_two; [exact Hvalid|lia| |lia].
      replace (e + 1 - (e + 1)) with 0 by lia. change (2 ^ 0) with 1. lia.
    + assert (Hd2 : Zdigits2 (Z.pos m~0) = Zdigits2 (Z.pos m) + 1).
      { replace (Z.pos m~0) with (Z.pos m * 2 ^ 1)
          by (change (2 ^ 1) with 2; lia).
        apply Zdigits2_scaled; lia. }
      apply SFdiv_power_of_two; [exact Hvalid|lia| |lia].
      replace (e + 1 - e) with 1 by lia. change (2 ^ 1) with 2. lia.
Qed.
End SmallMeans.

(** ** What the aggregate of [R] copies holds *)
Section CopiesOfOneRun.
Local Open Scope float_scope.

Lemma whole_count_mean (R : nat) (x : number) :
  (1 <= R)%nat -> (Z.of_nat R < 9007199254740992)%Z ->
  wholeCount R x ->
  meanOfCopies R x = x /\ Math_round x = x.
Proof.
  intros HR HR' (n & -> & Hbound). split.
  - now apply meanOfCopies_whole.
  - apply Math_round_integral. apply of_Z_integral. nia.
Qed.

(** The aggregate of position [index] over copies of one run. *)
Lemma aggregateInteraction_copy (R : nat) (run : MeasureInteractionResult)
  (index : nat) (r : InteractionResult) :
  (1 <= R)%nat -> (Z.of_nat R < 9007199254740992)%Z ->
  nth_error (interactionResults run) index = Some r ->
  wholeCount R (rendersTriggered r) ->
  aggregateInteraction (repeat run R) run index
  = Return (meanOfInteraction R r).
Proof.
  intros HR HR' Hnth Hcount.
  destruct (whole_count_mean R _ HR HR' Hcount) as [Hmean Hround].
  unfold aggregateInteraction.
  rewrite map_repeat, Hnth, !sum_of_defined_repeat, repeat_length.
  cbn [bind].
  fold (meanOfCopies R (rendersTriggered r)).
  fold (meanOfCopies R (totalRenderTime r)).
  rewrite Hmean, Hround. reflexivity.
Qed.

Lemma mapi_from_map {A B : Type} (f : A -> nat -> completion B) (g : A -> B) :
  forall (xs : list A) (start : nat),
    (forall i x, nth_error xs i = Some x ->
                 f x (start + i)%nat = Return (g x)) ->
    mapi_from f start xs = Return (map g xs).
Proof.
  induction xs as [|x xs IH]; intros start H; cbn [mapi_from map];
    [reflexivity|].
  rewrite <- (Nat.add_0_r start) at 1. rewrite (H 0%nat x eq_refl).
  cbn [bind]. rewrite IH; [reflexivity|].
  intros i y Hy. rewrite Nat.add_succ_l, <- Nat.add_succ_r. now apply H.
Qed.

Lemma sum_of_rendersTriggered_mean (R : nat) (results : list InteractionResult) :
  sum_of rendersTriggered (map (meanOfInteraction R) results)
  = sum_of rendersTriggered results.
Proof.
  unfold sum_of. generalize 0.
  induction results as [|r results IH]; intros acc; cbn [map fold_left];
    [reflexivity|apply IH].
Qed.

Lemma groupRendersByType_mean (R : nat) (results : list InteractionResult) :
  groupRendersByType (map (meanOfInteraction R) results)
  = groupRendersByType results.
Proof.
  unfold groupRendersByType.
  generalize (@nil (InteractionType * number)).
  induction results as [|r results IH]; intros acc; cbn [map fold_left];
    [reflexivity|apply IH].
Qed.

Lemma aggregate_copies (R : nat) (name : string)
  (options : MeasureInteractionOptions) (snapshot : RenderMetrics)
  (results : list InteractionResult) (now now' : number) :
  (1 <= R)%nat -> (Z.of_nat R < 9007199254740992)%Z ->
  wholeCount R (renderCount snapshot) ->
  (forall r, In r results -> wholeCount R (rendersTriggered r)) ->
  let run := runResult name options snapshot results now in
  exists aggregate,
    aggregateResults now' (repeat run R) = Return aggregate
    /\ renderCount (mi_metrics aggregate) = renderCount snapshot
    /\ totalActualDuration (mi_metrics aggregate)
       = meanOfCopies R (totalActualDuration snapshot)
    /\ totalBaseDuration (mi_metrics aggregate)
       = meanOfCopies R (totalBaseDuration snapshot)
    /\ rm_averageRenderTime (mi_metrics aggregate)
       = derivedAverage (meanOfCopies R (totalActualDuration snapshot))
                        (renderCount snapshot)
    /\ interactionResults aggregate = map (meanOfInteraction R) results
    /\ totalRenders aggregate = totalRenders run
    /\ rendersByType aggregate = rendersByType run.
Proof.
  intros HR HR' Hsnapshot Hresults run.
  destruct (whole_count_mean R _ HR HR' Hsnapshot) as [Hmean Hround].
  assert (Hinteractions :
            mapi_from (fun _ index =>
                         aggregateInteraction (repeat run R) run index)
                      0 (interactionResults run)
            = Return (map (meanOfInteraction R) results)).
  { apply (mapi_from_map _ (meanOfInteraction R)). intros i r Hnth.
    apply aggregateInteraction_copy; [exact HR|exact HR'|exact Hnth|].
    apply Hresults. exact (nth_error_In _ _ Hnth). }
  unfold aggregateResults.
  destruct R as [|R']; [lia|].
  change (repeat run (S R')) with (run :: repeat run R') at 1.
  cbv beta iota.
  change (run :: repeat run R') with (repeat run (S R')).
  rewrite Hinteractions. cbn [bind].
  eexists. split; [reflexivity|].
  cbn [mi_metrics renderCount totalActualDuration totalBaseDuration
       rm_averageRenderTime interactionResults totalRenders rendersByType].
  rewrite !mean_of_repeat.
  change (mi_metrics run) with snapshot.
  rewrite Hmean, Hround.
  rewrite sum_of_rendersTriggered_mean, groupRendersByType_mean.
  repeat split; reflexivity.
Qed.

(** C8 (amended). When the requested run count is 1, [measureInteraction]
    returns the sole run's result unchanged, with no averaging pass.  For
    every [R >= 1], aggregating [R] copies of a run built by the
    measurement loop, whose counts are whole numbers, yields the same
    [renderCount], the same interactions with the same [rendersTriggered],
    the same [totalRenders] and the same [rendersByType] as the run.
    Each duration ([totalActualDuration], [totalBaseDuration], the
    [totalRenderTime] of an interaction) is the binary64 mean
    [(0 + x + ... + x) / R] of the run's value [x], and each
    [averageRenderTime] is that mean divided by the count, or 0 when the
    count is not positive.  That mean is [x] itself for one copy, for two
    copies whose sum does not overflow ([x] not being [-0]), and for any
    number of copies of a whole number; three copies of [0.1] show that
    it is not [x] in general. *)
Theorem aggregation_laws :
  (forall (World : Type) performRun (Date_now : World -> number) fuel name
          options w w' snapshot results,
      nullish (opt_runs options) 1 = 1 ->
      performRun (opt_interactions options) w
      = (Return (snapshot, results), w') ->
      measureInteraction World performRun Date_now (S fuel) name options w
      = Some (Return (runResult name options snapshot results (Date_now w')),
              w'))
  /\ (forall R name options snapshot results now now',
        (1 <= R)%nat -> (Z.of_nat R < 9007199254740992)%Z ->
        wholeCount R (renderCount snapshot) ->
        (forall r, In r results -> wholeCount R (rendersTriggered r)) ->
        let run := runResult name options snapshot results now in
        exists aggregate,
          aggregateResults now' (repeat run R) = Return aggregate
          /\ renderCount (mi_metrics aggregate) = renderCount (mi_metrics run)
          /\ map interaction (interactionResults aggregate)
             = map interaction (interactionResults run)
          /\ map rendersTriggered (interactionResults aggregate)
             = map rendersTriggered (interactionResults run)
          /\ totalRenders aggregate = totalRenders run
          /\ rendersByType aggregate = rendersByType run
          /\ totalActualDuration (mi_metrics aggregate)
             = meanOfCopies R (totalActualDuration (mi_metrics run))
          /\ totalBaseDuration (mi_metrics aggregate)
             = meanOfCopies R (totalBaseDuration (mi_metrics run))
          /\ rm_averageRenderTime (mi_metrics aggregate)
             = derivedAverage
                 (meanOfCopies R (totalActualDuration (mi_metrics run)))
                 (renderCount (mi_metrics run))
          /\ interactionResults aggregate
             = map (meanOfInteraction R) (interactionResults run))
  /\ (forall R n,
        (1 <= R)%nat -> (Z.of_nat R < 9007199254740992)%Z ->
        (Z.of_nat R * Z.of_nat n < 9007199254740992)%Z ->
        meanOfCopies R (of_nat n) = of_nat n)
  /\ (forall x, x <> neg_zero -> meanOfCopies 1 x = x)
  /\ (forall x,
        x <> neg_zero ->
        (JS.is_finite x = true -> JS.is_finite (x + x) = true) ->
        meanOfCopies 2 x = x).
Proof.
  split; [|split; [|split; [|split]]].
  - intros. now apply single_run_returned_unchanged.
  - intros R name options snapshot results now now' HR HR' Hs Hr run.
    destruct (aggregate_copies R name options snapshot results now now'
                HR HR' Hs Hr)
      as (aggregate & Hagg & Hcount & Hactual & Hbase & Havg & Hint & Htotal
          & Hby).
    exists aggregate. fold run in Htotal, Hby.
    change (mi_metrics run) with snapshot.
    change (interactionResults run) with results.
    repeat split; try assumption.
    + rewrite Hint, map_map. reflexivity.
    + rewrite Hint, map_map. reflexivity.
  - intros. now apply meanOfCopies_whole.
  - exact meanOfCopies_one.
  - exact meanOfCopies_two.
Qed.

Lemma aggregation_laws_witness :
  let run := runResult "Button" clickOptions clickSnapshot [clickResult] 0 in
  measureInteraction unit clickWorld_performRun clickWorld_Date_now 1
    "Button" clickOptions tt
  = Some (Return run, tt)
  /\ (exists aggregate,
        aggregateResults 0 (repeat run 3) = Return aggregate
        /\ renderCount (mi_metrics aggregate) = 3
        /\ map rendersTriggered (interactionResults aggregate) = [2]
        /\ rendersByType aggregate = [(click, 2)]
        /\ totalActualDuration (mi_metrics aggregate) = 1)
  /\ (exists aggregate,
        aggregateResults 0 (repeat tenthOfMillisecondRun 3) = Return aggregate
        /\ renderCount (mi_metrics aggregate) = 1
        /\ totalActualDuration (mi_metrics aggregate)
           = 0.10000000000000002)
  /\ meanOfCopies 2 0.1 = 0.1.
Proof.
  cbv zeta.
  destruct aggregation_laws as (Hsingle & Hcopies & _ & _ & Htwo).
  split; [|split; [|split]].
  - apply (Hsingle unit clickWorld_performRun clickWorld_Date_now 0%nat
             "Button" clickOptions tt tt clickSnapshot [clickResult]);
      reflexivity.
  - destruct (Hcopies 3%nat "Button" clickOptions clickSnapshot [clickResult]
                0 0)
      as (aggregate & Hagg & Hcount & _ & Htriggered & _ & Hby & Hactual & _).
    + lia.
    + cbn. lia.
    + exists 3%nat. split; [reflexivity|cbn; lia].
    + intros r [<-|[]]. exists 2%nat. split; [reflexivity|cbn; lia].
    + exists aggregate. split; [exact Hagg|].
      split; [rewrite Hcount; reflexivity|].
      split; [rewrite Htriggered; reflexivity|].
      split; [rewrite Hby; reflexivity|].
      rewrite Hactual. reflexivity.
  - destruct (Hcopies 3%nat "Button" noInteractions
                (onRenderCallback (createProfiler "Button") (mountEvent 0.1))
                [] 0 0)
      as (aggregate & Hagg & Hcount & _ & _ & _ & _ & Hactual & _).
    + lia.
    + cbn. lia.
    + exists 1%nat. split; [reflexivity|cbn; lia].
    + intros r [].
    + exists aggregate. split; [exact Hagg|].
      split; [rewrite Hcount; reflexivity|].
      rewrite Hactual. reflexivity.
  - apply Htwo.
    + intros H. apply (f_equal Prim2SF) in H. vm_compute in H.
      discriminate H.
    + intros _. reflexivity.
Defined.

End CopiesOfOneRun.

(* ================================================================== *)
(** * What a profiler has counted *)
(* ================================================================== *)

Section ProfilerCounts.
Local Open Scope float_scope.

Lemma of_nat_succ (n : nat) :
  (Z.of_nat (S n) < 9007199254740992)%Z -> of_nat n + 1 = of_nat (S n).
Proof.
  intros Hn. unfold of_nat. change 1 with (of_Z 1).
  rewrite of_Z_add by lia. f_equal. lia.
Qed.

Lemma afterRenders_from (events : list RenderEvent) :
  forall (metrics : RenderMetrics) (k : nat),
    renderCount metrics = of_nat k ->
    (Z.of_nat (k + List.length events) < 9007199254740992)%Z ->
    let after := afterRenders metrics events in
    renderCount after = of_nat (k + List.length events)
    /\ renders after = renders metrics ++ events
    /\ rm_componentName after = rm_componentName metrics
    /\ totalActualDuration after
       = fold_left (fun sum e => sum + actualDuration e) events
                   (totalActualDuration metrics)
    /\ totalBaseDuration after
       = fold_left (fun sum e => sum + baseDuration e) events
                   (totalBaseDuration metrics).
Proof.
  unfold afterRenders.
  induction events as [|e events IH]; intros metrics k Hk Hbound;
    cbn [fold_left List.length].
  - rewrite Nat.add_0_r, app_nil_r. now repeat split.
  - cbn [List.length] in Hbound.
    destruct (IH (onRenderCallback metrics e) (S k)) as (Hc & Hr & Hn & Ha & Hb).
    + cbn [onRenderCallback renderCount]. rewrite Hk.
      apply of_nat_succ. lia.
    + rewrite Nat.add_succ_comm. exact Hbound.
    + rewrite Hc, Hr, Hn, Ha, Hb.
      cbn [onRenderCallback renders rm_componentName totalActualDuration
           totalBaseDuration].
      rewrite <- app_assoc, Nat.add_succ_comm. now repeat split.
Qed.

(** X20.  A profiler counts commits: after React has reported a sequence
    of renders to a fresh profiler, [renderCount] is the number of renders
    reported, [renders] lists them in order, the two totals are the sums
    of their durations, the average is the total over the count, and
    [reset] brings back the fresh profiler. *)
Theorem profiler_counts_commits (name : string) (events : list RenderEvent) :
  (Z.of_nat (List.length events) < 9007199254740992)%Z ->
  let metrics := afterRenders (createProfiler name) events in
  renderCount metrics = of_nat (List.length events)
  /\ renders metrics = events
  /\ rm_componentName metrics = name
  /\ totalActualDuration metrics = sum_of actualDuration events
  /\ totalBaseDuration metrics = sum_of baseDuration events
  /\ (events <> [] ->
      rm_averageRenderTime metrics
      = totalActualDuration metrics / renderCount metrics)
  /\ getSnapshot metrics = metrics
  /\ reset metrics = createProfiler name.
Proof.
  intros Hbound metrics.
  destruct (afterRenders_from events (createProfiler name) 0 eq_refl Hbound)
    as (Hc & Hr & Hn & Ha & Hb).
  fold metrics in Hc, Hr, Hn, Ha, Hb.
  repeat split; try assumption.
  - intros Hne. subst metrics. unfold afterRenders.
    destruct (exists_last Hne) as (front & e & ->).
    rewrite fold_left_app. reflexivity.
  - apply getSnapshot_copy.
  - unfold reset. rewrite Hn. reflexivity.
Qed.

Lemma profiler_counts_commits_witness :
  renderCount clickSnapshot = 3 /\ renders clickSnapshot <> [].
Proof.
  split.
  - apply (profiler_counts_commits "Button"
             [mountEvent 0.5;
              {| phase := update; actualDuration := 0.25;
                 baseDuration := 0.25; startTime := 1; commitTime := 2 |};
              {| phase := update; actualDuration := 0.25;
                 baseDuration := 0.25; startTime := 2; commitTime := 3 |}]).
    cbn. lia.
  - discriminate.
Defined.

End ProfilerCounts.

(* ================================================================== *)
(** * Measuring with a private profiler *)
(* ================================================================== *)

Section PrivateProfiler.
Local Open Scope float_scope.
Variables World T : Type.
Variable renderFn : World -> completion T * World.
Variable scenario : option (World -> completion unit * World).

Let fresh : RenderMetrics := createProfiler "measured-component".

Lemma renderOnce_resets profiler w r profiler' w' :
  renderOnce World T renderFn scenario profiler w
  = (Return (r, profiler'), w') ->
  profiler' = reset profiler.
Proof.
  unfold renderOnce.
  destruct (renderFn w) as [[result|e] w1]; [|discriminate].
  destruct scenario as [sc|].
  - destruct (sc w1) as [[u|e] w2]; [|discriminate].
    intros H. now inversion H.
  - intros H. now inversion H.
Qed.

Lemma warmupLoop_fresh fuel warmupRuns :
  forall i result w profiler' result' w',
    warmupLoop World T renderFn scenario fuel warmupRuns i fresh result w
    = Some (Return (profiler', result'), w') ->
    profiler' = fresh.
Proof.
  induction fuel as [|fuel IH]; intros i result w profiler' result' w';
    cbn [warmupLoop]; destruct (JS.lt i warmupRuns); try discriminate.
  - intros H. now inversion H.
  - destruct (renderOnce World T renderFn scenario fresh w)
      as [[[r p]|e] w1] eqn:E; [|discriminate].
    apply renderOnce_resets in E. subst p. apply IH.
  - intros H. now inversion H.
Qed.

Lemma measurementLoop_fresh fuel runs :
  forall i result allRuns w result' allRuns' w',
    Forall (fun run => run = fresh) allRuns ->
    measurementLoop World T renderFn scenario fuel runs i fresh result
      allRuns w
    = Some (Return (result', allRuns'), w') ->
    Forall (fun run => run = fresh) allRuns'.
Proof.
  induction fuel as [|fuel IH];
    intros i result allRuns w result' allRuns' w' Hall;
    cbn [measurementLoop]; destruct (JS.lt i runs); try discriminate.
  - intros H. now inversion H; subst.
  - destruct (renderOnce World T renderFn scenario fresh w)
      as [[[r p]|e] w1] eqn:E; [|discriminate].
    apply renderOnce_resets in E. subst p. apply IH.
    apply Forall_app. split; [exact Hall|].
    constructor; [reflexivity|constructor].
  - intros H. now inversion H; subst.
Qed.

Lemma aggregateRuns_fresh (runs : list RenderMetrics) :
  Forall (fun run => run = fresh) runs -> aggregateRuns runs = fresh.
Proof.
  intros Hall. unfold aggregateRuns.
  assert (Hfold :
    fold_left
      (fun aggregatedMetrics run =>
         {| rm_componentName := rm_componentName aggregatedMetrics;
            renderCount := renderCount aggregatedMetrics + renderCount run;
            totalActualDuration :=
              totalActualDuration aggregatedMetrics + totalActualDuration run;
            totalBaseDuration :=
              totalBaseDuration aggregatedMetrics + totalBaseDuration run;
            rm_averageRenderTime := rm_averageRenderTime aggregatedMetrics;
            renders := renders aggregatedMetrics ++ renders run |})
      runs fresh = fresh).
  { induction Hall as [|run runs -> _ IH]; [reflexivity|exact IH]. }
  change {| rm_componentName := "measured-component"; renderCount := 0;
            totalActualDuration := 0; totalBaseDuration := 0;
            rm_averageRenderTime := 0; renders := [] |} with fresh.
  rewrite Hfold. reflexivity.
Qed.

(** X21.  [measureRendersWithProfiler] creates its profiler itself and
    hands it to nobody, so nothing is ever reported to it: whatever
    [renderFn] and [scenario] do, and however many runs are asked for,
    every snapshot in [allRuns] and the aggregated metrics are those of a
    profiler that saw no render.  With the default options, one call of
    [renderFn] that returns gives exactly one such snapshot. *)
Theorem measureRendersWithProfiler_reports_nothing :
  (forall fuel options w out w',
      measureRendersWithProfiler World T renderFn scenario fuel options w
      = Some (Return out, w') ->
      pm_metrics out = fresh
      /\ Forall (fun run => run = fresh) (allRuns out))
  /\ (forall fuel w r profiler' w',
        renderOnce World T renderFn scenario fresh w
        = (Return (r, profiler'), w') ->
        measureRendersWithProfiler World T renderFn scenario (S fuel)
          {| pro_runs := None; pro_warmupRuns := None |} w
        = Some (Return {| pm_result := Some r;
                          pm_metrics := fresh;
                          allRuns := [fresh] |}, w')).
Proof.
  split.
  - intros fuel options w out w'. unfold measureRendersWithProfiler.
    fold fresh.
    destruct (warmupLoop World T renderFn scenario fuel _ 0 fresh None w)
      as [[[[p r]|e] w1]|] eqn:Ewarm; try discriminate.
    apply warmupLoop_fresh in Ewarm. subst p.
    destruct (measurementLoop World T renderFn scenario fuel _ 0 fresh r [] w1)
      as [[[[r' all]|e] w2]|] eqn:Eruns; try discriminate.
    apply measurementLoop_fresh in Eruns; [|constructor].
    intros H. inversion H; subst. cbn [pm_metrics allRuns].
    split; [now apply aggregateRuns_fresh|exact Eruns].
  - intros fuel w r profiler' w' Honce.
    pose proof (renderOnce_resets _ _ _ _ _ Honce) as Hp.
    unfold measureRendersWithProfiler. fold fresh. cbn [nullish pro_runs
      pro_warmupRuns].
    assert (Hwarm : warmupLoop World T renderFn scenario (S fuel) 0 0 fresh
                      None w = Some (Return (fresh, None), w))
      by reflexivity.
    rewrite Hwarm.
    assert (Hruns : measurementLoop World T renderFn scenario (S fuel) 1 0
                      fresh None [] w
                    = Some (Return (Some r, [fresh]), w')).
    { cbn [measurementLoop]. change (JS.lt 0 1) with true. cbv iota.
      rewrite Honce, Hp. change (reset fresh) with fresh.
      change (0 + 1) with 1. change (getSnapshot fresh) with fresh.
      destruct fuel; cbn [measurementLoop app];
        change (JS.lt 1 1) with false; reflexivity. }
    rewrite Hruns. reflexivity.
Qed.

End PrivateProfiler.

Lemma measureRendersWithProfiler_reports_nothing_witness :
  measureRendersWithProfiler nat nat countingRender None 1
    {| pro_runs := None; pro_warmupRuns := None |} 0%nat
  = Some (Return {| pm_result := Some 1%nat;
                    pm_metrics := createProfiler "measured-component";
                    allRuns := [createProfiler "measured-component"] |},
          1%nat).
Proof.
  apply (proj2 (measureRendersWithProfiler_reports_nothing nat nat
                  countingRender None)
           0%nat 0%nat 1%nat (createProfiler "measured-component") 1%nat).
  reflexivity.
Defined.

(* ================================================================== *)
(** * How many runs [measureInteraction] performs *)
(* ================================================================== *)

Section RunCounts.
Local Open Scope float_scope.
Variable World : Type.
Variable performRun :
  list InteractionSpec -> World ->
  completion (RenderMetrics * list InteractionResult) * World.
Variable Date_now : World -> number.

Lemma not_positive_not_one (runs : number) :
  JS.lt 0 runs = false -> JS.strict_eq runs 1 = false.
Proof.
  unfold JS.lt, JS.strict_eq. rewrite ltb_spec, FloatAxioms.eqb_spec.
  change (Prim2SF 0) with (S754_zero false).
  change (Prim2SF 1) with SFone64.
  destruct (Prim2SF runs) as [s|s| |s m e]; try reflexivity.
  - now destruct s.
  - destruct s; [reflexivity|]. intros H. exfalso.
    exact (Bool.diff_true_false H).
Qed.

(** X22.  Asked for no run at all (a count that is zero, negative or
    [NaN]), [measureInteraction] performs none and fails in the
    aggregation with "No results to aggregate". *)
Theorem measureInteraction_without_runs fuel name options w :
  JS.lt 0 (nullish (opt_runs options) 1) = false ->
  measureInteraction World performRun Date_now fuel name options w
  = Some (Throw "No results to aggregate", w).
Proof.
  intros Hruns. unfold measureInteraction.
  assert (Hloop : runLoop World performRun Date_now fuel name options
                    (nullish (opt_runs options) 1) 0 w []
                  = Some (Return [], w)).
  { destruct fuel; cbn [runLoop]; now rewrite Hruns. }
  rewrite Hloop, (not_positive_not_one _ Hruns). reflexivity.
Qed.

Lemma runLoop_collects name options (n : nat) :
  (Z.of_nat n < 9007199254740992)%Z ->
  forall (k fuel i : nat) w allResults,
    (i + k = n)%nat -> (k <= fuel)%nat ->
    runLoop World performRun Date_now fuel name options (of_nat n) (of_nat i)
      w allResults
    = Some (collectRuns World performRun Date_now k name options w allResults).
Proof.
  intros Hn.
  induction k as [|k IH]; intros fuel i w allResults Hik Hfuel.
  - assert (Hlt : JS.lt (of_nat i) (of_nat n) = false).
    { unfold JS.lt, of_nat. rewrite of_Z_ltb by lia. apply Z.ltb_ge. lia. }
    destruct fuel; cbn [runLoop collectRuns]; now rewrite Hlt.
  - assert (Hlt : JS.lt (of_nat i) (of_nat n) = true).
    { unfold JS.lt, of_nat. rewrite of_Z_ltb by lia. apply Z.ltb_lt. lia. }
    destruct fuel as [|fuel]; [lia|].
    cbn [runLoop collectRuns]. rewrite Hlt.
    destruct (performRun (opt_interactions options) w)
      as [[[snapshot results]|e] w1]; [|reflexivity].
    rewrite of_nat_succ by lia.
    apply IH; lia.
Qed.

Lemma collectRuns_length name options :
  forall (n : nat) w allResults all w',
    collectRuns World performRun Date_now n name options w allResults
    = (Return all, w') ->
    List.length all = (List.length allResults + n)%nat.
Proof.
  induction n as [|n IH]; intros w allResults all w'; cbn [collectRuns].
  - intros H. inversion H. lia.
  - destruct (performRun (opt_interactions options) w)
      as [[[snapshot results]|e] w1]; [|discriminate].
    intros H. apply IH in H. rewrite length_app in H. cbn in H. lia.
Qed.

(** X23.  Asked for [n] runs, [measureInteraction] performs exactly [n]
    of them, one after the other, and stops at the first that throws; for
    two runs or more it returns the aggregate of the [n] results. *)
Theorem measureInteraction_performs_runs fuel name options (n : nat) w :
  opt_runs options = Some (of_nat n) ->
  (2 <= n <= fuel)%nat ->
  (Z.of_nat n < 9007199254740992)%Z ->
  measureInteraction World performRun Date_now fuel name options w
  = match collectRuns World performRun Date_now n name options w [] with
    | (Throw e, w') => Some (Throw e, w')
    | (Return allResults, w') =>
        Some (aggregateResults (Date_now w') allResults, w')
    end
  /\ forall allResults w',
       collectRuns World performRun Date_now n name options w []
       = (Return allResults, w') ->
       List.length allResults = n.
Proof.
  intros Hruns Hn Hbound. split.
  - unfold measureInteraction. rewrite Hruns. cbn [nullish].
    change 0 with (of_nat 0).
    rewrite (runLoop_collects name options n Hbound n fuel 0) by lia.
    destruct (collectRuns World performRun Date_now n name options w [])
      as [[all|e] w']; [|reflexivity].
    assert (Hne : JS.strict_eq (of_nat n) 1 = false).
    { unfold JS.strict_eq, of_nat. change 1 with (of_Z 1).
      rewrite of_Z_eqb by lia. apply Z.eqb_neq. lia. }
    rewrite Hne. reflexivity.
  - intros all w' H. apply collectRuns_length in H. exact H.
Qed.

End RunCounts.

Section RunCountExamples.
Local Open Scope float_scope.

Lemma measureInteraction_without_runs_witness :
  measureInteraction unit clickWorld_performRun clickWorld_Date_now 5 "Button"
    {| opt_interactions := []; opt_contract := None; opt_runs := Some 0 |} tt
  = Some (Throw "No results to aggregate", tt).
Proof.
  apply (measureInteraction_without_runs unit clickWorld_performRun
           clickWorld_Date_now 5 "Button"
           {| opt_interactions := []; opt_contract := None;
              opt_runs := Some 0 |} tt).
  reflexivity.
Defined.

Lemma measureInteraction_performs_runs_witness :
  measureInteraction unit clickWorld_performRun clickWorld_Date_now 3 "Button"
    {| opt_interactions := opt_interactions clickOptions;
       opt_contract := None;
       opt_runs := Some (of_nat 3) |} tt
  = Some (aggregateResults 0
            (repeat (runResult "Button" clickOptions clickSnapshot
                       [clickResult] 0) 3),
          tt).
Proof.
  apply (proj1 (measureInteraction_performs_runs unit clickWorld_performRun
                  clickWorld_Date_now 3 "Button"
                  {| opt_interactions := opt_interactions clickOptions;
                     opt_contract := None;
                     opt_runs := Some (of_nat 3) |} 3 tt
                  eq_refl ltac:(lia) ltac:(lia))).
Defined.

End RunCountExamples.

(* ================================================================== *)
(** * Reports *)
(* ================================================================== *)

Section Reports.
Local Open Scope float_scope.




Lemma of_nat_add (a b : nat) :
  (Z.of_nat (a + b) < 9007199254740992)%Z ->
  of_nat a + of_nat b = of_nat (a + b).
Proof.
  intros H. unfold of_nat. rewrite of_Z_add by lia. f_equal. lia.
Qed.



Lemma sum_of_counts {A : Type} (count : A -> nat) (xs : list A) :
  forall k : nat,
    (Z.of_nat (k + list_sum (map count xs)) < 9007199254740992)%Z ->
    fold_left (fun sum x => sum + of_nat (count x)) xs (of_nat k)
    = of_nat (k + list_sum (map count xs)).
Proof.
  induction xs as [|x xs IH]; intros k Hbound.
  - cbn [fold_left map]. change (list_sum []) with 0%nat.
    now rewrite Nat.add_0_r.
  - change (list_sum (map count (x :: xs)))
      with (count x + list_sum (map count xs))%nat in *.
    cbn [fold_left].
    rewrite of_nat_add by lia. rewrite IH by lia. f_equal. lia.
Qed.

Lemma sum_of_ext {A : Type} (f g : A -> number) (xs : list A) :
  (forall x, In x xs -> f x = g x) -> sum_of f xs = sum_of g xs.
Proof.
  unfold sum_of. generalize 0.
  induction xs as [|x xs IH]; intros acc H; [reflexivity|].
  cbn [fold_left]. rewrite (H x (or_introl eq_refl)).
  apply IH. intros y Hy. apply H. now right.
Qed.

Lemma filter_flat_map_length {A B : Type} (p : B -> bool) (f : A -> list B)
  (xs : list A) :
  List.length (filter p (flat_map f xs))
  = list_sum (map (fun x => List.length (filter p (f x))) xs).
Proof.
  induction xs as [|x xs IH]; [reflexivity|].
  change (list_sum (map (fun x => List.length (filter p (f x))) (x :: xs)))
    with (List.length (filter p (f x))
          + list_sum (map (fun x => List.length (filter p (f x))) xs))%nat.
  cbn [flat_map]. now rewrite filter_app, length_app, IH.
Qed.

Lemma filter_flat_map {A B : Type} (p : B -> bool) (f : A -> list B)
  (xs : list A) :
  filter p (flat_map f xs) = flat_map (fun x => filter p (f x)) xs.
Proof.
  induction xs as [|x xs IH]; [reflexivity|].
  cbn [flat_map]. now rewrite filter_app, IH.
Qed.

Lemma length_flat_map {A B : Type} (f : A -> list B) (xs : list A) :
  List.length (flat_map f xs) = list_sum (map (fun x => List.length (f x)) xs).
Proof.
  induction xs as [|x xs IH]; [reflexivity|].
  change (list_sum (map (fun x => List.length (f x)) (x :: xs)))
    with (List.length (f x)
          + list_sum (map (fun x => List.length (f x)) xs))%nat.
  cbn [flat_map]. now rewrite length_app, IH.
Qed.

Lemma filter_length_le {A : Type} (p : A -> bool) (xs : list A) :
  (List.length (filter p xs) <= List.length xs)%nat.
Proof.
  induction xs as [|x xs IH]; [apply le_n|].
  cbn [filter]. destruct (p x); cbn [List.length]; lia.
Qed.

Lemma list_sum_le {A : Type} (f g : A -> nat) (xs : list A) :
  (forall x, f x <= g x)%nat ->
  (list_sum (map f xs) <= list_sum (map g xs))%nat.
Proof.
  intros H. induction xs as [|x xs IH]; [apply le_n|].
  change (list_sum (map f (x :: xs))) with (f x + list_sum (map f xs))%nat.
  change (list_sum (map g (x :: xs))) with (g x + list_sum (map g xs))%nat.
  specialize (H x). lia.
Qed.

(** The sum the merge computes over the summaries of consistent
    reports is the count over the merged results. *)
Lemma merged_count (p : ValidationResult -> bool)
  (field : ResultSummary -> number) (reports : list TestReport) :
  (forall r, In r reports ->
     field (summary r) = of_nat (List.length (filter p (results r)))) ->
  (Z.of_nat (List.length (flat_map results reports)) < 9007199254740992)%Z ->
  sum_of (fun r => field (summary r)) reports
  = of_nat (List.length (filter p (flat_map results reports))).
Proof.
  intros Hfield Hbound.
  rewrite (sum_of_ext _ (fun r => of_nat (List.length (filter p (results r))))
             reports Hfield).
  unfold sum_of. change 0 with (of_nat 0).
  rewrite length_flat_map in Hbound.
  rewrite sum_of_counts.
  - cbn [Nat.add]. now rewrite filter_flat_map_length.
  - cbn [Nat.add].
    pose proof (list_sum_le
                  (fun r => List.length (filter p (results r)))
                  (fun r => List.length (results r)) reports
                  (fun r => filter_length_le p (results r))).
    lia.
Qed.

Lemma filter_true {A : Type} (xs : list A) : filter (fun _ => true) xs = xs.
Proof. induction xs as [|x xs IH]; [reflexivity|]. cbn. now rewrite IH. Qed.

(** X25.  [mergeJsonReports] refuses an empty list.  Otherwise the merged
    report lists the results of all reports in order, and its status is
    recomputed from them: it is [fail] exactly when some report lists a
    failed result.  Merging consistent reports gives a consistent report:
    the summed counts are the counts of the merged results. *)
Theorem merge_preserves_consistency now (reports : list TestReport) :
  mergeJsonReports now [] = Throw "Cannot merge empty reports array"
  /\ (reports <> [] ->
      exists merged,
        mergeJsonReports now reports = Return merged
        /\ results merged = flat_map results reports
        /\ (tr_status merged = fail
            <-> exists report r,
                  In report reports /\ In r (results report)
                  /\ status r = fail)
        /\ ((forall report, In report reports -> consistentReport report) ->
            (Z.of_nat (List.length (flat_map results reports))
             < 9007199254740992)%Z ->
            consistentReport merged)).
Proof.
  split; [reflexivity|].
  intros Hne. unfold mergeJsonReports.
  destruct reports as [|report0 reports']; [congruence|].
  cbn [List.length Nat.eqb].
  set (reports := report0 :: reports').
  eexists. split; [reflexivity|]. cbn [results tr_status summary].
  split; [reflexivity|]. split.
  - unfold getOverallStatus. rewrite combineStatuses_fail, in_map_iff.
    split.
    + intros (r & Hr & Hin). apply in_flat_map in Hin.
      destruct Hin as (report & Hreport & Hin). now exists report, r.
    + intros (report & r & Hreport & Hin & Hr). exists r.
      split; [exact Hr|]. apply in_flat_map. now exists report.
  - intros Hcons Hbound. unfold consistentReport.
    cbn [tr_status results summary]. split; [reflexivity|].
    unfold createSummary, countByStatus.
    cbn [count_pass count_warn count_fail].
    f_equal.
    + transitivity
        (of_nat (List.length
                   (filter (fun _ => true) (flat_map results reports))));
        [|now rewrite filter_true].
      apply merged_count; [|exact Hbound].
      intros r Hr. rewrite (proj2 (Hcons r Hr)), filter_true. reflexivity.
    + apply merged_count; [|exact Hbound].
      intros r Hr. now rewrite (proj2 (Hcons r Hr)).
    + apply merged_count; [|exact Hbound].
      intros r Hr. now rewrite (proj2 (Hcons r Hr)).
    + apply merged_count; [|exact Hbound].
      intros r Hr. now rewrite (proj2 (Hcons r Hr)).
    + rewrite (sum_of_ext _ (fun _ => 0) reports).
      * unfold sum_of. generalize reports. intros l.
        induction l as [|x l IH]; [reflexivity|exact IH].
      * intros r Hr. now rewrite (proj2 (Hcons r Hr)).
Qed.

Lemma merge_preserves_consistency_witness :
  exists merged,
    mergeJsonReports 1
      [reportOf [validateAgainstContract "Button"
                   (PlainMetrics (sampleMetrics 8 10))
                   (sampleContract 16 5 0.8 [])] true 0 (fun _ => None);
       reportOf [] true 0 (fun _ => None)]
    = Return merged
    /\ results merged
       = [validateAgainstContract "Button" (PlainMetrics (sampleMetrics 8 10))
            (sampleContract 16 5 0.8 [])].
Proof.
  destruct (proj2 (merge_preserves_consistency 1
                     [reportOf [validateAgainstContract "Button"
                                  (PlainMetrics (sampleMetrics 8 10))
                                  (sampleContract 16 5 0.8 [])]
                        true 0 (fun _ => None);
                      reportOf [] true 0 (fun _ => None)])
              ltac:(discriminate)) as (merged & Hmerged & Hresults & _).
  exists merged. split; [exact Hmerged|exact Hresults].
Defined.

(** X26.  The failed and warned results a report is asked for are as many
    as [countByStatus] counts; the overall status is [fail] exactly when
    there is a failed result, and otherwise [warn] exactly when there is
    a warned one; and the failed results of a merged report are those of
    the reports merged, in order. *)
Theorem failed_results_are_the_failures :
  (forall report,
      List.length (getFailedResults report)
      = count_fail (countByStatus (results report))
      /\ List.length (getWarningResults report)
         = count_warn (countByStatus (results report))
      /\ (getOverallStatus (results report) = fail
          <-> getFailedResults report <> [])
      /\ (getOverallStatus (results report) = warn
          <-> getFailedResults report = []
              /\ getWarningResults report <> []))
  /\ (forall now reports merged,
        mergeJsonReports now reports = Return merged ->
        getFailedResults merged = flat_map getFailedResults reports
        /\ getWarningResults merged = flat_map getWarningResults reports).
Proof.
  split.
  - intros report. unfold getFailedResults, getWarningResults.
    split; [reflexivity|]. split; [reflexivity|].
    assert (Hin : forall s,
              filter (fun r => ValidationStatus_eqb (status r) s)
                     (results report) <> []
              <-> In s (map status (results report))).
    { intros s. rewrite in_map_iff. split.
      - intros H.
        destruct (filter (fun r => ValidationStatus_eqb (status r) s)
                    (results report)) as [|r rest] eqn:E; [congruence|].
        assert (Hr : In r (r :: rest)) by now left.
        rewrite <- E in Hr. apply filter_In in Hr. destruct Hr as [Hr Hs].
        apply ValidationStatus_eqb_eq in Hs. now exists r.
      - intros (r & Hs & Hr) H.
        assert (Hf : In r (filter (fun r => ValidationStatus_eqb (status r) s)
                             (results report))).
        { apply filter_In. split; [exact Hr|].
          now apply ValidationStatus_eqb_eq. }
        rewrite H in Hf. contradiction. }
    unfold getOverallStatus, combineStatuses.
    rewrite !Hin.
    destruct (includes (map status (results report)) fail) eqn:Ef.
    + apply includes_In in Ef. split; split; try tauto; try discriminate.
      intros [H _].
      destruct (proj2 (Hin fail) Ef H).
    + assert (Hnf : ~ In fail (map status (results report))).
      { intros H. apply includes_In in H. congruence. }
      assert (Hempty : filter (fun r => ValidationStatus_eqb (status r) fail)
                         (results report) = []).
      { destruct (filter (fun r => ValidationStatus_eqb (status r) fail)
                    (results report)) eqn:E; [reflexivity|].
        exfalso. apply Hnf. apply Hin. rewrite E. discriminate. }
      destruct (includes (map status (results report)) warn) eqn:Ew.
      * apply includes_In in Ew.
        split; split; try tauto; try discriminate.
      * assert (Hnw : ~ In warn (map status (results report))).
        { intros H. apply includes_In in H. congruence. }
        split; split; try tauto; try discriminate.
  - intros now reports merged. unfold mergeJsonReports.
    destruct (Nat.eqb (List.length reports) 0); [discriminate|].
    intros H. inversion H; subst.
    unfold getFailedResults, getWarningResults. cbn [results].
    split; apply filter_flat_map.
Qed.

End Reports.

(* ================================================================== *)
(** * The GitHub action *)
(* ================================================================== *)

Section GitHubAction.

(** X27.  The action fails the job exactly when budget failures are to
    fail it and some result has status [fail]; the message then counts
    the failed results.  The [fail-on-regression] input has no effect. *)
Theorem action_fails_on_budget_only (validations : list ValidationResult)
  (failOnBudgetExceeded failOnRegression : bool) :
  let failed :=
    filter (fun r => ValidationStatus_eqb (status r) fail) validations in
  failureOf validations failOnBudgetExceeded failOnRegression
  = (if failOnBudgetExceeded && negb (Nat.eqb (List.length failed) 0)
     then Some (decimal (List.length failed)
                ++ " performance budget(s) exceeded")%string
     else None)
  /\ failureOf validations failOnBudgetExceeded failOnRegression
     = failureOf validations failOnBudgetExceeded (negb failOnRegression).
Proof.
  intros failed. unfold failureOf. fold failed.
  assert (Hstatus : ValidationStatus_eqb (getOverallStatus validations) fail
                    = negb (Nat.eqb (List.length failed) 0)).
  { subst failed. unfold getOverallStatus.
    induction validations as [|r validations IH]; [reflexivity|].
    cbn [map filter].
    unfold combineStatuses, includes in *. cbn [existsb].
    destruct (status r); cbn [ValidationStatus_eqb orb List.length Nat.eqb negb];
      try reflexivity.
    - destruct (existsb (ValidationStatus_eqb fail) (map status validations));
        [exact IH|].
      destruct (existsb (ValidationStatus_eqb warn) (map status validations));
        exact IH.
    - destruct (existsb (ValidationStatus_eqb fail) (map status validations));
        [exact IH|].
      destruct (existsb (ValidationStatus_eqb warn) (map status validations));
        [|exact IH].
      rewrite <- IH. reflexivity. }
  rewrite Hstatus.
  destruct (List.length failed) as [|n]; cbn [Nat.eqb negb Nat.ltb Nat.leb andb];
    [now destruct failOnBudgetExceeded|].
  destruct failOnBudgetExceeded; cbn [andb]; split; reflexivity.
Qed.

End GitHubAction.

(* ================================================================== *)
(** * One interaction *)
(* ================================================================== *)

Section OneInteraction.
Local Open Scope float_scope.
Variables World Element : Type.
Variable findElement : string -> World -> completion Element.
Variable fireEvent : DomEvent -> Element -> World -> completion unit * World.
Variable inputValue : Element -> World -> option string.
Variable tick : World -> World.
Variable profilerMetrics : World -> RenderMetrics.

Lemma performInteraction_result spec w r w' :
  performInteraction World Element findElement fireEvent inputValue tick
    profilerMetrics spec w = (Return r, w') ->
  interaction r = spec
  /\ rendersTriggered r
     = renderCount (profilerMetrics w') - renderCount (profilerMetrics w)
  /\ totalRenderTime r
     = totalActualDuration (profilerMetrics w')
       - totalActualDuration (profilerMetrics w)
  /\ ir_averageRenderTime r
     = derivedAverage (totalRenderTime r) (rendersTriggered r).
Proof.
  unfold performInteraction.
  destruct (findElement (target spec) w) as [element|e];
    [|discriminate].
  cbv zeta.
  match goal with
  | |- match ?fired with _ => _ end = _ -> _ =>
      destruct fired as [[u|e] w1]; [|discriminate]
  end.
  intros H. inversion H; subst. repeat split.
Qed.

(** Text made of single-byte characters is typed one byte at a time. *)
Lemma codePoints_single_bytes (s : string) :
  Forall (fun c => (Ascii.N_of_ascii c < 192)%N) (list_ascii_of_string s) ->
  codePoints s = map (fun c => String c "") (list_ascii_of_string s).
Proof.
  unfold codePoints.
  induction s as [|c s IH]; intros Hall; cbn [list_ascii_of_string map];
    [reflexivity|].
  cbn [list_ascii_of_string] in Hall. inversion Hall as [|c' cs Hc Hs]; subst.
  cbn [codePointsFrom]. unfold utf8Length.
  apply N.ltb_lt in Hc. rewrite Hc. f_equal. now apply IH.
Qed.

(** A character of several bytes is typed at once: U+65E5, encoded as
    the bytes E6 97 A5, between two letters. *)
Lemma codePoints_three_bytes :
  let day :=
    String (Ascii.ascii_of_nat 230)
      (String (Ascii.ascii_of_nat 151)
         (String (Ascii.ascii_of_nat 165) "")) in
  codePoints ("a" ++ day ++ "b") = ["a"; day; "b"]%string.
Proof. reflexivity. Qed.

(** X28.  An interaction whose target is not found fires nothing and
    fails with the error of the lookup.  When the interaction is
    performed, [rendersTriggered] is the number of renders React reported
    to the profiler between the start of the interaction and the end of
    the wait that follows it, the render time is the difference of the
    totals, and the average is their quotient, or 0 when nothing
    rendered. *)
Theorem performInteraction_counts_commits spec w :
  (forall e,
      findElement (target spec) w = Throw e ->
      performInteraction World Element findElement fireEvent inputValue tick
        profilerMetrics spec w = (Throw e, w))
  /\ (forall r w' (before : nat) (events : list RenderEvent),
        performInteraction World Element findElement fireEvent inputValue tick
          profilerMetrics spec w = (Return r, w') ->
        renderCount (profilerMetrics w) = of_nat before ->
        profilerMetrics w' = afterRenders (profilerMetrics w) events ->
        (Z.of_nat (before + List.length events) < 9007199254740992)%Z ->
        rendersTriggered r = of_nat (List.length events)
        /\ totalRenderTime r
           = totalActualDuration (profilerMetrics w')
             - totalActualDuration (profilerMetrics w)
        /\ ir_averageRenderTime r
           = derivedAverage (totalRenderTime r) (rendersTriggered r)
        /\ (events = [] -> ir_averageRenderTime r = 0)).
Proof.
  split.
  - intros e He. unfold performInteraction. now rewrite He.
  - intros r w' before events Hrun Hbefore Hafter Hbound.
    destruct (performInteraction_result spec w r w' Hrun)
      as (_ & Hcount & Htime & Havg).
    destruct (afterRenders_from events (profilerMetrics w) before Hbefore
                Hbound) as (Hc & _).
    assert (Hn : rendersTriggered r = of_nat (List.length events)).
    { rewrite Hcount, Hafter, Hc, Hbefore. unfold of_nat.
      rewrite of_Z_sub by lia. f_equal. lia. }
    repeat split; try assumption.
    intros ->. rewrite Havg, Hn. reflexivity.
Qed.

End OneInteraction.

Section OneInteractionExample.
Local Open Scope float_scope.

Lemma performInteraction_counts_commits_witness :
  exists r w',
    performInteraction RenderMetrics unit buttonPage_findElement
      buttonPage_fireEvent (fun _ _ => None) (fun w => w) (fun w => w)
      {| is_type := click; target := "button"; text := None |}
      (afterRenders (createProfiler "Button") [mountEvent 0.5])
    = (Return r, w')
    /\ rendersTriggered r = 2.
Proof.
  eexists. eexists. split; [reflexivity|].
  refine (proj1 (proj2 (performInteraction_counts_commits RenderMetrics unit
                          buttonPage_findElement buttonPage_fireEvent
                          (fun _ _ => None) (fun w => w) (fun w => w)
                          {| is_type := click; target := "button";
                             text := None |}
                          (afterRenders (createProfiler "Button")
                             [mountEvent 0.5]))
                  _ _ 1%nat
                  [{| phase := update; actualDuration := 0.25;
                      baseDuration := 0.25; startTime := 1;
                      commitTime := 2 |};
                   {| phase := update; actualDuration := 0.25;
                      baseDuration := 0.25; startTime := 2;
                      commitTime := 3 |}]
                  eq_refl _ _ _)).
  - reflexivity.
  - reflexivity.
  - cbn. lia.
Defined.

End OneInteractionExample.

(* ================================================================== *)
(** * Test matchers *)
(* ================================================================== *)

Section Matchers.
Local Open Scope float_scope.

Lemma leb_infinity (x : float) : comparable x -> (x <=? infinity) = true.
Proof.
  unfold comparable. rewrite leb_spec.
  change (Prim2SF infinity) with (S754_infinity false).
  destruct (Prim2SF x) as [s|[]| |[] m e]; try reflexivity.
  intros H. now elim H.
Qed.

Lemma or_zero_comparable (v : option number) : comparable (or_zero v).
Proof.
  unfold or_zero, truthy, comparable, PrimFloat.is_nan.
  destruct v as [x|]; [|discriminate].
  destruct (negb ((negb (x =? x)) || PrimFloat.is_zero x)) eqn:E;
    [|discriminate].
  intros Hnan.
  rewrite FloatAxioms.eqb_spec, Hnan in E. discriminate.
Qed.

Lemma within_iff_not_above (a b : float) :
  comparable a -> comparable b ->
  ((a <=? b) = true <-> JS.gt a b = false).
Proof.
  intros Ha Hb. unfold JS.gt. split.
  - apply leb_not_gtb.
  - now apply not_gtb_leb.
Qed.

Lemma not_neq_infinity (x : float) :
  strict_neq x Infinity = false -> x = infinity.
Proof.
  unfold strict_neq, Infinity. intros H. apply negb_false_iff in H.
  rewrite FloatAxioms.eqb_spec in H. apply Prim2SF_inj.
  change (Prim2SF infinity) with (S754_infinity false) in *.
  unfold SFeqb, SFcompare in H.
  destruct (Prim2SF x) as [s|[]| |[] m e]; try discriminate. reflexivity.
Qed.

Lemma passes_iff_within m c :
  NoDup (keys (interactions c)) ->
  (forall name a b,
      In (name, a, b) (map comparison_of (performedChecks m c)) ->
      JS.gt b 0 = true) ->
  (passesContract m c = true
   <-> forall name a b,
         In (name, a, b) (map comparison_of (performedChecks m c)) ->
         JS.gt a b = false).
Proof.
  intros Hnd Hpos.
  rewrite (passesContract_status "").
  destruct (validateAgainstContract_structure "" m c Hnd) as (_ & _ & ->).
  rewrite combineStatuses_fail, in_map_iff.
  assert (Hfail : forall e, In e (performedChecks m c) ->
            (mv_status (snd e) = fail
             <-> JS.gt (actual (snd e)) (budget (snd e)) = true)).
  { intros e He.
    assert (Hb : JS.gt (budget (snd e)) 0 = true).
    { apply (Hpos (fst e) (actual (snd e))).
      apply in_map_iff. exists e. split; [reflexivity|exact He]. }
    rewrite (performedChecks_validateMetric m c e He) at 1.
    exact (proj1 (proj2 (validateMetric_status _ _ (warningThreshold c) Hb))). }
  split.
  - intros Hno name a b Hin.
    apply in_map_iff in Hin. destruct Hin as (e & He & Hin).
    unfold comparison_of in He. inversion He; subst.
    destruct (JS.gt (actual (snd e)) (budget (snd e))) eqn:E; [|reflexivity].
    exfalso. apply Hno. exists e. split; [|exact Hin].
    now apply Hfail.
  - intros Hall (e & He & Hin).
    apply (Hfail e Hin) in He.
    rewrite (Hall (fst e) (actual (snd e)) (budget (snd e))) in He;
      [discriminate|].
    apply in_map_iff. exists e. split; [reflexivity|exact Hin].
Qed.

(** X29.  The test matchers agree with the validator.  For an interaction
    measurement whose render count and average render time are numbers,
    and a contract whose budgets are all positive, the contract is passed
    exactly when [toHaveRenderTimeAtMost], [toHaveRendersAtMost] and, for
    every declared interaction kind, [toHaveRendersPerInteractionAtMost]
    pass with the contract's budgets. *)
Theorem matchers_agree_with_contract (r : MeasureInteractionResult)
  (c : ResolvedComponentContract) :
  NoDup (keys (interactions c)) ->
  JS.gt (maxRenderTime c) 0 = true ->
  JS.gt (maxRenderCount c) 0 = true ->
  (forall k b mr, In (k, b) (interactions c) -> maxRenders b = Some mr ->
                  JS.gt mr 0 = true) ->
  comparable (rm_averageRenderTime (mi_metrics r)) ->
  comparable (renderCount (mi_metrics r)) ->
  let received := ReceivedMeasurements (InteractionMeasurement r) in
  passesContract (InteractionMeasurement r) c = true
  <-> toHaveRenderTimeAtMost received (maxRenderTime c) = true
      /\ toHaveRendersAtMost received (maxRenderCount c) = true
      /\ forall k b mr,
           In (k, b) (interactions c) -> maxRenders b = Some mr ->
           toHaveRendersPerInteractionAtMost received k mr = true.
Proof.
  intros Hnd Htime Hcount Hinter Hct Hcc received. subst received.
  cbn [toHaveRenderTimeAtMost toHaveRendersAtMost
       toHaveRendersPerInteractionAtMost].
  assert (Hpos : forall name a b,
            In (name, a, b)
               (map comparison_of
                  (performedChecks (InteractionMeasurement r) c)) ->
            JS.gt b 0 = true).
  { intros name a b Hin. rewrite performedChecks_comparisons in Hin.
    apply (compared_budget _ c (rendersByType r)) in Hin.
    destruct Hin as [->|[->|(k & ib & Hk & Hmr)]];
      [exact Htime|exact Hcount|exact (Hinter k ib b Hk Hmr)]. }
  rewrite (passes_iff_within _ c Hnd Hpos), performedChecks_comparisons.
  unfold componentComparisons. cbn [renderMetricsOf].
  assert (Hib : forall mr, JS.gt mr 0 = true -> comparable mr)
    by (intros mr H; exact (ltb_comparable_r _ _ H)).
  split.
  - intros Hall. split; [|split].
    + destruct (strict_neq (maxRenderTime c) Infinity) eqn:E.
      * apply within_iff_not_above; [exact Hct|now apply Hib|].
        apply (Hall "renderTime"). now left.
      * rewrite (not_neq_infinity _ E). now apply leb_infinity.
    + destruct (strict_neq (maxRenderCount c) Infinity) eqn:E.
      * apply within_iff_not_above; [exact Hcc|now apply Hib|].
        apply (Hall "renderCount"). apply in_or_app. left.
        apply in_or_app. right. now left.
      * rewrite (not_neq_infinity _ E). now apply leb_infinity.
    + intros k b mr Hk Hmr.
      apply within_iff_not_above;
        [apply or_zero_comparable|exact (Hib mr (Hinter k b mr Hk Hmr))|].
      apply (Hall (interactionMetricName k)).
      apply in_or_app. right.
      unfold interactionComparisons, entries. apply in_flat_map.
      exists (k, b). split; [exact Hk|]. rewrite Hmr. now left.
  - intros (Ht & Hc & Hi) name a b Hin.
    apply in_app_or in Hin. destruct Hin as [Hin|Hin];
      [apply in_app_or in Hin; destruct Hin as [Hin|Hin]|].
    + destruct (strict_neq (maxRenderTime c) Infinity); [|contradiction].
      destruct Hin as [Hin|[]]. inversion Hin; subst.
      now apply leb_not_gtb.
    + destruct (strict_neq (maxRenderCount c) Infinity); [|contradiction].
      destruct Hin as [Hin|[]]. inversion Hin; subst.
      now apply leb_not_gtb.
    + unfold interactionComparisons, entries in Hin.
      apply in_flat_map in Hin. destruct Hin as ([k ib] & Hk & Hin).
      destruct (maxRenders ib) as [mr|] eqn:Hmr; [|contradiction].
      destruct Hin as [Hin|[]]. inversion Hin; subst.
      apply leb_not_gtb. exact (Hi k ib b Hk Hmr).
Qed.

Lemma matchers_agree_with_contract_witness :
  let c := sampleContract 16 10 0.8 [(click, rendersBudget 5)] in
  let received := ReceivedMeasurements (InteractionMeasurement sampleMeasurement) in
  passesContract (InteractionMeasurement sampleMeasurement) c = true
  <-> toHaveRenderTimeAtMost received (maxRenderTime c) = true
      /\ toHaveRendersAtMost received (maxRenderCount c) = true
      /\ forall k b mr,
           In (k, b) (interactions c) -> maxRenders b = Some mr ->
           toHaveRendersPerInteractionAtMost received k mr = true.
Proof.
  apply (matchers_agree_with_contract sampleMeasurement
           (sampleContract 16 10 0.8 [(click, rendersBudget 5)])).
  - repeat constructor; simpl; tauto.
  - reflexivity.
  - reflexivity.
  - intros k b mr [H|[]] Hmr. inversion H; subst. inversion Hmr. reflexivity.
  - unfold comparable. vm_compute. discriminate.
  - unfold comparable. vm_compute. discriminate.
Defined.

End Matchers.

Section ContractMatcher.
Variable World : Type.
Variable loadConfig :
  option string -> World -> completion (option LoadedConfig) * World.

(** X30.  [toPassContract] passes exactly when the configuration that
    [getConfig] yields has a contract under the name given (or, when none
    or the empty name is given, under the name the measurement carries)
    and [passesContract] accepts the measurement against it; a component
    without a contract never passes.  When the configuration cannot be
    loaded the matcher throws the loader's error. *)
Theorem toPassContract_passes_iff received contractName cache w :
  (forall config cache' w',
      getConfig World loadConfig None false cache w
      = (Return config, cache', w') ->
      let name :=
        match contractName with
        | Some given => if String.eqb given "" then componentNameOf received
                        else given
        | None => componentNameOf received
        end in
      toPassContract World loadConfig received contractName cache w
      = (Return
           match getComponentContract config name with
           | Some contract => passesContract received contract
           | None => false
           end,
         cache', w'))
  /\ (forall e cache' w',
        getConfig World loadConfig None false cache w = (Throw e, cache', w') ->
        toPassContract World loadConfig received contractName cache w
        = (Throw e, cache', w')).
Proof.
  split.
  - intros config cache' w' Hconfig name.
    unfold toPassContract. rewrite Hconfig. cbn [bind].
    assert (Hname : match string_or contractName None with
                    | Some n => n
                    | None => componentNameOf received
                    end = name).
    { subst name. unfold string_or.
      destruct contractName as [given|]; [|reflexivity].
      now destruct (String.eqb given ""). }
    rewrite Hname.
    destruct (getComponentContract config name) as [contract|]; [|reflexivity].
    unfold passesContract.
    destruct (validateAgainstContract_name name (componentNameOf received)
                received contract) as [-> _].
    reflexivity.
  - intros e cache' w' Hconfig. unfold toPassContract. now rewrite Hconfig.
Qed.

End ContractMatcher.

Section ContractMatcherExample.
Local Open Scope float_scope.

Lemma toPassContract_passes_iff_witness :
  toPassContract nat (searchFinds (Some sparseConfigFile))
    (PlainMetrics (sampleMetrics 3 14)) None initialCache 0%nat
  = (Return true,
     {| cachedConfig := Some (resolveConfig sparseConfig);
        cachedConfigPath := Some "/app/perf.contracts.ts" |}, 1%nat).
Proof.
  apply (proj1 (toPassContract_passes_iff nat
                  (searchFinds (Some sparseConfigFile))
                  (PlainMetrics (sampleMetrics 3 14)) None initialCache 0%nat)
           (resolveConfig sparseConfig)).
  reflexivity.
Defined.

End ContractMatcherExample.
